(** * edx-dl: the deduplication, caching and subtitle pipeline of [edx_dl.py]

    A shallow embedding of the functions of [src/edx_dl/edx_dl.py] that
    sit between the extraction of the units of a course and their
    download, together with the properties the specification states
    about them.

    - Python [dict]s are insertion-ordered association lists with unique
      keys (module [Dict]); iteration order matters for deduplication.
    - The [set] of already seen urls is a [gset (option string)]: the
      source adds [unit.video_youtube_url] to it even when it is [None].
    - Code that touches the file system or the network runs in a small
      state-and-exception monad over a [world]. *)

From Stdlib Require Import Ascii String.
From stdpp Require Import base decidable option list strings gmap sets pretty.

Set Default Proof Using "Type".

(** ** Ordered dictionaries *)

Module Dict.

(** [dict V] is a Python [dict] with [str] keys: the pairs in insertion
    order.  A well-formed dictionary ([wf]) holds each key once. *)
Abbreviation dict V := (list (string * V)).

Section Operations.
Context {V : Type}.

Definition empty : dict V := [].

(** [d.keys()], [d.values()] and [d.items()]. *)
Definition keys (d : dict V) : list string := d.*1.
Definition values (d : dict V) : list V := d.*2.
Definition items (d : dict V) : list (string * V) := d.

Definition wf (d : dict V) : Prop := NoDup (keys d).

(** [d.get(k)] *)
Fixpoint get (d : dict V) (k : string) : option V :=
  match d with
  | [] => None
  | (k', v) :: d' => if decide (k' = k) then Some v else get d' k
  end.

(** [k in d] *)
Definition mem (k : string) (d : dict V) : bool :=
  bool_decide (k ∈ keys d).

(** [d[k] = v]: an existing key keeps its position, a new key goes to
    the end. *)
Fixpoint set (d : dict V) (k : string) (v : V) : dict V :=
  match d with
  | [] => [(k, v)]
  | (k', v') :: d' =>
      if decide (k' = k) then (k', v) :: d' else (k', v') :: set d' k v
  end.

(** [d.update(other)] *)
Definition update (d other : dict V) : dict V :=
  fold_left (λ acc kv, set acc kv.1 kv.2) (items other) d.

(** [dict(pairs)] *)
Definition of_pairs (pairs : list (string * V)) : dict V :=
  fold_left (λ acc kv, set acc kv.1 kv.2) pairs empty.

End Operations.

End Dict.

Import Dict.

(** ** Resource records *)

(** The [Unit] of [common.py], as [remove_repeated_urls] constructs it:
    three optional urls and two lists of urls. *)
Record Unit := mkUnit {
  video_youtube_url : option string;
  available_subs_url : option string;
  sub_template_url : option string;
  mp4_urls : list string;
  resources_urls : list string;
}.

#[global] Instance Unit_eq_dec : EqDecision Unit.
Proof. solve_decision. Defined.

(** The all-units map: subsection url to the units of its page. *)
Abbreviation all_units_map := (dict (list Unit)).

(** The urls that deduplication looks at: the youtube url when it is set,
    then the mp4 urls, then the resource urls. *)
Definition unit_urls (u : Unit) : list string :=
  option_list (video_youtube_url u) ++ mp4_urls u ++ resources_urls u.

Definition units_urls (us : list Unit) : list string :=
  us ≫= unit_urls.

(** Every such url of a map, in the order of traversal: subsections in the
    order of the dictionary, units in the order of their list. *)
Definition all_resource_urls (m : all_units_map) : list string :=
  values m ≫= units_urls.

(** ** Deduplication: [remove_repeated_urls] *)

Module Dedup.

(** The set [existing_urls].  It holds what the source adds to it: the
    value of [video_youtube_url], which may be [None], and strings. *)
Abbreviation url_set := (gset (option string)).

(** The two inner loops of the source have one shape:
<<
    mp4_urls = []
    for mp4_url in unit.mp4_urls:
        if mp4_url not in existing_urls:
            mp4_urls.append(mp4_url)
            existing_urls.add(mp4_url)
>>
    The state of the loop is the list built so far and the set. *)
Definition keep_step (st : list string * url_set) (url : string)
  : list string * url_set :=
  let '(kept, existing_urls) := st in
  if decide (Some url ∉ existing_urls)
  then (kept ++ [url], {[Some url]} ∪ existing_urls)
  else (kept, existing_urls).

Definition keep_new (existing_urls : url_set) (urls : list string)
  : list string * url_set :=
  fold_left keep_step urls ([], existing_urls).

(** The three locals [video_youtube_url], [mp4_urls] and
    [resources_urls] that the body of the loop over the units computes,
    and the set afterwards. *)
Definition dedup_fields (existing_urls : url_set) (unit : Unit)
  : (option string * list string * list string) * url_set :=
  let '(video, e1) :=
    if decide (video_youtube_url unit ∉ existing_urls)
    then (video_youtube_url unit, {[video_youtube_url unit]} ∪ existing_urls)
    else (None, existing_urls) in
  let '(mp4, e2) := keep_new e1 (mp4_urls unit) in
  let '(resources, e3) := keep_new e2 (resources_urls unit) in
  ((video, mp4, resources), e3).

(** The condition under which the body appends a unit. *)
Definition has_urls (video : option string) (mp4 resources : list string)
  : bool :=
  bool_decide (video ≠ None) || bool_decide (0 < length mp4)
  || bool_decide (0 < length resources).

(** The body of the loop over the units of a subsection: the unit that
    is appended to [reduced_units], if one is, and the set afterwards. *)
Definition reduce_unit (existing_urls : url_set) (unit : Unit)
  : option Unit * url_set :=
  let '((video, mp4, resources), e) := dedup_fields existing_urls unit in
  if has_urls video mp4 resources
  then (Some {| video_youtube_url := video;
                available_subs_url := available_subs_url unit;
                sub_template_url := sub_template_url unit;
                mp4_urls := mp4;
                resources_urls := resources |}, e)
  else (None, e).

Definition units_step (st : list Unit * url_set) (unit : Unit)
  : list Unit * url_set :=
  let '(reduced_units, existing_urls) := st in
  match reduce_unit existing_urls unit with
  | (Some unit', e) => (reduced_units ++ [unit'], e)
  | (None, e) => (reduced_units, e)
  end.

Definition reduce_units (existing_urls : url_set) (units : list Unit)
  : list Unit * url_set :=
  fold_left units_step units ([], existing_urls).

(** The body of the loop over [all_units.items()]. *)
Definition items_step (st : all_units_map * url_set)
    (item : string * list Unit) : all_units_map * url_set :=
  let '(filtered_units, existing_urls) := st in
  let '(reduced_units, e) := reduce_units existing_urls item.2 in
  (set filtered_units item.1 reduced_units, e).

Definition remove_repeated_urls (all_units : all_units_map) : all_units_map :=
  (fold_left items_step (items all_units) (empty, ∅)).1.

(** [num_urls_in_units_dict]: the generator expression under [sum].  The
    two subtitle fields count, although the docstring says that subtitles
    are ignored. *)
Definition unit_count (unit : Unit) : nat :=
  (if video_youtube_url unit is Some _ then 1 else 0) +
  (if available_subs_url unit is Some _ then 1 else 0) +
  (if sub_template_url unit is Some _ then 1 else 0) +
  length (mp4_urls unit) + length (resources_urls unit).

Definition num_urls_in_units_dict (units_dict : all_units_map) : nat :=
  sum_list (units ← values units_dict; unit ← units; [unit_count unit]).

End Dedup.


(** ** The world outside: file system, network, external commands *)

(** The exceptions the modelled code raises, catches or lets through. *)
Inductive exn :=
  | HTTPError          (* urllib: an HTTP error status *)
  | URLError           (* urllib: any other failure to reach the url *)
  | ValueError         (* json: the body is not JSON *)
  | UnpicklingError    (* pickle: the cache file is not a pickle *)
  | TypeError          (* [%]: the template does not take one string *)
  | IndexError         (* [rsplit('/', 1)[1]] on a url without [/] *)
  | OSError            (* the external command cannot be run *)
  | AttributeError     (* an exception object has no such attribute *)
  | SystemExit (code : nat).

#[global] Instance exn_eq_dec : EqDecision exn.
Proof. solve_decision. Defined.

(** [HTTPError] is a subclass of [URLError]. *)
Definition isinstance_URLError (e : exn) : bool :=
  match e with HTTPError | URLError => true | _ => false end.

Inductive result (A : Type) :=
  | Ok (a : A)
  | Raise (e : exn).
Arguments Ok {A} a.
Arguments Raise {A} e.

(** What a file holds: a pickled all-units map or plain bytes. *)
Inductive file_content :=
  | Pickled (units : all_units_map)
  | Bytes (body : string).

(** What the program does to the outside, in order. *)
Inductive event :=
  | Printed (msg : string)
  | NetFetch (url : string)
  | FileWrite (path : string)
  | UrlRetrieve (url path : string)
  | Mkdir (path : string)
  | Exec (cmd : list string).

#[global] Instance event_eq_dec : EqDecision event.
Proof. solve_decision. Defined.

(** The file system maps absolute paths to contents; [cwd] is the working
    directory, [trace] the events so far. *)
Record world := mkWorld {
  cwd : string;
  files : gmap string file_content;
  trace : list event;
}.

Abbreviation headers_t := (dict string).

(** The collaborators of [edx_dl.py] that live in other modules
    ([common], [parsing], [utils]), in the standard library or on the
    network.  Each field stands for the named Python callable or
    constant; a network field gives the outcome of the request. *)
Record env := mkEnv {
  (* common.py *)
  YOUTUBE_DL_CMD : list string;
  DEFAULT_CACHE_FILENAME : string;
  (* utils.py *)
  clean_filename : string → string;
  directory_name : string → string;
  (* [get_filename_from_prefix(target_dir, filename_prefix)] lists the
     directory, so it depends on the files present. *)
  get_filename_from_prefix : gmap string file_content → string → string → option string;
  (* [execute_command(cmd)]: what the external downloader leaves behind. *)
  execute_command : list string → gmap string file_content → result (gmap string file_content);
  (* [template % arg] *)
  str_mod : string → string → result string;
  (* [extract_units_from_html(get_page_contents(url, headers), BASE_URL)] *)
  page_units : string → headers_t → result (list Unit);
  (* [get_page_contents_as_json(url, headers)] at an available-subs url:
     the languages in the order iteration yields them. *)
  page_languages : string → headers_t → result (list string);
  (* [edx_json2srt(get_page_contents_as_json(url, headers))] *)
  page_srt : string → headers_t → result string;
  (* the body [urlretrieve(url, filename)] stores *)
  url_body : string → result string;
  (* [str(exception.reason)] of a [URLError] or [HTTPError] *)
  error_reason : exn → string;
  (* the scheduling of the threads of a pool: at step [n], among the
     tasks that are running, which one makes its next step *)
  pool_schedule : nat → nat;
}.

(** *** The monad of effectful code

    A computation takes the world and returns a value or a raised
    exception, with the world as it is at that point. *)
Definition M (A : Type) : Type := world → result A * world.

(** The type of what a Python procedure returns. *)
Abbreviation NoneType := Datatypes.unit.

Definition ret {A} (a : A) : M A := λ w, (Ok a, w).

Definition bind {A B} (m : M A) (k : A → M B) : M B :=
  λ w, match m w with
       | (Ok a, w') => k a w'
       | (Raise e, w') => (Raise e, w')
       end.

Definition raise {A} (e : exn) : M A := λ w, (Raise e, w).

Definition lift {A} (r : result A) : M A := λ w, (r, w).

Declare Scope eff_scope.
Delimit Scope eff_scope with eff.
Notation "x <- m ;; k" := (bind m (λ x, k))
  (at level 100, m at next level, right associativity) : eff_scope.
Notation "m ;; k" := (bind m (λ _, k))
  (at level 100, right associativity) : eff_scope.
Open Scope eff_scope.

(** [try: m except ...: handler], for the exceptions [handles] selects. *)
Definition try_except {A} (m : M A) (handles : exn → bool) (handler : exn → M A)
  : M A :=
  λ w, match m w with
       | (Raise e, w') => if handles e then handler e w' else (Raise e, w')
       | r => r
       end.

(** [for x in l: body x] *)
Fixpoint for_each {A} (l : list A) (body : A → M NoneType) : M NoneType :=
  match l with
  | [] => ret ()
  | x :: l' => body x ;; for_each l' body
  end.

(** [[f x for x in l]], evaluated left to right. *)
Fixpoint map_M {A B} (f : A → M B) (l : list A) : M (list B) :=
  match l with
  | [] => ret []
  | x :: l' => y <- f x ;; ys <- map_M f l' ;; ret (y :: ys)
  end.

Definition emit (ev : event) : M NoneType :=
  λ w, (Ok (), mkWorld (cwd w) (files w) (trace w ++ [ev])).

Definition compat_print (msg : string) : M NoneType := emit (Printed msg).

(** *** Paths and files *)

Definition is_absolute (path : string) : bool :=
  match path with String "/"%char _ => true | _ => false end.

Fixpoint ends_with_slash (path : string) : bool :=
  match path with
  | "" => false
  | String c "" => bool_decide (c = "/"%char)
  | String _ rest => ends_with_slash rest
  end.

(** [os.path.join(a, b)] on POSIX. *)
Definition os_path_join (a b : string) : string :=
  if is_absolute b then b
  else if bool_decide (a = "") || ends_with_slash a then a +:+ b
  else a +:+ "/" +:+ b.

(** The file a path names: relative paths start at [cwd]. *)
Definition resolve (w : world) (path : string) : string :=
  os_path_join (cwd w) path.

Definition os_getcwd : M string := λ w, (Ok (cwd w), w).

Definition os_path_exists (path : string) : M bool :=
  λ w, (Ok (bool_decide (is_Some (files w !! resolve w path))), w).

(** [open(path, 'wb').write(content)] *)
Definition write_file (path : string) (content : file_content) : M NoneType :=
  λ w, (Ok (), mkWorld (cwd w) (<[resolve w path := content]> (files w))
                       (trace w ++ [FileWrite (resolve w path)])).

(** [pickle.load(open(path, 'rb'))] *)
Definition pickle_load (path : string) : M all_units_map :=
  λ w, match files w !! resolve w path with
       | Some (Pickled units) => (Ok units, w)
       | Some (Bytes _) => (Raise UnpicklingError, w)
       | None => (Raise OSError, w)
       end.

(** The paths of the [FileWrite] events of a trace. *)
Definition writes_of (t : list event) : list string :=
  omap (λ ev, match ev with FileWrite p => Some p | _ => None end) t.

(** The urls of the [NetFetch] events of a trace. *)
Definition fetches_of (t : list event) : list string :=
  omap (λ ev, match ev with NetFetch u => Some u | _ => None end) t.

(** ** A pool of threads: [multiprocessing.dummy.Pool(n).map]

    [pool.map(func, iterable)] cuts the iterable into batches, runs each
    batch as a task ([mapstar]: the calls of a batch one after the other,
    up to the first that raises), and returns when every task is done:
    the results in the order of the iterable, or the exception of the
    task that failed first (Python 3).  The tasks run in threads, so their
    events interleave; the order is that of a schedule.  The pool runs at
    most [workers] tasks at a time and starts them in order; the model
    lets any task make the next step, so it allows every interleaving the
    pool has, and more.  An event stands for an action at the moment
    it ends, so a task that fails is done with its last event.  The
    tasks of this program only print and fetch: they start from the
    files as they are and leave them alone. *)

Module Pool.

(** [chunksize, extra = divmod(len(iterable), len(pool) * 4)], one more
    when [extra] is not zero. *)
Definition chunksize (workers n : nat) : nat :=
  let chunksize := n / (workers * 4) in
  let extra := n mod (workers * 4) in
  if decide (extra = 0) then chunksize else S chunksize.

(** [Pool._get_tasks]: slices of [size] items, until a slice is empty. *)
Fixpoint batches {A} (fuel size : nat) (l : list A) : list (list A) :=
  match fuel with
  | 0 => []
  | S fuel' =>
      match take size l with
      | [] => []
      | batch => batch :: batches fuel' size (drop size l)
      end
  end.

(** A task that runs: the events it still has to emit, and the exception
    it ends with, if it fails. *)
Record task := mkTask {
  task_events : list event;
  task_error : option exn;
}.

(** The tasks run to their end.  At each step the schedule picks one of
    the running tasks, which emits its next event; a task with no event
    left is done, and the first task that is done with an exception
    gives the exception of the whole. *)
Fixpoint run_tasks (pick : nat → nat) (fuel step : nat)
    (running : list task) (first_error : option exn)
  : list event * option exn :=
  match fuel with
  | 0 => ([], first_error)
  | S fuel' =>
      let i := pick step `mod` length running in
      match running !! i with
      | Some (mkTask (ev :: rest) error) =>
          let '(running', first_error') :=
            match rest with
            | [] => (delete i running,
                     if first_error is None then error else first_error)
            | _ => (<[i := mkTask rest error]> running, first_error)
            end in
          let '(events, e) := run_tasks pick fuel' (S step) running' first_error' in
          (ev :: events, e)
      | _ => ([], first_error)
      end
  end.

(** [mapstar]: [list(map(func, batch))] *)
Definition mapstar {A B} (func : A → M B) (batch : list A) : M (list B) :=
  map_M func batch.

Definition pool_map {A B} (pick : nat → nat) (workers : nat)
    (func : A → M B) (iterable : list A) : M (list B) :=
  λ w,
    let size := chunksize workers (length iterable) in
    let runs :=
      (λ batch, mapstar func batch (mkWorld (cwd w) (files w) []))
      <$> batches (length iterable) size iterable in
    let tasks :=
      (λ run : result (list B) * world,
         mkTask (trace run.2)
           (match run.1 with Raise e => Some e | Ok _ => None end)) <$> runs in
    (* a task without events is done at once *)
    let done := filter (λ t, task_events t = []) tasks in
    let running := filter (λ t, task_events t ≠ []) tasks in
    let '(events, error) :=
      run_tasks pick (length (mjoin (task_events <$> running))) 0 running
        (head (omap task_error done)) in
    (match error with
     | Some e => Raise e
     | None =>
         Ok (run ← runs; match run.1 with Ok ys => ys | Raise _ => [] end)
     end,
     mkWorld (cwd w) (files w) (trace w ++ events)).

End Pool.

(** ** Extraction and its cache *)

Module Cache.
Section WithEnv.
Context (sys : env).

(** [extract_units]: one page is fetched and parsed. *)
Definition extract_units (url : string) (headers : headers_t)
  : M (list Unit) :=
  compat_print ("Processing '" +:+ url +:+ "'") ;;
  emit (NetFetch url) ;;
  lift (page_units sys url headers).

(** [extract_all_units]: [extract_units] is mapped over the urls by
    a pool of 20 threads, see [Pool.pool_map]. *)
Definition extract_all_units (urls : list string) (headers : headers_t)
  : M all_units_map :=
  units <- Pool.pool_map (pool_schedule sys) 20
             (λ url, extract_units url headers) urls ;;
  ret (of_pairs (zip urls units)).

Definition extract_all_units_with_cache
    (filename : string) (all_urls : list string) (headers : headers_t)
  : M all_units_map :=
  file_exists <- os_path_exists filename ;;
  cached_units <- (if file_exists : bool then pickle_load filename
                   else ret empty) ;;
  let new_urls := filter (λ url, url ∉ keys cached_units) all_urls in
  compat_print ("loading " +:+ pretty (length (keys cached_units))
                +:+ " urls from cache [" +:+ filename +:+ "]") ;;
  new_units <- extract_all_units new_urls headers ;;
  let all_units := update cached_units new_units in
  ret all_units.

Definition write_units_to_cache (filename : string) (units : all_units_map)
  : M NoneType :=
  compat_print ("writing " +:+ pretty (length (keys units))
                +:+ " urls to cache [" +:+ filename +:+ "]") ;;
  write_file filename (Pickled units).

End WithEnv.
End Cache.

(** ** Download *)

(** The selection hierarchy of [common.py], with the fields the code
    reads. *)
Record SubSection := mkSubSection {
  subsection_name : string;
  subsection_url : string;
}.

Record Section_ := mkSection {
  section_position : nat;
  section_name : string;
  subsections : list SubSection;
}.

Record Course := mkCourse {
  course_id : string;
  course_name : string;
  course_url : string;
  course_state : string;
}.

(** [selections]: a dictionary from courses to their chosen sections. *)
Abbreviation selections_t := (list (Course * list Section_)).

(** The options of [parse_args] that the modelled code reads. *)
Record args_t := mkArgs {
  format : option string;
  subtitles : bool;
  output_dir : string;
  youtube_options : string;
  prefer_cdn_videos : bool;
  cache : bool;
  dry_run : bool;
}.

(** ["%02d" % n] *)
Definition fmt_02d (n : nat) : string :=
  if decide (n < 10) then "0" +:+ pretty n else pretty n.

(** [url.rsplit('/', 1)[1]]: what follows the last [/], if there is one. *)
Fixpoint after_last_slash (url : string) : option string :=
  match url with
  | "" => None
  | String c rest =>
      match after_last_slash rest with
      | Some name => Some name
      | None => if decide (c = "/"%char) then Some rest else None
      end
  end.

(** [s.split()]: the pieces of [s] between runs of white space.  The
    strings of this development are ASCII; these are the characters of
    ASCII that Python takes for white space. *)
Definition is_py_space (c : ascii) : bool :=
  match c with
  | "009" | "010" | "011" | "012" | "013"
  | "028" | "029" | "030" | "031" | " " => true
  | _ => false
  end%char.

Fixpoint str_split_go (word s : string) : list string :=
  match s with
  | "" => if decide (word = "") then [] else [word]
  | String c rest =>
      if is_py_space c
      then (if decide (word = "") then [] else [word]) ++ str_split_go "" rest
      else str_split_go (word +:+ String c "") rest
  end.

Definition str_split (s : string) : list string := str_split_go "" s.

Module Download.
Section WithEnv.
Context (sys : env).

Definition mkdir_p (path : string) : M NoneType := emit (Mkdir path).

(** [urlretrieve(url, filename)] stores the body, replacing the file. *)
Definition urlretrieve (url filename : string) : M NoneType :=
  λ w, match url_body sys url with
       | Ok body =>
           (Ok (), mkWorld (cwd w)
                     (<[resolve w filename := Bytes body]> (files w))
                     (trace w ++ [UrlRetrieve url (resolve w filename)]))
       | Raise e =>
           (Raise e, mkWorld (cwd w) (files w)
                       (trace w ++ [UrlRetrieve url (resolve w filename)]))
       end.

(** [execute_command(cmd)] of [utils.py]. *)
Definition run_command (cmd : list string) : M NoneType :=
  λ w, match execute_command sys cmd (files w) with
       | Ok files' =>
           (Ok (), mkWorld (cwd w) files' (trace w ++ [Exec cmd]))
       | Raise e =>
           (Raise e, mkWorld (cwd w) (files w) (trace w ++ [Exec cmd]))
       end.

(** [edx_get_subtitle]: the subtitles as a string.  When the request
    fails with [URLError] (so also with [HTTPError]) it prints a warning
    with the reason and returns [None].  The handler of [ValueError] reads
    [exception.message], which a [ValueError] of Python 3 does not have:
    [AttributeError] is raised from the handler. *)
Definition edx_get_subtitle (url : string) (headers : headers_t)
  : M (option string) :=
  try_except
    (emit (NetFetch url) ;;
     srt <- lift (page_srt sys url headers) ;;
     ret (Some srt))
    (λ e, isinstance_URLError e || bool_decide (e = ValueError))
    (λ e, if isinstance_URLError e then
            compat_print ("[warning] edX subtitles (error:"
                          +:+ error_reason sys e +:+ ")") ;;
            ret None
          else raise AttributeError).

Definition _download_video_youtube
    (unit : Unit) (args : args_t) (target_dir filename_prefix : string)
  : M NoneType :=
  match video_youtube_url unit with
  | Some video =>
      let filename := filename_prefix +:+ "-%(title)s-%(id)s.%(ext)s" in
      let fullname := os_path_join target_dir filename in
      let video_format_option :=
        match format args with
        | Some f => if decide (f = "") then "mp4" else f +:+ "/mp4"
        | None => "mp4"
        end in
      let cmd := YOUTUBE_DL_CMD sys ++ ["-o"; fullname; "-f"; video_format_option] in
      let cmd := if subtitles args then cmd ++ ["--all-subs"] else cmd in
      let cmd := cmd ++ str_split (youtube_options args) in
      let cmd := cmd ++ [video] in
      run_command cmd
  | None => ret ()
  end.

Definition get_subtitles_download_urls
    (available_subs_url sub_template_url : option string)
    (headers : headers_t) : M (dict string) :=
  match available_subs_url, sub_template_url with
  | Some subs_url, Some template =>
      available_subs <-
        try_except
          (emit (NetFetch subs_url) ;;
           lift (page_languages sys subs_url headers))
          (λ e, bool_decide (e = HTTPError))
          (λ _, ret ["en"]) ;;
      pairs <- map_M (λ sub_lang,
                 sub_url <- lift (str_mod sys template sub_lang) ;;
                 ret (sub_lang, sub_url)) available_subs ;;
      ret (of_pairs pairs)
  | _, _ => ret empty
  end.

(** The body of the loop of [_download_subtitles]. *)
Definition download_subtitle
    (target_dir filename : string) (headers : headers_t)
    (item : string * string) : M NoneType :=
  let '(sub_lang, sub_url) := item in
  let subs_filename :=
    os_path_join target_dir (filename +:+ "." +:+ sub_lang +:+ ".srt") in
  file_exists <- os_path_exists subs_filename ;;
  if negb file_exists then
    subs_string <- edx_get_subtitle sub_url headers ;;
    match subs_string with
    | Some srt =>
        if decide (srt = "") then ret ()
        else
          compat_print ("[info] Writing edX subtitle: " +:+ subs_filename) ;;
          here <- os_getcwd ;;
          write_file (os_path_join here subs_filename) (Bytes srt)
    | None => ret ()
    end
  else
    compat_print ("[info] Skipping existing edX subtitle " +:+ subs_filename).

Definition _download_subtitles
    (unit : Unit) (target_dir filename_prefix : string)
    (headers : headers_t) : M NoneType :=
  filename <- (λ w, (Ok (get_filename_from_prefix sys (files w)
                           target_dir filename_prefix), w)) ;;
  match filename with
  | None =>
      compat_print ("[warning] no video downloaded for " +:+ filename_prefix)
  | Some filename =>
      match sub_template_url unit with
      | None =>
          compat_print ("[warning] no subtitles downloaded for "
                        +:+ filename_prefix)
      | Some _ =>
          subtitles_download_urls <-
            get_subtitles_download_urls (available_subs_url unit)
              (sub_template_url unit) headers ;;
          for_each (items subtitles_download_urls)
            (download_subtitle target_dir filename headers)
      end
  end.

Definition download_urls (urls : list string)
    (target_dir filename_prefix : string) : M NoneType :=
  for_each urls (λ url,
    match after_last_slash url with
    | None => raise IndexError
    | Some original_filename =>
        let filename :=
          os_path_join target_dir
            (filename_prefix +:+ "-" +:+ original_filename) in
        compat_print ("[download] Destination: " +:+ filename) ;;
        urlretrieve url filename
    end).

Definition download_unit
    (unit : Unit) (args : args_t) (target_dir filename_prefix : string)
    (headers : headers_t) : M NoneType :=
  (if prefer_cdn_videos args then
     download_urls (mp4_urls unit) target_dir filename_prefix ;;
     download_urls (resources_urls unit) target_dir filename_prefix
   else
     _download_video_youtube unit args target_dir filename_prefix) ;;
  if subtitles args then
    _download_subtitles unit target_dir filename_prefix headers
  else ret ().

(** [download].  The counter of a section runs over the units of its
    subsections in order, so the units are numbered from 1 along the
    concatenation of [all_units.get(subsection.url, [])]. *)
Definition download
    (args : args_t) (selections : selections_t)
    (all_units : all_units_map) (headers : headers_t) : M NoneType :=
  compat_print ("[info] Output directory: " +:+ output_dir args) ;;
  for_each selections (λ '(selected_course, selected_sections),
    let coursename := directory_name sys (course_name selected_course) in
    for_each selected_sections (λ selected_section,
      let section_dirname :=
        fmt_02d (section_position selected_section) +:+ "-"
        +:+ section_name selected_section in
      let target_dir :=
        os_path_join (os_path_join (output_dir args) coursename)
          (clean_filename sys section_dirname) in
      mkdir_p target_dir ;;
      let units :=
        subsection ← subsections selected_section;
        default [] (get all_units (subsection_url subsection)) in
      for_each (zip (seq 1 (length units)) units) (λ '(counter, unit),
        let filename_prefix := fmt_02d counter in
        download_unit unit args target_dir filename_prefix headers))).

End WithEnv.
End Download.

(** ** The pipeline of [main] *)

Module Pipeline.
Import Dedup Cache Download.

Section WithEnv.
Context (sys : env).

(** [parse_units].  [main] calls it on [selections], so the flat list
    is the list of the selected sections. *)
Definition parse_units {A} (all_units : list (Course * list A)) : M NoneType :=
  let flat_units := units ← all_units.*2; units in
  if decide (length flat_units < 1) then
    compat_print "WARNING: No downloadable video found." ;;
    raise (SystemExit 6)
  else ret ().

(** [main] from the extraction of the units to the end; what comes
    before (arguments, login, courses and sections) yields [args],
    [headers] and [selections]. *)
Definition main_from_selections
    (args : args_t) (selections : selections_t) (headers : headers_t)
  : M NoneType :=
  let all_urls :=
    selected_sections ← selections.*2;
    selected_section ← selected_sections;
    subsection ← subsections selected_section;
    [subsection_url subsection] in
  all_units <-
    (if cache args then
       extract_all_units_with_cache sys (DEFAULT_CACHE_FILENAME sys)
         all_urls headers
     else extract_all_units sys all_urls headers) ;;
  parse_units selections ;;
  (if cache args then
     write_units_to_cache (DEFAULT_CACHE_FILENAME sys) all_units
   else ret ()) ;;
  let filtered_units := remove_repeated_urls all_units in
  let num_all_urls := num_urls_in_units_dict all_units in
  let num_filtered_urls := num_urls_in_units_dict filtered_units in
  compat_print ("Removed " +:+ pretty (num_all_urls - num_filtered_urls)
                +:+ " duplicated urls from " +:+ pretty num_all_urls
                +:+ " in total") ;;
  if negb (dry_run args) then
    download sys args selections all_units headers
  else ret ().

End WithEnv.
End Pipeline.

(** ** Notions used to state the properties of deduplication *)

Module DedupSpec.
Import Dedup.

(** A unit after deduplication, compared with the unit it comes from:
    the subtitle fields are the same, the youtube url is the same or
    gone, and the two lists have lost entries but kept their order. *)
Definition reduced_from (unit unit' : Unit) : Prop :=
  available_subs_url unit' = available_subs_url unit ∧
  sub_template_url unit' = sub_template_url unit ∧
  (video_youtube_url unit' = None ∨
   video_youtube_url unit' = video_youtube_url unit) ∧
  sublist (mp4_urls unit') (mp4_urls unit) ∧
  sublist (resources_urls unit') (resources_urls unit).

(** A unit with nothing left to download. *)
Definition is_empty (unit : Unit) : Prop :=
  video_youtube_url unit = None ∧ mp4_urls unit = [] ∧ resources_urls unit = [].

#[global] Instance is_empty_dec unit : Decision (is_empty unit).
Proof. unfold is_empty. apply _. Defined.

(** The unit the loop body builds from [unit], whether or not it is
    appended, and the units built from a list of units in turn. *)
Definition image (existing_urls : url_set) (unit : Unit) : Unit :=
  let '((video, mp4, resources), _) := dedup_fields existing_urls unit in
  {| video_youtube_url := video;
     available_subs_url := available_subs_url unit;
     sub_template_url := sub_template_url unit;
     mp4_urls := mp4;
     resources_urls := resources |}.

Fixpoint images (existing_urls : url_set) (units : list Unit) : list Unit :=
  match units with
  | [] => []
  | unit :: rest =>
      image existing_urls unit
      :: images (dedup_fields existing_urls unit).2 rest
  end.

(** The traversal of [remove_repeated_urls] written by recursion on the
    items, for a dictionary whose keys are distinct. *)
Fixpoint reduce_items (existing_urls : url_set)
    (items : list (string * list Unit)) : all_units_map * url_set :=
  match items with
  | [] => ([], existing_urls)
  | (url, units) :: rest =>
      let '(reduced_units, e1) := reduce_units existing_urls units in
      let '(rest', e2) := reduce_items e1 rest in
      ((url, reduced_units) :: rest', e2)
  end.

(** *** Counting what deduplication removes

    [discarded existing urls] is the number of entries of [urls] that
    the inner loop finds in the set, and so does not keep. *)
Fixpoint discarded (existing_urls : url_set) (urls : list string) : nat :=
  match urls with
  | [] => 0
  | url :: rest =>
      if decide (Some url ∈ existing_urls)
      then S (discarded existing_urls rest)
      else discarded ({[Some url]} ∪ existing_urls) rest
  end.

Definition is_set (field : option string) : nat :=
  if field is Some _ then 1 else 0.

(** The fields and entries of [unit] that are not in the output: a
    youtube url that was seen before, the discarded entries of the two
    lists and, when the unit is not appended, its two subtitle fields. *)
Definition removed_from_unit (existing_urls : url_set) (unit : Unit) : nat :=
  let e1 := {[video_youtube_url unit]} ∪ existing_urls in
  let e2 := (keep_new e1 (mp4_urls unit)).2 in
  (if decide (video_youtube_url unit ∈ existing_urls)
   then is_set (video_youtube_url unit) else 0)
  + discarded e1 (mp4_urls unit)
  + discarded e2 (resources_urls unit)
  + (if (reduce_unit existing_urls unit).1 is None
     then is_set (available_subs_url unit) + is_set (sub_template_url unit)
     else 0).

Fixpoint removed_from_units (existing_urls : url_set) (units : list Unit)
  : nat :=
  match units with
  | [] => 0
  | unit :: rest =>
      removed_from_unit existing_urls unit
      + removed_from_units (reduce_unit existing_urls unit).2 rest
  end.

Fixpoint removed_from_items (existing_urls : url_set)
    (items : list (string * list Unit)) : nat :=
  match items with
  | [] => 0
  | (_, units) :: rest =>
      removed_from_units existing_urls units
      + removed_from_items (reduce_units existing_urls units).2 rest
  end.

(** The number of fields and entries [remove_repeated_urls] removes
    from [all_units]. *)
Definition num_removed (all_units : all_units_map) : nat :=
  removed_from_items ∅ (items all_units).

(** *** One pass over a sequence of urls

    [pass existing ins outs existing'] says how a traversal that starts
    with the set [existing], meets the urls [ins] and keeps [outs]
    behaves: a url is kept when it is met and was not in the set, it is
    kept once, and afterwards the set holds what it held and what was
    met. *)
Definition pass (existing_urls : url_set) (ins outs : list string)
    (existing_urls' : url_set) : Prop :=
  (∀ url, Some url ∈ existing_urls' ↔ Some url ∈ existing_urls ∨ url ∈ ins) ∧
  NoDup outs ∧
  (∀ url, url ∈ outs ↔ url ∈ ins ∧ Some url ∉ existing_urls).

(** *** A unit after deduplication, in closed form

    What a unit is to become is said here without the set of the loop,
    from the urls met before the unit, in the order of traversal.
    [unseen seen urls] is what is left of [urls] when the entries that
    are in [seen], and those that repeat an earlier entry of [urls], are
    taken out. *)
Fixpoint unseen (seen urls : list string) : list string :=
  match urls with
  | [] => []
  | url :: rest =>
      if decide (url ∈ seen) then unseen seen rest
      else url :: unseen (seen ++ [url]) rest
  end.

(** [deduplicated seen unit]: the youtube url stays when it was not met
    before, the mp4 urls are those not met before nor as the youtube url
    of the unit, the resource urls those not met before nor in the unit
    so far; the two subtitle fields are those of [unit]. *)
Definition deduplicated (seen : list string) (unit : Unit) : Unit :=
  let seen1 := seen ++ option_list (video_youtube_url unit) in
  let seen2 := seen1 ++ mp4_urls unit in
  {| video_youtube_url :=
       match video_youtube_url unit with
       | Some url => if decide (url ∈ seen) then None else Some url
       | None => None
       end;
     available_subs_url := available_subs_url unit;
     sub_template_url := sub_template_url unit;
     mp4_urls := unseen seen1 (mp4_urls unit);
     resources_urls := unseen seen2 (resources_urls unit) |}.

(** The set of the loop stands for the urls met so far. *)
Definition stands_for (E : url_set) (seen : list string) : Prop :=
  ∀ u, Some u ∈ E ↔ u ∈ seen.

End DedupSpec.

(** ** Notions used to state the properties of effectful code *)

Module EffectSpec.

(** [quiet m]: running [m] changes neither the working directory nor
    the files, and writes no file. *)
Definition quiet {A} (m : M A) : Prop :=
  ∀ w, cwd (m w).2 = cwd w ∧ files (m w).2 = files w ∧
       ∃ new, trace (m w).2 = trace w ++ new ∧ writes_of new = [].

(** [fresh_writes allowed w w']: from [w] to [w'] the working directory
    is the same, no file has gone, and the files written are distinct,
    did not exist in [w], exist in [w'] and are among [allowed]. *)
Definition fresh_writes (allowed : string → Prop) (w w' : world) : Prop :=
  cwd w' = cwd w ∧
  (∀ p, is_Some (files w !! p) → is_Some (files w' !! p)) ∧
  ∃ new, trace w' = trace w ++ new ∧ NoDup (writes_of new) ∧
         ∀ p, p ∈ writes_of new →
              files w !! p = None ∧ is_Some (files w' !! p) ∧ allowed p.

(** [careful allowed m]: from a world whose working directory is
    absolute, [m] writes only fresh files among [allowed]. *)
Definition careful {A} (allowed : string → string → Prop) (m : M A) : Prop :=
  ∀ w, is_absolute (cwd w) = true →
       fresh_writes (allowed (cwd w)) w (m w).2.

(** The paths of subtitle files in [target_dir], resolved against the
    working directory [here]. *)
Definition srt_path (target_dir here path : string) : Prop :=
  ∃ filename sub_lang,
    path = os_path_join here
             (os_path_join target_dir
                (filename +:+ "." +:+ sub_lang +:+ ".srt")).

End EffectSpec.

(** ** Sample data *)

Module Samples.

Definition unit_mp4 (urls : list string) : Unit := mkUnit None None None urls [].

(** Two subsections whose units share the entry ["http://x/a.mp4"]. *)
Definition two_subsections : all_units_map :=
  [("/s1", [unit_mp4 ["http://x/a.mp4"]]);
   ("/s2", [unit_mp4 ["http://x/a.mp4"]])].

Definition lecture : Unit :=
  mkUnit (Some "https://youtu.be/v1") (Some "/subs/v1") (Some "/subs/v1/%s")
    ["http://x/a.mp4"] ["http://x/slides.pdf"].

Definition lecture_again : Unit :=
  mkUnit (Some "https://youtu.be/v1") (Some "/subs/v1") (Some "/subs/v1/%s")
    ["http://x/a.mp4"; "http://x/b.mp4"] [].

(** A course in which the same lecture shows up on three pages. *)
Definition course_units : all_units_map :=
  [("/s1", [lecture; lecture_again]);
   ("/s2", [lecture]);
   ("/s3", [])].

(** A template with one [%s] takes the argument in its place. *)
Fixpoint sample_str_mod (template arg : string) : result string :=
  match template with
  | "" => Raise TypeError
  | String "%" (String "s" rest) => Ok (arg +:+ rest)
  | String c rest =>
      match sample_str_mod rest arg with
      | Ok s => Ok (String c s)
      | Raise e => Raise e
      end
  end.

(** A site that serves [pages] and has subtitles for every video;
    [languages] is what a request for the list of languages yields. *)
Definition site_with (languages : result (list string))
    (pages : all_units_map) : env :=
  {| YOUTUBE_DL_CMD := ["youtube-dl"; "--ignore-config"];
     DEFAULT_CACHE_FILENAME := ".edx-dl.cache";
     clean_filename := id;
     directory_name := id;
     get_filename_from_prefix := λ _ _ prefix, Some (prefix +:+ "-video");
     execute_command := λ _ fs, Ok fs;
     str_mod := sample_str_mod;
     page_units := λ url _,
       match get pages url with Some units => Ok units | None => Raise HTTPError end;
     page_languages := λ _ _, languages;
     page_srt := λ _ _, Ok "1 00:00:00,000 --> 00:00:01,000 hello";
     url_body := λ _, Ok "bytes";
     error_reason := λ _, "Not Found";
     pool_schedule := λ _, 0 |}.

(** The same site when the request of every subtitle fails with [e],
    and when the threads of the pool follow [schedule]. *)
Definition site_without_subtitles (e : exn) (pages : all_units_map) : env :=
  {| YOUTUBE_DL_CMD := ["youtube-dl"; "--ignore-config"];
     DEFAULT_CACHE_FILENAME := ".edx-dl.cache";
     clean_filename := id;
     directory_name := id;
     get_filename_from_prefix := λ _ _ prefix, Some (prefix +:+ "-video");
     execute_command := λ _ fs, Ok fs;
     str_mod := sample_str_mod;
     page_units := λ url _,
       match get pages url with Some units => Ok units | None => Raise HTTPError end;
     page_languages := λ _ _, Ok ["en"; "es"];
     page_srt := λ _ _, Raise e;
     url_body := λ _, Ok "bytes";
     error_reason := λ _, "Not Found";
     pool_schedule := λ _, 0 |}.

Definition site_scheduled (schedule : nat → nat) (pages : all_units_map) : env :=
  {| YOUTUBE_DL_CMD := ["youtube-dl"; "--ignore-config"];
     DEFAULT_CACHE_FILENAME := ".edx-dl.cache";
     clean_filename := id;
     directory_name := id;
     get_filename_from_prefix := λ _ _ prefix, Some (prefix +:+ "-video");
     execute_command := λ _ fs, Ok fs;
     str_mod := sample_str_mod;
     page_units := λ url _,
       match get pages url with Some units => Ok units | None => Raise HTTPError end;
     page_languages := λ _ _, Ok ["en"; "es"];
     page_srt := λ _ _, Ok "1 00:00:00,000 --> 00:00:01,000 hello";
     url_body := λ _, Ok "bytes";
     error_reason := λ _, "Not Found";
     pool_schedule := schedule |}.

(** The site lists English and Spanish subtitles. *)
Definition site : all_units_map → env := site_with (Ok ["en"; "es"]).

Definition no_headers : headers_t := [].

(** A fresh working directory, and one that holds a cache. *)
Definition fresh_world : world := mkWorld "/home/user" ∅ [].

Definition cached_world (units : all_units_map) : world :=
  mkWorld "/home/user" {[ "/home/user/.edx-dl.cache" := Pickled units ]} [].

(** One course with one section of two subsections, downloaded from the
    CDN without cache. *)
Definition week1 : selections_t :=
  [(mkCourse "c1" "CourseA" "/c1/info" "Started",
    [mkSection 1 "Week 1"
       [mkSubSection "Lecture 1" "/s1"; mkSubSection "Lecture 2" "/s2"]])].

Definition cdn_args : args_t :=
  {| format := None; subtitles := false; output_dir := "Downloaded";
     youtube_options := ""; prefer_cdn_videos := true;
     cache := false; dry_run := false |}.

End Samples.

(** ** Further notions for stating properties *)

Module MoreSpec.
Import Dedup.

(** [fresh E urls]: the urls are distinct and none is in the set. *)
Definition fresh (E : url_set) (urls : list string) : Prop :=
  NoDup urls ∧ ∀ u, u ∈ urls → Some u ∉ E.

(** The kind of an event, and [emits_only kinds m]: whatever the world,
    the events of a run of [m] are all of one of the [kinds]. *)
Inductive event_kind :=
  | KPrinted | KNetFetch | KFileWrite | KUrlRetrieve | KMkdir | KExec.

#[global] Instance event_kind_eq_dec : EqDecision event_kind.
Proof. solve_decision. Defined.

Definition kind_of (ev : event) : event_kind :=
  match ev with
  | Printed _ => KPrinted
  | NetFetch _ => KNetFetch
  | FileWrite _ => KFileWrite
  | UrlRetrieve _ _ => KUrlRetrieve
  | Mkdir _ => KMkdir
  | Exec _ => KExec
  end.

Definition emits_only {A} (kinds : list event_kind) (m : M A) : Prop :=
  ∀ w, ∃ new, trace (m w).2 = trace w ++ new ∧
              Forall (λ ev, kind_of ev ∈ kinds) new.

(** The urls and the destinations of the [UrlRetrieve] events of a trace. *)
Definition retrieved_of (t : list event) : list (string * string) :=
  omap (λ ev, match ev with UrlRetrieve url path => Some (url, path) | _ => None end) t.

(** A string with a [/] in it. *)
Definition has_slash (s : string) : Prop :=
  "/"%char ∈ list_ascii_of_string s.

#[global] Instance has_slash_dec s : Decision (has_slash s).
Proof. unfold has_slash. apply _. Defined.

(** What [download_urls] makes of a url that it can retrieve. *)
Definition good_url (sys : env) (url : string) : Prop :=
  has_slash url ∧ ∃ body, url_body sys url = Ok body.

Definition names_of (urls names : list string) : Prop :=
  Forall2 (λ url name, ∃ dir, url = dir +:+ "/" +:+ name ∧ ¬ has_slash name)
    urls names.

(** The world with more events in its trace. *)
Definition add_events (w : world) (evs : list event) : world :=
  mkWorld (cwd w) (files w) (trace w ++ evs).




(** What the loop of [_download_subtitles] does for a language whose
    request is refused: with the file of the language in place it says
    that it skips it; without, it makes the request and prints the
    reason of the refusal. *)
Definition refused_subtitle_events (sys : env) (w : world)
    (target_dir filename : string) (headers : headers_t)
    (item : string * string) : list event :=
  let subs_filename :=
    os_path_join target_dir (filename +:+ "." +:+ item.1 +:+ ".srt") in
  if decide (is_Some (files w !! resolve w subs_filename)) then
    [Printed ("[info] Skipping existing edX subtitle " +:+ subs_filename)]
  else
    match page_srt sys item.2 headers with
    | Raise e =>
        [NetFetch item.2;
         Printed ("[warning] edX subtitles (error:" +:+ error_reason sys e
                  +:+ ")")]
    | Ok _ => [NetFetch item.2]
    end.

End MoreSpec.

(** ** Notions for the pool *)

Module PoolSpec.
Import Pool.

(** The events that running tasks still have to emit. *)
Definition events_left (running : list task) : list event :=
  mjoin (task_events <$> running).

(** The runs of the batches of [pool_map], each on its own trace. *)
Definition runs_of {A B} (workers : nat) (func : A → M B) (iterable : list A)
    (w : world) : list (result (list B) * world) :=
  (λ batch, mapstar func batch (mkWorld (cwd w) (files w) []))
  <$> batches (length iterable) (chunksize workers (length iterable)) iterable.

(** The results of the runs, end to end. *)
Definition results_of {B} (runs : list (result (list B) * world)) : list B :=
  run ← runs; match run.1 with Ok ys => ys | Raise _ => [] end.

(** The events of a run of [extract_units] are prints and fetches. *)
Definition print_or_fetch (ev : event) : Prop :=
  match ev with Printed _ | NetFetch _ => True | _ => False end.

End PoolSpec.

(** ** The site, the courses and the sections to download *)

Module Selection.

(** *** [OPENEDX_SITES] and the globals that [change_openedx_site] sets *)

(** A selector such as [('nav', {'aria-label': 'Course Navigation'})]. *)
Abbreviation selector_t := (string * dict string)%type.

Record site_entry := mkSite {
  site_url : string;
  courseware_selector : selector_t;
}.

Definition nav_selector : selector_t :=
  ("nav", [("aria-label", "Course Navigation")]).

Definition OPENEDX_SITES : dict site_entry :=
  [("edx", mkSite "https://courses.edx.org" nav_selector);
   ("stanford", mkSite "https://lagunita.stanford.edu" nav_selector);
   ("usyd-sit", mkSite "http://online.it.usyd.edu.au" nav_selector);
   ("fun", mkSite "https://www.france-universite-numerique-mooc.fr"
             ("section", [("aria-label", "Menu du cours")]));
   ("gwu-seas", mkSite "http://openedx.seas.gwu.edu" nav_selector);
   ("gwu-open", mkSite "http://mooc.online.gwu.edu" nav_selector);
   ("mitprox", mkSite "https://mitprofessionalx.mit.edu" nav_selector)].

Record globals := mkGlobals {
  BASE_URL : string;
  EDX_HOMEPAGE : string;
  LOGIN_API : string;
  DASHBOARD : string;
  COURSEWARE_SEL : selector_t;
}.

(** The globals of [site]; the module sets them so for ['edx'] when it is
    loaded, and [change_openedx_site] for the site it is given. *)
Definition globals_of (site : site_entry) : globals :=
  let base_url := site_url site in
  {| BASE_URL := base_url;
     EDX_HOMEPAGE := base_url +:+ "/login_ajax";
     LOGIN_API := base_url +:+ "/login_ajax";
     DASHBOARD := base_url +:+ "/dashboard";
     COURSEWARE_SEL := courseware_selector site |}.

Definition initial_globals : globals :=
  globals_of (mkSite "https://courses.edx.org" nav_selector).

(** [', '.join(names)] *)
Fixpoint join_comma (names : list string) : string :=
  match names with
  | [] => ""
  | [name] => name
  | name :: rest => name +:+ ", " +:+ join_comma rest
  end.

(** [change_openedx_site]: the globals after the call, given those
    before; an unknown site ends the program with code 2. *)
Definition change_openedx_site (site_name : string) (g : globals) : M globals :=
  match get OPENEDX_SITES site_name with
  | None =>
      compat_print ("OpenEdX platform should be one of: "
                    +:+ join_comma (keys OPENEDX_SITES)) ;;
      raise (SystemExit 2)
  | Some site => ret (globals_of site)
  end.

(** *** Options *)

(** The options of [parse_args] that the selection of courses and
    sections reads. *)
Record selection_args := mkSelectionArgs {
  course_urls : list string;
  list_courses : bool;
  filter_section : option string;
  list_sections : bool;
}.

(** ["%2d" % n] *)
Definition fmt_2d (n : nat) : string :=
  if decide (n < 10) then " " +:+ pretty n else pretty n.

(** *** Courses *)

Definition _display_courses (courses : list Course) : M NoneType :=
  compat_print ("You can access " +:+ pretty (length courses) +:+ " courses") ;;
  for_each (zip (seq 1 (length courses)) courses) (λ '(i, course),
    compat_print (fmt_2d i +:+ " - " +:+ course_name course
                  +:+ " [" +:+ course_id course +:+ "]") ;;
    compat_print ("     " +:+ course_url course)).

Definition parse_courses (args : selection_args)
    (available_courses : list Course) : M (list Course) :=
  (if list_courses args then
     _display_courses available_courses ;; raise (SystemExit 0)
   else ret ()) ;;
  (if decide (length (course_urls args) = 0) then
     compat_print "You must pass the URL of at least one course, check the correct url with --list-courses" ;;
     raise (SystemExit 3)
   else ret ()) ;;
  let selected_courses :=
    available_course ← available_courses;
    url ← course_urls args;
    if decide (course_url available_course = url) then [available_course]
    else [] in
  (if decide (length selected_courses = 0) then
     compat_print "You have not passed a valid course url, check the correct url with --list-courses" ;;
     raise (SystemExit 4)
   else ret ()) ;;
  ret selected_courses.

(** *** Sections *)

Definition _display_sections_menu (course : Course) (sections : list Section_)
  : M NoneType :=
  let num_sections := length sections in
  compat_print (course_name course +:+ " [" +:+ course_id course +:+ "] has "
                +:+ pretty num_sections +:+ " sections so far") ;;
  for_each (zip (seq 1 (length sections)) sections) (λ '(i, section),
    compat_print (fmt_2d i +:+ " - Download " +:+ section_name section
                  +:+ " videos")).

Section WithInt.
(** [int(s)] for a string [s]: the integer, or [None] when it raises
    [ValueError]. *)
Context (py_int : string → option Z).

(** [_filter_sections].  Under the guard [0 < index <= num_sections] the
    subscript [sections[index - 1]] is within the list; were it not, it
    would raise [IndexError]. *)
Definition _filter_sections (index : option string) (sections : list Section_)
  : result (list Section_) :=
  let num_sections := Z.of_nat (length sections) in
  match index with
  | Some index =>
      match py_int index with
      | Some index =>
          if decide (index > 0 ∧ index <= num_sections)%Z then
            match sections !! Z.to_nat (index - 1) with
            | Some section => Ok [section]
            | None => Raise IndexError
            end
          else Ok sections
      | None => Ok sections
      end
  | None => Ok sections
  end.

(** [parse_sections].  [selections] is a dictionary, so its keys are
    distinct and the comprehension yields one item per item, in order. *)
Definition parse_sections (args : selection_args) (selections : selections_t)
  : M selections_t :=
  (if list_sections args then
     for_each selections (λ '(selected_course, selected_sections),
       _display_sections_menu selected_course selected_sections) ;;
     raise (SystemExit 0)
   else ret ()) ;;
  match filter_section args with
  | None | Some "" => ret selections
  | Some _ =>
      map_M (λ '(selected_course, selected_sections),
        filtered <- lift (_filter_sections (filter_section args)
                            selected_sections) ;;
        ret (selected_course, filtered)) selections
  end.

End WithInt.

(** *** What is shown before the download *)

Definition _display_sections (sections : list Section_) : M NoneType :=
  compat_print ("Downloading " +:+ pretty (length sections) +:+ " section(s)") ;;
  for_each sections (λ section,
    compat_print ("Section " +:+ fmt_2d (section_position section) +:+ ": "
                  +:+ section_name section) ;;
    for_each (subsections section) (λ subsection,
      compat_print ("  " +:+ subsection_name subsection))).

Definition _display_selections (selections : selections_t) : M NoneType :=
  for_each selections (λ '(selected_course, selected_sections),
    compat_print ("Downloading " +:+ course_name selected_course +:+ " ["
                  +:+ course_id selected_course +:+ "]") ;;
    _display_sections selected_sections).

End Selection.

Module SelectionSamples.

(** A reading of decimal numerals, for the examples. *)
Fixpoint digits_value (acc : Z) (s : string) : option Z :=
  match s with
  | "" => Some acc
  | String c rest =>
      match Ascii.is_nat c with
      | Some d => digits_value (10 * acc + Z.of_nat d) rest
      | None => None
      end
  end.

Definition sample_int (s : string) : option Z :=
  if decide (s = "") then None else digits_value 0 s.

Definition three_sections : list Section_ :=
  [mkSection 1 "Week 1" [mkSubSection "Lecture 1" "/s1"];
   mkSection 2 "Week 2" [mkSubSection "Lecture 2" "/s2"];
   mkSection 3 "Week 3" []].

Definition course_a : Course := mkCourse "c1" "CourseA" "/c1/info" "Started".
Definition course_b : Course := mkCourse "c2" "CourseB" "/c2/info" "Started".

End SelectionSamples.

(** * Facts about ordered dictionaries *)

Module DictFacts.
Section Facts.
Context {V : Type}.
Implicit Types (d : dict V) (k : string) (v : V).

Lemma keys_set_fresh d k v : k ∉ keys d → set d k v = d ++ [(k, v)].
Proof.
  induction d as [|[k' v'] d IH]; simpl; [done|].
  intros Hk. apply not_elem_of_cons in Hk as [Hne Hk].
  case_decide; [congruence|]. by rewrite IH.
Qed.

Lemma keys_set d k v :
  keys (set d k v) = if mem k d then keys d else keys d ++ [k].
Proof.
  destruct (mem k d) eqn:Hm; unfold mem in Hm.
  - apply bool_decide_eq_true_1 in Hm.
    induction d as [|[k' v'] d IH]; simpl in *; [by apply elem_of_nil in Hm|].
    case_decide; [done|]. simpl. f_equal. apply IH.
    apply elem_of_cons in Hm as [?|?]; congruence.
  - apply bool_decide_eq_false_1 in Hm. rewrite keys_set_fresh by done.
    unfold keys. by rewrite fmap_app.
Qed.

Lemma get_set d k v k' :
  get (set d k v) k' = if decide (k = k') then Some v else get d k'.
Proof.
  induction d as [|[k0 v0] d IH]; simpl.
  - repeat case_decide; congruence.
  - destruct (decide (k0 = k)) as [->|Hne]; simpl.
    + repeat case_decide; congruence.
    + rewrite IH. repeat case_decide; congruence.
Qed.

Lemma get_None d k : get d k = None ↔ k ∉ keys d.
Proof.
  induction d as [|[k0 v0] d IH]; simpl.
  - split; [intros _; apply not_elem_of_nil|done].
  - case_decide as Hk.
    + subst. split; [done|]. intros []. apply elem_of_cons; auto.
    + rewrite IH, not_elem_of_cons. split; [by intros ?; split|by intros [_ ?]].
Qed.

Lemma get_Some_elem_of d k v : get d k = Some v → (k, v) ∈ d.
Proof.
  induction d as [|[k0 v0] d IH]; simpl; [done|].
  case_decide.
  - intros [= ->]. subst. apply elem_of_cons; auto.
  - intros ?. apply elem_of_cons; auto.
Qed.

Lemma elem_of_get d k v : wf d → (k, v) ∈ d → get d k = Some v.
Proof.
  unfold wf. induction d as [|[k0 v0] d IH]; simpl.
  - intros _ []%elem_of_nil.
  - intros [Hk0 Hnd]%NoDup_cons [[= -> ->]|Hin]%elem_of_cons.
    + by rewrite decide_True.
    + rewrite decide_False; [by apply IH|].
      intros ->. apply Hk0. apply list_elem_of_fmap. by exists (k, v).
Qed.

Lemma get_app d1 d2 k :
  get (d1 ++ d2) k = match get d1 k with Some v => Some v | None => get d2 k end.
Proof.
  induction d1 as [|[k0 v0] d1 IH]; simpl; [done|]. by case_decide.
Qed.

Lemma update_nil d : update d [] = d.
Proof. done. Qed.

Lemma get_update d other k :
  get (update d other) k =
    match get (of_pairs other) k with
    | Some v => Some v
    | None => get d k
    end.
Proof.
  unfold update, of_pairs, items, empty. revert d.
  induction other as [|[k1 v1] other IH]; intros d; simpl; [done|].
  rewrite (IH (set d k1 v1)), (IH [(k1, v1)]), get_set. simpl.
  destruct (get (fold_left _ other []) k); [done|].
  by repeat case_decide.
Qed.

End Facts.
End DictFacts.

Import DictFacts.

(** * Deduplication *)

Module DedupFacts.
Import Dedup DedupSpec.

Implicit Types (E : url_set) (urls : list string) (unit : Unit)
  (units : list Unit) (m : all_units_map).

(** *** The loops, unfolded *)

Lemma keep_new_fold urls kept E :
  fold_left keep_step urls (kept, E)
  = (kept ++ (keep_new E urls).1, (keep_new E urls).2).
Proof.
  unfold keep_new. revert kept E.
  induction urls as [|url urls IH]; intros kept E; simpl.
  - by rewrite app_nil_r.
  - case_decide.
    + rewrite (IH (kept ++ [url])), (IH [url]). simpl.
      by rewrite <-app_assoc.
    + apply IH.
Qed.

Lemma keep_new_nil E : keep_new E [] = ([], E).
Proof. done. Qed.

Lemma keep_new_cons E url urls :
  keep_new E (url :: urls) =
    if decide (Some url ∉ E)
    then (url :: (keep_new ({[Some url]} ∪ E) urls).1,
          (keep_new ({[Some url]} ∪ E) urls).2)
    else keep_new E urls.
Proof.
  unfold keep_new at 1. simpl. case_decide; [|done].
  by rewrite keep_new_fold.
Qed.

Lemma reduce_units_fold units reduced E :
  fold_left units_step units (reduced, E)
  = (reduced ++ (reduce_units E units).1, (reduce_units E units).2).
Proof.
  unfold reduce_units. revert reduced E.
  induction units as [|unit units IH]; intros reduced E; simpl.
  - by rewrite app_nil_r.
  - destruct (reduce_unit E unit) as [[unit'|] E1].
    + rewrite (IH (reduced ++ [unit'])), (IH [unit']). simpl.
      by rewrite <-app_assoc.
    + apply IH.
Qed.

Lemma reduce_units_cons E unit units :
  reduce_units E (unit :: units) =
    (option_list (reduce_unit E unit).1
       ++ (reduce_units (reduce_unit E unit).2 units).1,
     (reduce_units (reduce_unit E unit).2 units).2).
Proof.
  unfold reduce_units at 1. simpl.
  destruct (reduce_unit E unit) as [[unit'|] E1]; simpl.
  - by rewrite reduce_units_fold.
  - by rewrite reduce_units_fold.
Qed.

Lemma items_fold (its : list (string * list Unit)) (acc : all_units_map) E :
  NoDup (keys acc ++ keys its) →
  fold_left items_step its (acc, E)
  = (acc ++ (reduce_items E its).1, (reduce_items E its).2).
Proof.
  revert acc E. induction its as [|[url units] its IH]; intros acc E Hnd; simpl.
  - by rewrite app_nil_r.
  - destruct (reduce_units E units) as [reduced E1] eqn:Hr.
    destruct (reduce_items E1 its) as [rest' E2] eqn:Hi. simpl.
    rewrite keys_set_fresh.
    + rewrite IH, Hi; simpl.
      * by rewrite <-app_assoc.
      * unfold keys in *. rewrite fmap_app, <-app_assoc. done.
    + apply NoDup_app in Hnd as (_ & Hdisj & _).
      intros Hin. apply (Hdisj _ Hin). apply elem_of_cons; auto.
Qed.

Lemma remove_repeated_urls_items m :
  wf m → remove_repeated_urls m = (reduce_items ∅ m).1.
Proof.
  intros Hwf. unfold remove_repeated_urls, items, empty.
  by rewrite items_fold.
Qed.

(** *** Passes *)

Lemma pass_nil E : pass E [] [] E.
Proof.
  split_and!; [|constructor|].
  - intros url. rewrite elem_of_nil. tauto.
  - intros url. rewrite elem_of_nil. tauto.
Qed.

Lemma pass_kept E url :
  Some url ∉ E → pass E [url] [url] ({[Some url]} ∪ E).
Proof.
  intros Hnew. split_and!.
  - intros url'. rewrite elem_of_union, elem_of_singleton, list_elem_of_singleton.
    split; intros [?|?]; simplify_eq; auto.
  - apply NoDup_singleton.
  - intros url'. rewrite list_elem_of_singleton. split; [|tauto].
    by intros ->.
Qed.

Lemma pass_skipped E url : Some url ∈ E → pass E [url] [] E.
Proof.
  intros Hold. split_and!; [|constructor|].
  - intros url'. rewrite list_elem_of_singleton. split; [auto|].
    by intros [?| ->].
  - intros url'. rewrite elem_of_nil, list_elem_of_singleton.
    split; [done|]. by intros [-> ?].
Qed.

Lemma pass_app E E1 E2 ins1 outs1 ins2 outs2 :
  pass E ins1 outs1 E1 → pass E1 ins2 outs2 E2 →
  pass E (ins1 ++ ins2) (outs1 ++ outs2) E2.
Proof.
  intros (Hset1 & Hnd1 & Hout1) (Hset2 & Hnd2 & Hout2). split_and!.
  - intros url. rewrite Hset2, Hset1, elem_of_app. tauto.
  - apply NoDup_app. split_and!; [done| |done].
    intros url [Hin1 _]%Hout1 [_ Hnew]%Hout2.
    apply Hnew, Hset1. by right.
  - intros url. rewrite !elem_of_app, Hout1, Hout2, Hset1.
    destruct (decide (url ∈ ins1)); tauto.
Qed.

(** Adding [None] to the set changes nothing for urls. *)
Lemma pass_add_None E ins outs E' :
  pass E ins outs E' → pass E ins outs ({[None]} ∪ E').
Proof.
  intros (Hset & Hnd & Hout). split_and!; [|done..].
  intros url. rewrite <-Hset, elem_of_union, elem_of_singleton.
  split; [by intros [?|?]|auto].
Qed.

Lemma pass_keep_new E urls :
  pass E urls (keep_new E urls).1 (keep_new E urls).2.
Proof.
  revert E. induction urls as [|url urls IH]; intros E.
  - apply pass_nil.
  - rewrite keep_new_cons. case_decide as Hnew; simpl.
    + apply (pass_app E ({[Some url]} ∪ E) _ [url] [url]); [by apply pass_kept|apply IH].
    + apply (pass_app _ E _ [url] []); [|apply IH].
      by apply pass_skipped.
Qed.

Lemma pass_dedup_fields E unit :
  pass E (unit_urls unit) (unit_urls (image E unit)) (dedup_fields E unit).2.
Proof.
  unfold image, dedup_fields, unit_urls.
  set (step := if decide (video_youtube_url unit ∉ E)
               then _ else _).
  assert (pass E (option_list (video_youtube_url unit))
            (option_list step.1) step.2) as Hvideo.
  { unfold step. destruct (video_youtube_url unit) as [video|]; simpl.
    - case_decide as Hnew; simpl.
      + by apply pass_kept.
      + by apply pass_skipped.
    - case_decide; simpl; [apply pass_add_None|]; apply pass_nil. }
  destruct step as [video e1]; simpl in *.
  pose proof (pass_keep_new e1 (mp4_urls unit)) as Hmp4.
  destruct (keep_new e1 (mp4_urls unit)) as [mp4 e2]; simpl in *.
  pose proof (pass_keep_new e2 (resources_urls unit)) as Hres.
  destruct (keep_new e2 (resources_urls unit)) as [res e3]; simpl in *.
  eauto using pass_app.
Qed.

(** *** Units and their images *)

Lemma has_urls_false video mp4 resources :
  has_urls video mp4 resources = false
  ↔ video = None ∧ mp4 = [] ∧ resources = [].
Proof.
  unfold has_urls. rewrite !orb_false_iff, !bool_decide_eq_false.
  destruct video, mp4, resources; simpl; split; intros; destruct_and?;
    split_and?; try done; try lia; naive_solver.
Qed.

Lemma reduce_unit_image E unit :
  reduce_unit E unit =
    (if decide (is_empty (image E unit)) then None else Some (image E unit),
     (dedup_fields E unit).2).
Proof.
  unfold reduce_unit, image, is_empty.
  destruct (dedup_fields E unit) as [[[video mp4] resources] E1]; simpl.
  destruct (has_urls video mp4 resources) eqn:Hhas.
  - rewrite decide_False; [done|].
    intros Hempty%has_urls_false. congruence.
  - rewrite decide_True; [done|]. by apply has_urls_false.
Qed.

Lemma reduce_unit_set E unit :
  (reduce_unit E unit).2 = (dedup_fields E unit).2.
Proof. by rewrite reduce_unit_image. Qed.

Lemma unit_urls_empty unit : is_empty unit → unit_urls unit = [].
Proof. unfold unit_urls. by intros (-> & -> & ->). Qed.

Lemma unit_urls_reduce_unit E unit :
  from_option unit_urls [] (reduce_unit E unit).1 = unit_urls (image E unit).
Proof.
  rewrite reduce_unit_image. simpl. case_decide; simpl; [|done].
  by rewrite unit_urls_empty.
Qed.

Lemma reduce_units_images E units :
  (reduce_units E units).1 = filter (λ unit, ¬ is_empty unit) (images E units).
Proof.
  revert E. induction units as [|unit units IH]; intros E; [done|].
  rewrite reduce_units_cons. simpl.
  rewrite filter_cons, <-IH, reduce_unit_set, reduce_unit_image. simpl.
  destruct (decide (is_empty (image E unit))).
  - by rewrite decide_False by auto.
  - by rewrite decide_True by auto.
Qed.

Lemma keep_new_sublist E urls : sublist (keep_new E urls).1 urls.
Proof.
  revert E. induction urls as [|url urls IH]; intros E; [done|].
  rewrite keep_new_cons. case_decide; simpl.
  - by apply sublist_skip.
  - by apply sublist_cons.
Qed.

Lemma image_reduced_from E unit : reduced_from unit (image E unit).
Proof.
  unfold reduced_from, image, dedup_fields.
  destruct (decide (video_youtube_url unit ∉ E)) as [?|?];
    repeat match goal with
    | |- context [keep_new ?e ?l] =>
        let H := fresh in
        pose proof (keep_new_sublist e l) as H;
        destruct (keep_new e l); simpl in H
    end; simpl; auto.
Qed.

Lemma images_reduced_from E units : Forall2 reduced_from units (images E units).
Proof.
  revert E. induction units as [|unit units IH]; intros E; simpl.
  - constructor.
  - constructor; [apply image_reduced_from|apply IH].
Qed.

(** *** The passes of the outer loops *)

Lemma units_urls_cons unit units :
  units_urls (unit :: units) = unit_urls unit ++ units_urls units.
Proof. done. Qed.

Lemma units_urls_app units1 units2 :
  units_urls (units1 ++ units2) = units_urls units1 ++ units_urls units2.
Proof. unfold units_urls. apply bind_app. Qed.

Lemma units_urls_option_list (o : option Unit) :
  units_urls (option_list o) = from_option unit_urls [] o.
Proof. destruct o; simpl; [|done]. unfold units_urls. simpl. apply app_nil_r. Qed.

Lemma all_resource_urls_cons url units m :
  all_resource_urls ((url, units) :: m) = units_urls units ++ all_resource_urls m.
Proof. done. Qed.

Lemma all_resource_urls_app m1 m2 :
  all_resource_urls (m1 ++ m2) = all_resource_urls m1 ++ all_resource_urls m2.
Proof. unfold all_resource_urls, values. by rewrite fmap_app, bind_app. Qed.

Lemma pass_reduce_units E units :
  pass E (units_urls units) (units_urls (reduce_units E units).1)
    (reduce_units E units).2.
Proof.
  revert E. induction units as [|unit units IH]; intros E.
  - apply pass_nil.
  - rewrite reduce_units_cons, units_urls_cons. simpl.
    rewrite units_urls_app, units_urls_option_list, unit_urls_reduce_unit.
    eapply pass_app; [apply pass_dedup_fields|].
    rewrite reduce_unit_set. apply IH.
Qed.

Lemma pass_reduce_items E (its : list (string * list Unit)) :
  pass E (all_resource_urls its) (all_resource_urls (reduce_items E its).1)
    (reduce_items E its).2.
Proof.
  revert E. induction its as [|[url units] its IH]; intros E; simpl.
  - apply pass_nil.
  - pose proof (pass_reduce_units E units) as Hunits.
    destruct (reduce_units E units) as [reduced E1].
    pose proof (IH E1) as Hrest.
    destruct (reduce_items E1 its) as [rest' E2]. simpl in *.
    rewrite !all_resource_urls_cons. eauto using pass_app.
Qed.

(** *** Splitting the traversal *)

Lemma reduce_units_app E units1 units2 :
  reduce_units E (units1 ++ units2) =
    ((reduce_units E units1).1
       ++ (reduce_units (reduce_units E units1).2 units2).1,
     (reduce_units (reduce_units E units1).2 units2).2).
Proof.
  revert E. induction units1 as [|unit units1 IH]; intros E; simpl.
  - by destruct (reduce_units E units2).
  - rewrite !reduce_units_cons, IH. simpl. by rewrite <-app_assoc.
Qed.

Lemma images_app E units1 units2 :
  images E (units1 ++ units2) =
    images E units1 ++ images (reduce_units E units1).2 units2.
Proof.
  revert E. induction units1 as [|unit units1 IH]; intros E; simpl; [done|].
  by rewrite IH, reduce_units_cons, reduce_unit_set.
Qed.

Lemma images_length E units : length (images E units) = length units.
Proof. revert E. induction units; intros E; simpl; auto. Qed.

Lemma reduce_items_app E (its1 its2 : list (string * list Unit)) :
  reduce_items E (its1 ++ its2) =
    ((reduce_items E its1).1 ++ (reduce_items (reduce_items E its1).2 its2).1,
     (reduce_items (reduce_items E its1).2 its2).2).
Proof.
  revert E. induction its1 as [|[url units] its1 IH]; intros E; simpl.
  - by destruct (reduce_items E its2).
  - destruct (reduce_units E units) as [reduced E1]. rewrite IH.
    destruct (reduce_items E1 its1) as [rest1 E2]. simpl.
    by destruct (reduce_items E2 its2).
Qed.

Lemma reduce_items_keys E (its : list (string * list Unit)) :
  keys (reduce_items E its).1 = keys its.
Proof.
  revert E. induction its as [|[url units] its IH]; intros E; simpl; [done|].
  destruct (reduce_units E units) as [reduced E1]. specialize (IH E1).
  destruct (reduce_items E1 its). simpl in *. by f_equal.
Qed.

(** The output for a map that is split at one of its subsections. *)
Lemma remove_repeated_urls_split m1 url units m2 :
  wf (m1 ++ (url, units) :: m2) →
  let E1 := (reduce_items ∅ m1).2 in
  let E2 := (reduce_units E1 units).2 in
  remove_repeated_urls (m1 ++ (url, units) :: m2)
  = (reduce_items ∅ m1).1 ++ (url, (reduce_units E1 units).1)
      :: (reduce_items E2 m2).1.
Proof.
  intros Hwf ??. rewrite remove_repeated_urls_items by done.
  rewrite reduce_items_app. simpl. subst E1 E2.
  destruct (reduce_units _ units) as [reduced E2]. simpl.
  by destruct (reduce_items E2 m2).
Qed.

Lemma remove_repeated_urls_keys m :
  wf m → keys (remove_repeated_urls m) = keys m.
Proof.
  intros Hwf. rewrite remove_repeated_urls_items by done.
  apply reduce_items_keys.
Qed.

Lemma remove_repeated_urls_wf m : wf m → wf (remove_repeated_urls m).
Proof. intros Hwf. unfold wf. by rewrite remove_repeated_urls_keys. Qed.

Lemma remove_repeated_urls_get m1 url units m2 :
  wf (m1 ++ (url, units) :: m2) →
  get (remove_repeated_urls (m1 ++ (url, units) :: m2)) url
  = Some (reduce_units (reduce_items ∅ m1).2 units).1.
Proof.
  intros Hwf. apply elem_of_get; [by apply remove_repeated_urls_wf|].
  rewrite remove_repeated_urls_split by done.
  apply elem_of_app. right. apply elem_of_cons. by left.
Qed.

Lemma elem_of_all_resource_urls m url units u :
  (url, units) ∈ m → u ∈ units_urls units → u ∈ all_resource_urls m.
Proof.
  intros Hin Hu. unfold all_resource_urls. apply list_elem_of_bind.
  exists units. split; [done|]. unfold values.
  apply list_elem_of_fmap. by exists (url, units).
Qed.

Lemma elem_of_units_urls units unit u :
  unit ∈ units → u ∈ unit_urls unit → u ∈ units_urls units.
Proof. intros ??. unfold units_urls. apply list_elem_of_bind. eauto. Qed.

(** What an image retains was met in its source and was new. *)
Lemma elem_of_images E units unit' u :
  unit' ∈ images E units → u ∈ unit_urls unit' →
  u ∈ units_urls units ∧ Some u ∉ E.
Proof.
  revert E. induction units as [|unit units IH]; intros E; cbn [images].
  - by intros ?%elem_of_nil.
  - destruct (pass_dedup_fields E unit) as (Hset & _ & Hout).
    intros [->|Hin]%elem_of_cons Hu.
    + apply Hout in Hu as [??]. split; [|done].
      rewrite units_urls_cons. apply elem_of_app. by left.
    + destruct (IH _ Hin Hu) as [Hsrc Hnew]. split.
      * rewrite units_urls_cons. apply elem_of_app. by right.
      * intros Hold. apply Hnew, Hset. by left.
Qed.

(** *** Counting *)

Lemma keep_new_count E urls :
  length urls = length (keep_new E urls).1 + discarded E urls.
Proof.
  revert E. induction urls as [|url urls IH]; intros E; [done|].
  rewrite keep_new_cons. simpl.
  destruct (decide (Some url ∈ E)) as [Hold|Hnew].
  - rewrite decide_False by auto. rewrite (IH E). lia.
  - rewrite decide_True by done. simpl. by rewrite (IH ({[Some url]} ∪ E)).
Qed.

Lemma add_seen (x : option string) E : x ∈ E → {[x]} ∪ E = E.
Proof. intros Hx. apply subseteq_union_1_L. by apply singleton_subseteq_l. Qed.

Lemma unit_count_conserved E unit :
  unit_count unit
  = from_option unit_count 0 (reduce_unit E unit).1 + removed_from_unit E unit.
Proof.
  unfold removed_from_unit.
  destruct (reduce_unit E unit) as [o E'] eqn:Hred. simpl.
  revert Hred. unfold reduce_unit, dedup_fields.
  set (e1 := {[video_youtube_url unit]} ∪ E).
  assert ((if decide (video_youtube_url unit ∉ E)
           then (video_youtube_url unit, e1) else (None, E))
          = (if decide (video_youtube_url unit ∈ E)
             then None else video_youtube_url unit, e1)) as ->.
  { subst e1. destruct (decide (video_youtube_url unit ∈ E)).
    - rewrite decide_False by auto. by rewrite add_seen.
    - by rewrite decide_True. }
  pose proof (keep_new_count e1 (mp4_urls unit)) as Hmp4.
  destruct (keep_new e1 (mp4_urls unit)) as [mp4 e2]. simpl in *.
  pose proof (keep_new_count e2 (resources_urls unit)) as Hres.
  destruct (keep_new e2 (resources_urls unit)) as [resources e3]. simpl in *.
  destruct (has_urls _ mp4 resources) eqn:Hhas; intros [= <- <-].
  - unfold unit_count, is_set. simpl. rewrite Hmp4, Hres.
    destruct (decide (video_youtube_url unit ∈ E)),
      (video_youtube_url unit); lia.
  - apply has_urls_false in Hhas as (Hvideo & -> & ->). simpl in *.
    unfold unit_count, is_set. rewrite Hmp4, Hres.
    destruct (decide (video_youtube_url unit ∈ E)),
      (video_youtube_url unit); simplify_eq; lia.
Qed.

Lemma units_count_conserved E units :
  sum_list_with unit_count units
  = sum_list_with unit_count (reduce_units E units).1
    + removed_from_units E units.
Proof.
  revert E. induction units as [|unit units IH]; intros E; [done|].
  rewrite reduce_units_cons. simpl.
  rewrite sum_list_with_app, (unit_count_conserved E unit),
    (IH (reduce_unit E unit).2).
  destruct (reduce_unit E unit).1; simpl; lia.
Qed.

Lemma sum_list_bind_singleton {A} (f : A → nat) (l : list A) :
  sum_list (l ≫= λ x, [f x]) = sum_list_with f l.
Proof.
  induction l as [|x l IH]; [done|].
  rewrite bind_cons, sum_list_with_app, IH. simpl. unfold id. lia.
Qed.

Lemma num_urls_sum (units_dict : all_units_map) :
  num_urls_in_units_dict units_dict
  = sum_list_with unit_count (mjoin (values units_dict)).
Proof.
  unfold num_urls_in_units_dict, values.
  induction units_dict as [|[url units] d IH]; [done|].
  rewrite fmap_cons, bind_cons. cbn [mjoin list_join snd].
  rewrite !sum_list_with_app, IH.
  by rewrite sum_list_bind_singleton.
Qed.

Lemma items_count_conserved E (its : list (string * list Unit)) :
  num_urls_in_units_dict its
  = num_urls_in_units_dict (reduce_items E its).1 + removed_from_items E its.
Proof.
  rewrite !num_urls_sum.
  revert E. induction its as [|[url units] its IH]; intros E; [done|]. simpl.
  pose proof (units_count_conserved E units) as Hunits.
  destruct (reduce_units E units) as [reduced E1]. simpl in *.
  specialize (IH E1). destruct (reduce_items E1 its) as [rest' E2].
  simpl in *. rewrite !sum_list_with_app. lia.
Qed.

(** ** The loop and the closed form *)

Lemma keep_new_unseen E seen urls :
  stands_for E seen → (keep_new E urls).1 = unseen seen urls.
Proof.
  revert E seen. induction urls as [|url urls IH]; intros E seen HE; [done|].
  rewrite keep_new_cons. simpl.
  destruct (decide (url ∈ seen)) as [Hseen|Hnew].
  - rewrite decide_False by (intros Hn; by apply Hn, HE). by apply IH.
  - rewrite decide_True by (by rewrite (HE url)). simpl. f_equal.
    apply IH. intros u.
    rewrite elem_of_union, elem_of_singleton, elem_of_app,
      list_elem_of_singleton, (HE u).
    split; intros [?|?]; simplify_eq; auto.
Qed.

Lemma stands_for_pass E seen ins outs E' :
  stands_for E seen → pass E ins outs E' → stands_for E' (seen ++ ins).
Proof.
  intros HE (Hset & _ & _) u. rewrite Hset, elem_of_app, (HE u). done.
Qed.

Lemma image_deduplicated E seen unit :
  stands_for E seen → image E unit = deduplicated seen unit.
Proof.
  intros HE. unfold image, deduplicated, dedup_fields.
  set (video := video_youtube_url unit).
  assert (∃ e1,
            (if decide (video ∉ E) then (video, {[video]} ∪ E) else (None, E))
            = (match video with
               | Some url => if decide (url ∈ seen) then None else Some url
               | None => None
               end, e1) ∧
            stands_for e1 (seen ++ option_list video)) as (e1 & -> & He1).
  { destruct video as [url|]; simpl.
    - destruct (decide (url ∈ seen)) as [Hseen|Hnew].
      + rewrite decide_False by (intros Hn; by apply Hn, HE).
        eexists. split; [done|]. intros u.
        rewrite elem_of_app, list_elem_of_singleton, (HE u).
        split; [auto|]. by intros [?| ->].
      + rewrite decide_True by (by rewrite (HE url)).
        eexists. split; [done|]. intros u.
        rewrite elem_of_union, elem_of_singleton, elem_of_app,
          list_elem_of_singleton, (HE u).
        split; intros [?|?]; simplify_eq; auto.
    - rewrite app_nil_r. case_decide.
      + eexists. split; [done|]. intros u.
        rewrite elem_of_union, elem_of_singleton, (HE u).
        split; [by intros [?|?]|auto].
      + by eexists. }
  pose proof (keep_new_unseen e1 _ (mp4_urls unit) He1) as Hmp4.
  pose proof (stands_for_pass _ _ _ _ _ He1 (pass_keep_new e1 (mp4_urls unit)))
    as He2.
  destruct (keep_new e1 (mp4_urls unit)) as [mp4 e2]. simpl in *.
  pose proof (keep_new_unseen e2 _ (resources_urls unit) He2) as Hres.
  destruct (keep_new e2 (resources_urls unit)) as [resources e3]. simpl in *.
  by rewrite Hmp4, Hres.
Qed.

Lemma images_deduplicated E seen units :
  stands_for E seen →
  images E units
  = imap (λ i unit, deduplicated (seen ++ units_urls (take i units)) unit)
      units.
Proof.
  revert E seen. induction units as [|unit units IH]; intros E seen HE; [done|].
  cbn [images imap]. f_equal.
  - rewrite (image_deduplicated E seen) by done.
    by rewrite take_0, app_nil_r.
  - rewrite (IH _ (seen ++ unit_urls unit)).
    + apply imap_ext. intros i unit' _. unfold compose.
      change (take (S i) (unit :: units)) with (unit :: take i units).
      by rewrite units_urls_cons, app_assoc.
    + eapply stands_for_pass; [done|apply pass_dedup_fields].
Qed.

Lemma stands_for_reduce_items m :
  stands_for (reduce_items ∅ m).2 (all_resource_urls m).
Proof.
  destruct (pass_reduce_items ∅ m) as (Hset & _ & _). intros u.
  rewrite Hset. split; [|auto]. intros [Hin|?]; [|done].
  by apply not_elem_of_empty in Hin.
Qed.

End DedupFacts.

(** * Extraction with a cache *)

Module CacheFacts.
Import Cache.

Lemma of_pairs_fold {V} (pairs acc : dict V) :
  NoDup (keys acc ++ keys pairs) →
  fold_left (λ acc kv, set acc kv.1 kv.2) pairs acc = acc ++ pairs.
Proof.
  revert acc. induction pairs as [|[k v] pairs IH]; intros acc Hnd; simpl.
  - by rewrite app_nil_r.
  - rewrite keys_set_fresh.
    + rewrite IH; [by rewrite <-app_assoc|].
      unfold keys in *. by rewrite fmap_app, <-app_assoc.
    + apply NoDup_app in Hnd as (_ & Hdisj & _).
      intros Hin. apply (Hdisj _ Hin). apply elem_of_cons; auto.
Qed.

Lemma of_pairs_wf_id {V} (d : dict V) : wf d → of_pairs d = d.
Proof. intros Hwf. unfold of_pairs, empty. by rewrite of_pairs_fold. Qed.

Lemma set_wf {V} (d : dict V) k v : wf d → wf (set d k v).
Proof.
  unfold wf. intros Hwf. rewrite keys_set. unfold mem.
  case_bool_decide as Hin; [done|].
  apply NoDup_app. split_and!; [done| |apply NoDup_singleton].
  intros k' Hk' ->%list_elem_of_singleton. done.
Qed.

Lemma of_pairs_wf {V} (pairs : list (string * V)) : wf (of_pairs pairs).
Proof.
  unfold of_pairs.
  assert (∀ acc : dict V, wf acc →
            wf (fold_left (λ acc kv, set acc kv.1 kv.2) pairs acc)) as Hgen.
  { induction pairs as [|[k v] pairs IH]; intros acc Hacc; simpl; [done|].
    apply IH. by apply set_wf. }
  apply Hgen. constructor.
Qed.

Lemma update_wf {V} (d other : dict V) : wf d → wf (update d other).
Proof.
  unfold update, items. revert d.
  induction other as [|[k v] other IH]; intros d Hd; simpl; [done|].
  apply IH. by apply set_wf.
Qed.

Lemma bind_assoc {A B C} (m : M A) (f : A → M B) (g : B → M C) w :
  bind m (λ x, bind (f x) g) w = bind (bind m f) g w.
Proof. unfold bind. by destruct (m w) as [[a|e] w']. Qed.

Lemma bind_run {A B} (m : M A) (k : A → M B) w a w' :
  m w = (Ok a, w') → bind m k w = k a w'.
Proof. unfold bind. by intros ->. Qed.

(** Reading the cache: a missing file counts as the empty map. *)
Lemma load_cache_run filename w (cached_units : all_units_map) :
  (files w !! resolve w filename = None ∧ cached_units = empty) ∨
  files w !! resolve w filename = Some (Pickled cached_units) →
  bind (os_path_exists filename)
    (λ file_exists, if file_exists : bool then pickle_load filename
                    else ret empty) w
  = (Ok cached_units, w).
Proof.
  unfold bind, os_path_exists, pickle_load, ret.
  intros [[Hnone ->]|Hsome].
  - rewrite bool_decide_eq_false_2; [done|]. rewrite Hnone. by intros [??].
  - rewrite bool_decide_eq_true_2 by (by rewrite Hsome). by rewrite Hsome.
Qed.

Section WithEnv.
Context (sys : env).

Lemma extract_units_run url headers w :
  extract_units sys url headers w
  = (page_units sys url headers,
     mkWorld (cwd w) (files w)
       (trace w ++ [Printed ("Processing '" +:+ url +:+ "'"); NetFetch url])).
Proof.
  unfold extract_units, bind, compat_print, emit, lift. simpl.
  by rewrite <-app_assoc.
Qed.

End WithEnv.
End CacheFacts.

(** * The pool *)

Module PoolFacts.
Import Pool PoolSpec.

Lemma chunksize_pos workers n : 0 < workers → 0 < n → 0 < chunksize workers n.
Proof.
  intros Hw Hn. unfold chunksize. case_decide as Hextra; [|lia].
  destruct (decide (n / (workers * 4) = 0)) as [Hdiv|]; [|lia].
  pose proof (Nat.div_mod_eq n (workers * 4)) as Hn'.
  rewrite Hdiv, Hextra in Hn'. lia.
Qed.

(** The batches, put end to end, are the iterable. *)
Lemma batches_join {A} (fuel size : nat) (l : list A) :
  0 < size → length l ≤ fuel → mjoin (batches fuel size l) = l.
Proof.
  intros Hsize. revert l. induction fuel as [|fuel IH]; intros l Hlen.
  - destruct l; [done|simpl in Hlen; lia].
  - simpl. destruct l as [|x l]; [by destruct size|].
    destruct size as [|size]; [lia|]. simpl.
    rewrite IH; [by rewrite take_drop|].
    rewrite length_drop. simpl in Hlen. lia.
Qed.

Lemma batches_nil {A} (fuel size : nat) : batches fuel size (@nil A) = [].
Proof. destruct fuel; [done|]. simpl. by destruct size. Qed.

Lemma events_left_app l1 l2 :
  events_left (l1 ++ l2) = events_left l1 ++ events_left l2.
Proof. unfold events_left. by rewrite fmap_app, join_app. Qed.

(** However the schedule picks, the tasks emit all their events, each
    task its own in order, and the whole fails exactly when a task
    fails. *)
Lemma run_tasks_spec pick fuel step running first_error :
  Forall (λ t, task_events t ≠ []) running →
  length (events_left running) ≤ fuel →
  (run_tasks pick fuel step running first_error).1 ≡ₚ events_left running ∧
  ((run_tasks pick fuel step running first_error).2 = None
   ↔ first_error = None ∧ Forall (λ t, task_error t = None) running).
Proof.
  revert step running first_error.
  induction fuel as [|fuel IH]; intros step running first_error Hne Hlen.
  { destruct running as [|[[|ev rest] error] running].
    - simpl. split; [done|]. split; [by intros ->|by intros [-> _]].
    - by apply Forall_cons in Hne as [? _].
    - unfold events_left in Hlen. simpl in Hlen. lia. }
  cbn [run_tasks].
  destruct (decide (running = [])) as [->|Hrunning].
  { simpl. split; [done|]. split; [by intros ->|by intros [-> _]]. }
  set (i := pick step `mod` length running).
  assert (i < length running) as Hi.
  { apply Nat.mod_upper_bound. by destruct running. }
  destruct (lookup_lt_is_Some_2 running i Hi) as [[events error] Hlook].
  rewrite Hlook.
  pose proof (take_drop_middle _ _ _ Hlook) as Hmid.
  assert (events ≠ []) as Hevents.
  { eapply (Forall_lookup_1 _ _ _ _ Hne Hlook). }
  destruct events as [|ev rest]; [done|].
  set (pre := take i running) in *. set (post := drop (S i) running) in *.
  assert (Forall (λ t, task_events t ≠ []) pre ∧
          Forall (λ t, task_events t ≠ []) post) as [Hpre Hpost].
  { rewrite <-Hmid in Hne. apply Forall_app in Hne as [? Hne].
    by apply Forall_cons in Hne as [_ ?]. }
  assert (events_left running
          = events_left pre ++ (ev :: rest) ++ events_left post) as Hleft.
  { rewrite <-Hmid. rewrite events_left_app. done. }
  destruct rest as [|ev' rest].
  - (* the task is done *)
    assert (delete i running = pre ++ post) as Hdel
      by (by rewrite delete_take_drop).
    rewrite Hdel.
    destruct (IH (S step) (pre ++ post)
                (if first_error is None then error else first_error))
      as [Hperm Herr].
    { by apply Forall_app. }
    { rewrite Hleft, !length_app in Hlen. rewrite events_left_app, length_app.
      simpl in Hlen. lia. }
    destruct (run_tasks pick fuel (S step) (pre ++ post) _) as [evs e].
    simpl in *. split.
    + rewrite Hleft, Hperm, events_left_app. simpl.
      by rewrite Permutation_middle.
    + rewrite Herr, <-Hmid, !Forall_app, Forall_cons. simpl.
      destruct first_error; intuition congruence.
  - (* the task goes on *)
    assert (<[i := mkTask (ev' :: rest) error]> running
            = pre ++ mkTask (ev' :: rest) error :: post) as Hins.
    { rewrite insert_take_drop by done. done. }
    rewrite Hins.
    destruct (IH (S step) (pre ++ mkTask (ev' :: rest) error :: post)
                first_error) as [Hperm Herr].
    { apply Forall_app. split; [done|]. by constructor. }
    { rewrite Hleft, !length_app in Hlen.
      change (mkTask (ev' :: rest) error :: post)
        with ([mkTask (ev' :: rest) error] ++ post).
      rewrite !events_left_app, !length_app.
      change (events_left [mkTask (ev' :: rest) error])
        with ((ev' :: rest) ++ []).
      rewrite app_nil_r. simpl in *. lia. }
    destruct (run_tasks pick fuel (S step) _ _) as [evs e].
    simpl in *. split.
    + rewrite Hleft, Hperm.
      change (mkTask (ev' :: rest) error :: post)
        with ([mkTask (ev' :: rest) error] ++ post).
      rewrite !events_left_app.
      change (events_left [mkTask (ev' :: rest) error])
        with ((ev' :: rest) ++ []).
      rewrite app_nil_r. by rewrite <-Permutation_middle.
    + rewrite Herr, <-Hmid, !Forall_app, !Forall_cons. done.
Qed.

Lemma events_left_filter (tasks : list task) :
  events_left (filter (λ t, task_events t ≠ []) tasks) = events_left tasks.
Proof.
  induction tasks as [|[events error] tasks IH]; [done|].
  rewrite filter_cons. simpl.
  assert (∀ t l, events_left (t :: l) = task_events t ++ events_left l)
    as Hcons by done.
  case_decide as Hne.
  - by rewrite !Hcons, IH.
  - rewrite Hcons, IH. simpl. by destruct events.
Qed.

Lemma Forall_done_running (P : task → Prop) (tasks : list task) :
  Forall P (filter (λ t, task_events t = []) tasks) ∧
  Forall P (filter (λ t, task_events t ≠ []) tasks) ↔ Forall P tasks.
Proof.
  induction tasks as [|t tasks IH]; [by split; [|split]|].
  rewrite !filter_cons, Forall_cons, <-IH.
  destruct (decide (task_events t = [])) as [Hd|Hd].
  - rewrite (decide_False (P:=task_events t ≠ [])) by tauto.
    rewrite Forall_cons. tauto.
  - rewrite (decide_True (P:=task_events t ≠ [])) by tauto.
    rewrite Forall_cons. tauto.
Qed.

Lemma head_omap_None {A B} (f : A → option B) (l : list A) :
  head (omap f l) = None ↔ Forall (λ x, f x = None) l.
Proof.
  induction l as [|x l IH]; simpl; [by split|].
  rewrite Forall_cons. destruct (f x); simpl; [|tauto].
  split; [done|by intros [? _]].
Qed.

(** [pool_map], whatever the schedule: the events are those of the runs
    of the batches, interleaved; it returns when every batch does, the
    results in the order of the iterable. *)
Lemma pool_map_spec {A B} pick workers (func : A → M B) iterable w :
  ∃ events,
    (pool_map pick workers func iterable w).2
    = mkWorld (cwd w) (files w) (trace w ++ events) ∧
    events ≡ₚ mjoin ((λ run, trace run.2) <$> runs_of workers func iterable w) ∧
    match (pool_map pick workers func iterable w).1 with
    | Ok ys =>
        Forall (λ run, ∃ zs, run.1 = Ok zs) (runs_of workers func iterable w) ∧
        ys = results_of (runs_of workers func iterable w)
    | Raise e =>
        ¬ Forall (λ run, ∃ zs, run.1 = Ok zs) (runs_of workers func iterable w)
    end.
Proof.
  unfold pool_map. cbv zeta.
  change (_ <$> batches _ _ iterable) with (runs_of workers func iterable w).
  set (runs := runs_of workers func iterable w).
  set (to_task := λ run : result (list B) * world,
         mkTask (trace run.2)
           (match run.1 with Raise e => Some e | Ok _ => None end)).
  set (tasks := to_task <$> runs).
  set (running := filter (λ t, task_events t ≠ []) tasks).
  set (done_ := filter (λ t, task_events t = []) tasks).
  destruct (run_tasks_spec pick (length (events_left running)) 0 running
              (head (omap task_error done_))) as [Hperm Herr].
  { unfold running. apply Forall_forall. by intros t [? _]%list_elem_of_filter. }
  { done. }
  change (mjoin (task_events <$> running)) with (events_left running).
  destruct (run_tasks pick _ 0 running _) as [events error]. simpl in *.
  exists events. split; [by destruct error|]. split.
  { rewrite Hperm. unfold running. rewrite events_left_filter.
    unfold events_left, tasks. by rewrite <-list_fmap_compose. }
  assert (error = None ↔ Forall (λ run, ∃ zs, run.1 = Ok zs) runs) as Hall.
  { rewrite Herr, head_omap_None. unfold done_, running.
    rewrite (Forall_done_running (λ t, task_error t = None) tasks).
    unfold tasks. rewrite Forall_fmap. apply Forall_iff. intros [[zs|e] w1]; simpl.
    - split; [by eexists|done].
    - split; [done|by intros [? ?]]. }
  destruct error as [e|]; simpl.
  - intros Hok. by apply Hall in Hok.
  - split; [by apply Hall|done].
Qed.

End PoolFacts.

(** * The extraction of the pages by the pool *)

Module ExtractFacts.
Import Pool PoolSpec Cache CacheFacts PoolFacts.

Section WithEnv.
Context (sys : env).

Lemma print_or_fetch_no_write (new : list event) :
  Forall print_or_fetch new → writes_of new = [].
Proof.
  induction 1 as [|ev new Hev _ IH]; [done|].
  unfold writes_of in *. simpl. by destruct ev.
Qed.

(** One batch: the pages are fetched in order, up to the first that
    fails. *)
Lemma batch_run (batch : list string) headers w :
  ∃ new,
    let '(r, w') := mapstar (λ url, extract_units sys url headers) batch w in
    trace w' = trace w ++ new ∧
    Forall print_or_fetch new ∧
    fetches_of new `prefix_of` batch ∧
    (∀ units, r = Ok units →
       fetches_of new = batch ∧
       Forall2 (λ url us, page_units sys url headers = Ok us) batch units) ∧
    (Forall (λ url, ∃ us, page_units sys url headers = Ok us) batch →
     ∃ units, r = Ok units).
Proof.
  unfold mapstar. revert w. induction batch as [|url urls IH]; intros w.
  - exists []. simpl. rewrite app_nil_r. split_and!; try done.
    + intros units [= <-]. split; [done|constructor].
    + by eexists.
  - simpl. unfold bind at 1. rewrite extract_units_run.
    destruct (page_units sys url headers) as [us|e] eqn:Hpage.
    + set (w1 := mkWorld _ _ _). destruct (IH w1) as [new Hnew].
      exists ([Printed ("Processing '" +:+ url +:+ "'"); NetFetch url] ++ new).
      unfold bind at 1.
      destruct (map_M _ urls w1) as [[units|e] w'];
        destruct Hnew as (Htrace & Hkinds & Hpre & Hok & Htotal); simpl in *.
      * split_and!.
        { by rewrite Htrace, <-app_assoc. }
        { by repeat constructor. }
        { by apply prefix_cons. }
        { intros units' [= <-]. destruct (Hok units eq_refl) as [-> ?].
          split; [done|by constructor]. }
        { by eexists. }
      * split_and!; try done.
        { by rewrite Htrace, <-app_assoc. }
        { by repeat constructor. }
        { by apply prefix_cons. }
        { intros [_ Hall]%Forall_cons. by destruct (Htotal Hall). }
    + exists [Printed ("Processing '" +:+ url +:+ "'"); NetFetch url].
      simpl. split_and!; try done.
      * by repeat constructor.
      * apply prefix_cons, prefix_nil.
      * intros [[? ?] _]%Forall_cons. congruence.
Qed.

(** The batches, each run on its own trace. *)
Lemma batches_run (bs : list (list string)) headers (w0 : world) :
  trace w0 = [] →
  let runs := (λ batch, mapstar (λ url, extract_units sys url headers) batch w0)
              <$> bs in
  let events := mjoin ((λ run, trace run.2) <$> runs) in
  Forall print_or_fetch events ∧
  fetches_of events ⊆+ mjoin bs ∧
  (Forall (λ run, ∃ zs, run.1 = Ok zs) runs →
   fetches_of events = mjoin bs ∧
   Forall2 (λ url us, page_units sys url headers = Ok us)
     (mjoin bs) (results_of runs)) ∧
  (Forall (λ url, ∃ us, page_units sys url headers = Ok us) (mjoin bs) →
   Forall (λ run, ∃ zs, run.1 = Ok zs) runs).
Proof.
  intros Hw0. induction bs as [|batch bs IH]; simpl.
  { split_and!; done. }
  destruct IH as (Hkinds & Hsub & Hok & Htotal).
  destruct (batch_run batch headers w0) as [new Hnew].
  destruct (mapstar _ batch w0) as [r w'].
  destruct Hnew as (Htrace & Hkinds1 & Hpre & Hok1 & Htotal1).
  rewrite Hw0 in Htrace. simpl in *. rewrite Htrace.
  unfold fetches_of in *. rewrite omap_app.
  split_and!.
  - by apply Forall_app.
  - apply submseteq_app; [|done]. destruct Hpre as [k ->].
    by apply submseteq_inserts_r.
  - intros [[zs Hr] Hall]%Forall_cons. simpl in Hr. subst r.
    destruct (Hok1 zs eq_refl) as [-> Hpages].
    destruct (Hok Hall) as [Hf Hpages'].
    split; [f_equal; exact Hf|]. unfold results_of. simpl. by apply Forall2_app.
  - intros [Hb Hbs]%Forall_app. constructor; [by apply Htotal1|by apply Htotal].
Qed.

Lemma batches_of_urls (urls : list string) :
  mjoin (batches (length urls) (chunksize 20 (length urls)) urls) = urls.
Proof.
  destruct urls as [|url urls]; [done|].
  apply batches_join; [|done]. apply chunksize_pos; simpl; lia.
Qed.

(** [extract_all_units], whatever the schedule of the pool: only prints
    and fetches, of pages that were asked for; when it returns, every
    url has been fetched once for each time it was asked for, and the
    map is built from the pages in the order of the urls; and it does
    return when every page can be extracted. *)
Lemma extract_all_units_run urls headers w :
  ∃ new,
    (extract_all_units sys urls headers w).2
    = mkWorld (cwd w) (files w) (trace w ++ new) ∧
    Forall print_or_fetch new ∧
    fetches_of new ⊆+ urls ∧
    (∀ all_units, (extract_all_units sys urls headers w).1 = Ok all_units →
       fetches_of new ≡ₚ urls ∧
       ∃ units,
         Forall2 (λ url us, page_units sys url headers = Ok us) urls units ∧
         all_units = Dict.of_pairs (zip urls units)) ∧
    ((∀ url, url ∈ urls → ∃ us, page_units sys url headers = Ok us) →
     ∃ all_units, (extract_all_units sys urls headers w).1 = Ok all_units).
Proof.
  unfold extract_all_units, bind.
  destruct (pool_map_spec (pool_schedule sys) 20
              (λ url, extract_units sys url headers) urls w)
    as (events & Hworld & Hperm & Hres).
  destruct (batches_run
              (batches (length urls) (chunksize 20 (length urls)) urls)
              headers (mkWorld (cwd w) (files w) []) eq_refl)
    as (Hkinds & Hsub & Hok & Htotal).
  rewrite batches_of_urls in Hsub, Hok, Htotal.
  change (_ <$> batches _ _ urls)
    with (runs_of 20 (λ url, extract_units sys url headers) urls w)
    in Hkinds, Hsub, Hok, Htotal.
  destruct (pool_map _ _ _ urls w) as [[units|e] w']; simpl in *.
  - exists events. destruct Hres as [Hall ->]. destruct (Hok Hall) as [Hf Hp].
    split_and!; try done.
    + by rewrite Hperm.
    + unfold fetches_of in *. by rewrite Hperm.
    + intros all_units [= <-]. split; [|by eexists].
      unfold fetches_of in *. by rewrite Hperm, Hf.
    + intros _. by eexists.
  - exists events. split_and!; try done.
    + by rewrite Hperm.
    + unfold fetches_of in *. by rewrite Hperm.
    + intros Hpages. destruct Hres. apply Htotal. by apply Forall_forall.
Qed.

End WithEnv.
End ExtractFacts.

(** * Subtitles *)

Module SubtitleFacts.
Import Download EffectSpec.

(** *** Paths *)

Lemma is_absolute_app a b : is_absolute a = true → is_absolute (a +:+ b) = true.
Proof. by destruct a as [|c a]. Qed.

Lemma os_path_join_absolute a b :
  is_absolute a = true → is_absolute (os_path_join a b) = true.
Proof.
  intros Ha. unfold os_path_join.
  destruct (is_absolute b) eqn:Hb; [done|].
  destruct (_ || _); by apply is_absolute_app.
Qed.

(** Joining the working directory to a path that is already resolved
    against it changes nothing: the file [open] writes is the file
    [os.path.exists] looked for. *)
Lemma resolve_join_cwd w path :
  is_absolute (cwd w) = true →
  resolve w (os_path_join (cwd w) path) = resolve w path.
Proof.
  intros Habs. unfold resolve at 1. unfold os_path_join at 1.
  fold (resolve w path). unfold resolve at 1.
  by rewrite os_path_join_absolute.
Qed.

(** *** Runs that leave the files alone *)

Lemma writes_of_app t1 t2 : writes_of (t1 ++ t2) = writes_of t1 ++ writes_of t2.
Proof. apply omap_app. Qed.

Lemma quiet_ret {A} (a : A) : quiet (ret a).
Proof. intros w. split_and!; try done. exists []. by rewrite app_nil_r. Qed.

Lemma quiet_raise {A} e : quiet (raise (A:=A) e).
Proof. intros w. split_and!; try done. exists []. by rewrite app_nil_r. Qed.

Lemma quiet_lift {A} (r : result A) : quiet (lift r).
Proof. intros w. split_and!; try done. exists []. by rewrite app_nil_r. Qed.

Lemma quiet_emit ev : writes_of [ev] = [] → quiet (emit ev).
Proof. intros Hev w. split_and!; try done. by exists [ev]. Qed.

Lemma quiet_print msg : quiet (compat_print msg).
Proof. by apply quiet_emit. Qed.

Lemma quiet_bind {A B} (m : M A) (k : A → M B) :
  quiet m → (∀ a, quiet (k a)) → quiet (bind m k).
Proof.
  intros Hm Hk w. unfold bind. specialize (Hm w).
  destruct (m w) as [[a|e] w1]; simpl in *; [|done].
  destruct Hm as (Hcwd & Hfiles & new1 & Htrace & Hw1).
  destruct (Hk a w1) as (Hcwd' & Hfiles' & new2 & Htrace' & Hw2).
  split_and!; [congruence..|].
  exists (new1 ++ new2). rewrite Htrace', Htrace, writes_of_app, Hw1, Hw2.
  by rewrite app_assoc.
Qed.

Lemma quiet_try_except {A} (m : M A) handles handler :
  quiet m → (∀ e, quiet (handler e)) → quiet (try_except m handles handler).
Proof.
  intros Hm Hh w. unfold try_except. specialize (Hm w).
  destruct (m w) as [[a|e] w1]; simpl in *; [done|].
  destruct (handles e); [|done].
  destruct Hm as (Hcwd & Hfiles & new1 & Htrace & Hw1).
  destruct (Hh e w1) as (Hcwd' & Hfiles' & new2 & Htrace' & Hw2).
  split_and!; [congruence..|].
  exists (new1 ++ new2). rewrite Htrace', Htrace, writes_of_app, Hw1, Hw2.
  by rewrite app_assoc.
Qed.

Lemma quiet_map_M {A B} (f : A → M B) l :
  (∀ x, quiet (f x)) → quiet (map_M f l).
Proof.
  intros Hf. induction l as [|x l IH]; simpl; [apply quiet_ret|].
  apply quiet_bind; [done|]. intros y.
  apply quiet_bind; [done|]. intros ys. apply quiet_ret.
Qed.

Lemma quiet_exists path : quiet (os_path_exists path).
Proof. intros w. split_and!; try done. exists []. by rewrite app_nil_r. Qed.

Lemma quiet_getcwd : quiet os_getcwd.
Proof. intros w. split_and!; try done. exists []. by rewrite app_nil_r. Qed.

Section WithEnv.
Context (sys : env).

Lemma quiet_edx_get_subtitle url headers :
  quiet (edx_get_subtitle sys url headers).
Proof.
  unfold edx_get_subtitle. apply quiet_try_except.
  - apply quiet_bind; [by apply quiet_emit|]. intros _.
    apply quiet_bind; [apply quiet_lift|]. intros srt. apply quiet_ret.
  - intros e. destruct (isinstance_URLError e); [|apply quiet_raise].
    apply quiet_bind; [apply quiet_print|]. intros _. apply quiet_ret.
Qed.

Lemma quiet_get_subtitles_download_urls subs_url template headers :
  quiet (get_subtitles_download_urls sys subs_url template headers).
Proof.
  unfold get_subtitles_download_urls.
  destruct subs_url as [subs_url|], template as [template|];
    try apply quiet_ret.
  apply quiet_bind.
  - apply quiet_try_except; [|intros; apply quiet_ret].
    apply quiet_bind; [by apply quiet_emit|]. intros _. apply quiet_lift.
  - intros langs. apply quiet_bind; [|intros; apply quiet_ret].
    apply quiet_map_M. intros lang.
    apply quiet_bind; [apply quiet_lift|]. intros; apply quiet_ret.
Qed.

End WithEnv.

(** *** Runs that write only fresh files *)

Lemma fresh_writes_quiet allowed w w' :
  cwd w' = cwd w → files w' = files w →
  (∃ new, trace w' = trace w ++ new ∧ writes_of new = []) →
  fresh_writes allowed w w'.
Proof.
  intros Hcwd Hfiles (new & Htrace & Hnew). split_and!; [done|by rewrite Hfiles|].
  exists new. rewrite Hnew. split_and!; [done|constructor|].
  by intros p ?%elem_of_nil.
Qed.

Lemma fresh_writes_trans allowed w w1 w2 :
  fresh_writes allowed w w1 → fresh_writes allowed w1 w2 →
  fresh_writes allowed w w2.
Proof.
  intros (Hcwd1 & Hmono1 & new1 & Htrace1 & Hnd1 & Hnew1)
         (Hcwd2 & Hmono2 & new2 & Htrace2 & Hnd2 & Hnew2).
  split_and!; [congruence|auto|].
  exists (new1 ++ new2). rewrite writes_of_app. split_and!.
  - by rewrite Htrace2, Htrace1, app_assoc.
  - apply NoDup_app. split_and!; [done| |done].
    intros p (_ & [x Hp1] & _)%Hnew1 (Hp2 & _)%Hnew2. congruence.
  - intros p [Hp|Hp]%elem_of_app.
    + destruct (Hnew1 p Hp) as (? & ? & ?). auto.
    + destruct (Hnew2 p Hp) as (Hnone & ? & ?). split_and!; [|done..].
      destruct (files w !! p) eqn:Hw; [|done].
      destruct (Hmono1 p) as [x Hx]; [by rewrite Hw|congruence].
Qed.

Lemma careful_quiet {A} allowed (m : M A) : quiet m → careful allowed m.
Proof.
  intros Hm w _. destruct (Hm w) as (? & ? & ?). by apply fresh_writes_quiet.
Qed.

Lemma careful_bind {A B} allowed (m : M A) (k : A → M B) :
  careful allowed m → (∀ a, careful allowed (k a)) → careful allowed (bind m k).
Proof.
  intros Hm Hk w Habs. unfold bind. specialize (Hm w Habs).
  destruct (m w) as [[a|e] w1]; simpl in *; [|done].
  eapply fresh_writes_trans; [done|].
  assert (cwd w1 = cwd w) as Hcwd by apply Hm.
  rewrite <-Hcwd. apply Hk. by rewrite Hcwd.
Qed.

Lemma careful_for_each {A} allowed (l : list A) (body : A → M NoneType) :
  (∀ x, careful allowed (body x)) → careful allowed (for_each l body).
Proof.
  intros Hbody. induction l as [|x l IH]; simpl.
  - apply careful_quiet, quiet_ret.
  - apply careful_bind; [done|]. by intros _.
Qed.

Section WithEnv.
Context (sys : env).

(** When the file of a language exists, the body of the loop only
    says that it skips it. *)
Lemma download_subtitle_skip target_dir filename headers sub_lang sub_url w :
  let subs_filename :=
    os_path_join target_dir (filename +:+ "." +:+ sub_lang +:+ ".srt") in
  is_Some (files w !! resolve w subs_filename) →
  download_subtitle sys target_dir filename headers (sub_lang, sub_url) w
  = (Ok (), mkWorld (cwd w) (files w)
              (trace w ++ [Printed ("[info] Skipping existing edX subtitle "
                                    +:+ subs_filename)])).
Proof.
  intros subs_filename Hex. unfold download_subtitle, bind, os_path_exists.
  fold subs_filename. by rewrite bool_decide_eq_true_2.
Qed.

Lemma careful_download_subtitle target_dir filename headers item :
  careful (srt_path target_dir)
    (download_subtitle sys target_dir filename headers item).
Proof.
  intros w Habs. destruct item as [sub_lang sub_url].
  unfold download_subtitle. set (subs_filename := os_path_join _ _).
  unfold bind at 1, os_path_exists.
  destruct (decide (is_Some (files w !! resolve w subs_filename)))
    as [Hex|Hnew].
  { rewrite bool_decide_eq_true_2 by done. simpl.
    by apply fresh_writes_quiet; [..|eexists [_]]. }
  rewrite bool_decide_eq_false_2 by done. simpl.
  unfold bind at 1.
  destruct (quiet_edx_get_subtitle sys sub_url headers w)
    as (Hcwd & Hfiles & new & Htrace & Hquiet).
  destruct (edx_get_subtitle sys sub_url headers w) as [[[srt|]|e] w1];
    simpl in *; try (apply fresh_writes_quiet; by eauto).
  case_decide; [apply fresh_writes_quiet; by eauto|].
  unfold bind, compat_print, emit, os_getcwd, write_file. simpl.
  unfold resolve at 1 2. simpl. fold (resolve w1 (os_path_join (cwd w1) subs_filename)).
  rewrite resolve_join_cwd by (by rewrite Hcwd).
  assert (resolve w1 subs_filename = resolve w subs_filename) as ->
    by (unfold resolve; by rewrite Hcwd).
  split_and!; simpl; [done| |].
  - intros p Hp. rewrite Hfiles.
    destruct (decide (resolve w subs_filename = p)) as [->|Hne].
    + by rewrite lookup_insert_eq.
    + by rewrite lookup_insert_ne.
  - eexists. split; [by rewrite Htrace, <-!app_assoc|].
    rewrite !writes_of_app, Hquiet. simpl. split; [apply NoDup_singleton|].
    intros p ->%list_elem_of_singleton. split_and!.
    + by apply eq_None_not_Some.
    + by rewrite lookup_insert_eq.
    + by exists filename, sub_lang.
Qed.

Lemma careful_download_subtitles unit target_dir filename_prefix headers :
  careful (srt_path target_dir)
    (_download_subtitles sys unit target_dir filename_prefix headers).
Proof.
  unfold _download_subtitles. apply careful_bind.
  { apply careful_quiet. intros w. split_and!; try done.
    exists []. by rewrite app_nil_r. }
  intros [filename|]; [|apply careful_quiet, quiet_print].
  destruct (sub_template_url unit) as [template|];
    [|apply careful_quiet, quiet_print].
  apply careful_bind.
  - apply careful_quiet, quiet_get_subtitles_download_urls.
  - intros urls. apply careful_for_each. intros item.
    apply careful_download_subtitle.
Qed.

End WithEnv.

End SubtitleFacts.

(** * Maps that deduplication leaves alone *)

Module DedupFixed.
Import Dedup DedupSpec MoreSpec DedupFacts.

Implicit Types (E : url_set) (urls : list string) (unit : Unit)
  (units : list Unit).

Lemma fresh_app E E1 urls1 outs1 urls2 :
  fresh E (urls1 ++ urls2) → pass E urls1 outs1 E1 →
  fresh E urls1 ∧ fresh E1 urls2.
Proof.
  intros [Hnd Hnew] (Hset & _ & _).
  apply NoDup_app in Hnd as (Hnd1 & Hdisj & Hnd2). split; split; try done.
  - intros u Hu. apply Hnew, elem_of_app. by left.
  - intros u Hu [Hold|Hin]%Hset.
    + apply (Hnew u); [|done]. apply elem_of_app. by right.
    + by apply (Hdisj u).
Qed.

Lemma keep_new_fresh E urls : fresh E urls → (keep_new E urls).1 = urls.
Proof.
  revert E. induction urls as [|url urls IH]; intros E Hfresh; [done|].
  rewrite keep_new_cons.
  destruct (fresh_app E ({[Some url]} ∪ E) [url] [url] urls Hfresh)
    as [[_ Hurl] Hrest].
  { apply pass_kept. apply (proj2 Hfresh). apply elem_of_cons. by left. }
  rewrite decide_True by (apply Hurl, elem_of_cons; by left).
  simpl. by rewrite IH.
Qed.

Lemma image_fresh E unit : fresh E (unit_urls unit) → image E unit = unit.
Proof.
  intros Hfresh. unfold image, dedup_fields. unfold unit_urls in Hfresh.
  set (step := if decide (video_youtube_url unit ∉ E) then _ else _).
  assert (step.1 = video_youtube_url unit ∧
          pass E (option_list (video_youtube_url unit))
            (option_list (video_youtube_url unit)) step.2) as [Hvideo Hpass].
  { unfold step. destruct (video_youtube_url unit) as [video|] eqn:Hv; simpl.
    - assert (Some video ∉ E) as Hnew
        by (apply (proj2 Hfresh); apply elem_of_cons; by left).
      rewrite decide_True by done. split; [done|by apply pass_kept].
    - case_decide; simpl; (split; [done|]);
        [apply pass_add_None|]; apply pass_nil. }
  destruct step as [video e1]. simpl in *. subst video.
  destruct (fresh_app _ _ _ _ _ Hfresh Hpass) as [_ Hrest].
  destruct (fresh_app _ _ _ _ _ Hrest (pass_keep_new e1 (mp4_urls unit)))
    as [Hmp4 Hres].
  pose proof (keep_new_fresh _ _ Hmp4) as Emp4.
  pose proof (keep_new_fresh _ _ Hres) as Eres.
  destruct (keep_new e1 (mp4_urls unit)) as [mp4 e2]. simpl in *.
  destruct (keep_new e2 (resources_urls unit)) as [res e3]. simpl in *.
  subst. by destruct unit.
Qed.

Lemma reduce_units_fresh E units :
  fresh E (units_urls units) → Forall (λ unit, ¬ is_empty unit) units →
  (reduce_units E units).1 = units.
Proof.
  revert E. induction units as [|unit units IH]; intros E Hfresh Hne; [done|].
  apply Forall_cons in Hne as [Hunit Hunits].
  rewrite units_urls_cons in Hfresh.
  destruct (fresh_app _ _ _ _ _ Hfresh (pass_dedup_fields E unit))
    as [Hfu Hrest].
  rewrite reduce_units_cons, reduce_unit_set. simpl.
  rewrite IH by done. rewrite reduce_unit_image, image_fresh by done. simpl.
  by rewrite decide_False.
Qed.

Lemma reduce_items_fresh E (its : list (string * list Unit)) :
  fresh E (all_resource_urls its) →
  Forall (λ kv, Forall (λ unit, ¬ is_empty unit) kv.2) its →
  (reduce_items E its).1 = its.
Proof.
  revert E. induction its as [|[url units] its IH]; intros E Hfresh Hne; [done|].
  apply Forall_cons in Hne as [Hunits Hits]. simpl in Hunits.
  rewrite all_resource_urls_cons in Hfresh.
  destruct (fresh_app _ _ _ _ _ Hfresh (pass_reduce_units E units))
    as [Hfu Hrest].
  simpl. pose proof (reduce_units_fresh E units Hfu Hunits) as Hu.
  destruct (reduce_units E units) as [reduced E1]. simpl in *. subst reduced.
  specialize (IH E1 Hrest Hits).
  destruct (reduce_items E1 its) as [rest' E2]. simpl in *. by subst.
Qed.

(** The units of the output all carry a url. *)
Lemma reduce_items_nonempty E (its : list (string * list Unit)) :
  Forall (λ kv, Forall (λ unit, ¬ is_empty unit) kv.2) (reduce_items E its).1.
Proof.
  revert E. induction its as [|[url units] its IH]; intros E; simpl.
  - constructor.
  - pose proof (reduce_units_images E units) as Hu.
    destruct (reduce_units E units) as [reduced E1]. simpl in *.
    specialize (IH E1). destruct (reduce_items E1 its) as [rest' E2].
    simpl in *. constructor; [|done]. simpl. subst reduced.
    apply Forall_forall. by intros unit [? _]%list_elem_of_filter.
Qed.

End DedupFixed.

(** * The events of a run *)

Module EventFacts.
Import Cache Download Pipeline EffectSpec MoreSpec SubtitleFacts.

Section Emits.
Context (kinds : list event_kind).

Lemma emits_nothing {A} (m : M A) :
  (∀ w, trace (m w).2 = trace w) → emits_only kinds m.
Proof. intros Hm w. exists []. by rewrite Hm, app_nil_r. Qed.

Lemma emits_ret {A} (a : A) : emits_only kinds (ret a).
Proof. by apply emits_nothing. Qed.

Lemma emits_raise {A} e : emits_only kinds (raise (A:=A) e).
Proof. by apply emits_nothing. Qed.

Lemma emits_lift {A} (r : result A) : emits_only kinds (lift r).
Proof. by apply emits_nothing. Qed.

Lemma emits_emit ev : kind_of ev ∈ kinds → emits_only kinds (emit ev).
Proof. intros Hev w. exists [ev]. split; [done|]. by constructor. Qed.

Lemma emits_print msg : KPrinted ∈ kinds → emits_only kinds (compat_print msg).
Proof. intros. by apply emits_emit. Qed.

Lemma emits_bind {A B} (m : M A) (k : A → M B) :
  emits_only kinds m → (∀ a, emits_only kinds (k a)) →
  emits_only kinds (bind m k).
Proof.
  intros Hm Hk w. unfold bind. destruct (Hm w) as (new1 & Ht1 & Hk1).
  destruct (m w) as [[a|e] w1]; simpl in *; [|by exists new1].
  destruct (Hk a w1) as (new2 & Ht2 & Hk2).
  exists (new1 ++ new2). rewrite Ht2, Ht1, app_assoc.
  split; [done|]. by apply Forall_app.
Qed.

Lemma emits_try_except {A} (m : M A) handles handler :
  emits_only kinds m → (∀ e, emits_only kinds (handler e)) →
  emits_only kinds (try_except m handles handler).
Proof.
  intros Hm Hh w. unfold try_except. destruct (Hm w) as (new1 & Ht1 & Hk1).
  destruct (m w) as [[a|e] w1]; simpl in *; [by exists new1|].
  destruct (handles e); [|by exists new1].
  destruct (Hh e w1) as (new2 & Ht2 & Hk2).
  exists (new1 ++ new2). rewrite Ht2, Ht1, app_assoc.
  split; [done|]. by apply Forall_app.
Qed.

Lemma emits_for_each {A} (l : list A) (body : A → M NoneType) :
  (∀ x, emits_only kinds (body x)) → emits_only kinds (for_each l body).
Proof.
  intros Hbody. induction l as [|x l IH]; simpl; [apply emits_ret|].
  apply emits_bind; [done|]. by intros _.
Qed.

Lemma emits_map_M {A B} (f : A → M B) (l : list A) :
  (∀ x, emits_only kinds (f x)) → emits_only kinds (map_M f l).
Proof.
  intros Hf. induction l as [|x l IH]; simpl; [apply emits_ret|].
  apply emits_bind; [done|]. intros y.
  apply emits_bind; [done|]. intros ys. apply emits_ret.
Qed.

Lemma emits_write_file path content :
  KFileWrite ∈ kinds → emits_only kinds (write_file path content).
Proof. intros Hk w. eexists [_]. split; [done|]. by constructor. Qed.

Section WithEnv.
Context (sys : env).

Lemma emits_urlretrieve url filename :
  KUrlRetrieve ∈ kinds → emits_only kinds (urlretrieve sys url filename).
Proof.
  intros Hk w. unfold urlretrieve. eexists [_].
  destruct (url_body sys url); simpl; (split; [done|by constructor]).
Qed.

Lemma emits_run_command cmd :
  KExec ∈ kinds → emits_only kinds (run_command sys cmd).
Proof.
  intros Hk w. unfold run_command. eexists [_].
  destruct (execute_command sys cmd (files w)); simpl;
    (split; [done|by constructor]).
Qed.

Lemma emits_extract_all_units urls headers :
  KPrinted ∈ kinds → KNetFetch ∈ kinds →
  emits_only kinds (extract_all_units sys urls headers).
Proof.
  intros Hprint Hfetch w.
  destruct (ExtractFacts.extract_all_units_run sys urls headers w)
    as (new & -> & Hkinds & _).
  exists new. split; [done|].
  eapply Forall_impl; [exact Hkinds|]. by intros [].
Qed.

Lemma emits_extract_all_units_with_cache filename urls headers :
  KPrinted ∈ kinds → KNetFetch ∈ kinds →
  emits_only kinds (extract_all_units_with_cache sys filename urls headers).
Proof.
  intros. unfold extract_all_units_with_cache.
  apply emits_bind; [by apply emits_nothing|]. intros file_exists.
  apply emits_bind.
  { destruct file_exists; [|apply emits_ret]. apply emits_nothing.
    intros w. unfold pickle_load. by repeat case_match. }
  intros cached. apply emits_bind; [by apply emits_print|]. intros _.
  apply emits_bind; [by apply emits_extract_all_units|]. intros.
  apply emits_ret.
Qed.

Lemma emits_download_subtitles unit target_dir filename_prefix headers :
  KPrinted ∈ kinds → KNetFetch ∈ kinds → KFileWrite ∈ kinds →
  emits_only kinds
    (_download_subtitles sys unit target_dir filename_prefix headers).
Proof.
  intros. unfold _download_subtitles.
  apply emits_bind; [by apply emits_nothing|].
  intros [filename|]; [|by apply emits_print].
  destruct (sub_template_url unit); [|by apply emits_print].
  apply emits_bind.
  { unfold get_subtitles_download_urls.
    destruct (available_subs_url unit); [|apply emits_ret].
    apply emits_bind.
    - apply emits_try_except; [|intros; apply emits_ret].
      apply emits_bind; [by apply emits_emit|]. intros. apply emits_lift.
    - intros langs. apply emits_bind; [|intros; apply emits_ret].
      apply emits_map_M. intros lang.
      apply emits_bind; [apply emits_lift|]. intros. apply emits_ret. }
  intros urls. apply emits_for_each. intros [sub_lang sub_url].
  unfold download_subtitle.
  apply emits_bind; [by apply emits_nothing|]. intros file_exists.
  destruct file_exists; simpl; [by apply emits_print|].
  apply emits_bind.
  { unfold edx_get_subtitle. apply emits_try_except.
    - apply emits_bind; [by apply emits_emit|]. intros.
      apply emits_bind; [apply emits_lift|]. intros. apply emits_ret.
    - intros e. destruct (isinstance_URLError e); [|apply emits_raise].
      apply emits_bind; [by apply emits_print|]. intros. apply emits_ret. }
  intros [srt|]; [|apply emits_ret].
  case_decide; [apply emits_ret|].
  apply emits_bind; [by apply emits_print|]. intros.
  apply emits_bind; [by apply emits_nothing|]. intros.
  by apply emits_write_file.
Qed.

Lemma emits_download_urls urls target_dir filename_prefix :
  KPrinted ∈ kinds → KUrlRetrieve ∈ kinds →
  emits_only kinds (download_urls sys urls target_dir filename_prefix).
Proof.
  intros. unfold download_urls. apply emits_for_each. intros url.
  destruct (after_last_slash url); [|apply emits_raise].
  apply emits_bind; [by apply emits_print|]. intros.
  by apply emits_urlretrieve.
Qed.

End WithEnv.
End Emits.

End EventFacts.

(** * Downloads *)

Module DownloadFacts.
Import Download EffectSpec MoreSpec SubtitleFacts EventFacts.

(** *** The name of a downloaded file *)

Lemma has_slash_cons c s :
  has_slash (String c s) ↔ c = "/"%char ∨ has_slash s.
Proof.
  unfold has_slash. simpl. rewrite elem_of_cons. split; intros [?|?]; auto.
Qed.

Lemma has_slash_app s1 s2 : has_slash (s1 +:+ s2) ↔ has_slash s1 ∨ has_slash s2.
Proof.
  induction s1 as [|c s1 IH].
  - unfold has_slash at 2. simpl. rewrite elem_of_nil. tauto.
  - change (String c s1 +:+ s2) with (String c (s1 +:+ s2)).
    rewrite !has_slash_cons, IH. tauto.
Qed.

Lemma after_last_slash_None url :
  after_last_slash url = None ↔ ¬ has_slash url.
Proof.
  induction url as [|c url IH]; simpl.
  - unfold has_slash. simpl. rewrite elem_of_nil. tauto.
  - rewrite has_slash_cons.
    destruct (after_last_slash url) as [name|].
    + split; [done|]. intros []. right.
      destruct (decide (has_slash url)) as [|Hn]; [done|].
      by apply IH in Hn.
    + case_decide as Hc.
      * split; [done|]. intros []. by left.
      * split; [|done]. intros _ [?|?]; [done|]. by apply IH.
Qed.

Lemma after_last_slash_Some url name :
  after_last_slash url = Some name →
  ∃ dir, url = dir +:+ "/" +:+ name ∧ ¬ has_slash name.
Proof.
  revert name. induction url as [|c url IH]; intros name; simpl; [done|].
  destruct (after_last_slash url) as [name'|] eqn:Hrest.
  - intros [= <-]. destruct (IH name' eq_refl) as (dir & -> & Hname).
    by exists (String c dir).
  - case_decide as Hc; [|done]. intros [= <-]. subst c.
    exists "". split; [done|]. by apply after_last_slash_None.
Qed.


Lemma retrieved_of_app t1 t2 :
  retrieved_of (t1 ++ t2) = retrieved_of t1 ++ retrieved_of t2.
Proof. apply omap_app. Qed.

(** *** Loops *)

Lemma for_each_app {A} (l1 l2 : list A) (body : A → M NoneType) w :
  for_each (l1 ++ l2) body w =
    match for_each l1 body w with
    | (Ok _, w1) => for_each l2 body w1
    | (Raise e, w1) => (Raise e, w1)
    end.
Proof.
  revert w. induction l1 as [|x l1 IH]; intros w; simpl; [done|].
  unfold bind. destruct (body x w) as [[[]|e] w1]; [apply IH|done].
Qed.

Lemma add_events_nil w : add_events w [] = w.
Proof. unfold add_events. rewrite app_nil_r. by destruct w. Qed.

Lemma add_events_app w evs1 evs2 :
  add_events (add_events w evs1) evs2 = add_events w (evs1 ++ evs2).
Proof. unfold add_events. simpl. by rewrite app_assoc. Qed.

(** A loop whose body only emits events. *)
Lemma for_each_events {A} (l : list A) (body : A → M NoneType)
    (g : A → list event) w :
  (∀ x w, x ∈ l → body x w = (Ok (), add_events w (g x))) →
  for_each l body w = (Ok (), add_events w (l ≫= g)).
Proof.
  revert w. induction l as [|x l IH]; intros w Hbody; simpl.
  - by rewrite add_events_nil.
  - unfold bind. rewrite Hbody by (apply elem_of_cons; by left).
    rewrite IH, add_events_app; [done|].
    intros y w' Hy. apply Hbody. apply elem_of_cons. by right.
Qed.

Section WithEnv.
Context (sys : env).

Lemma download_urls_cons url urls target_dir filename_prefix w :
  download_urls sys (url :: urls) target_dir filename_prefix w =
    match after_last_slash url with
    | None => (Raise IndexError, w)
    | Some name =>
        let filename :=
          os_path_join target_dir (filename_prefix +:+ "-" +:+ name) in
        let t := trace w ++ [Printed ("[download] Destination: " +:+ filename);
                             UrlRetrieve url (resolve w filename)] in
        match url_body sys url with
        | Ok body =>
            download_urls sys urls target_dir filename_prefix
              (mkWorld (cwd w) (<[resolve w filename := Bytes body]> (files w)) t)
        | Raise e => (Raise e, mkWorld (cwd w) (files w) t)
        end
    end.
Proof.
  unfold download_urls. cbn [for_each].
  destruct (after_last_slash url) as [name|]; [|done].
  unfold bind, compat_print, emit, urlretrieve. simpl.
  destruct (url_body sys url); simpl; by rewrite <-app_assoc.
Qed.

Lemma download_urls_good urls target_dir filename_prefix w :
  Forall (good_url sys) urls →
  ∃ names new,
    names_of urls names ∧
    (download_urls sys urls target_dir filename_prefix w).1 = Ok () ∧
    cwd (download_urls sys urls target_dir filename_prefix w).2 = cwd w ∧
    trace (download_urls sys urls target_dir filename_prefix w).2
    = trace w ++ new ∧
    retrieved_of new
    = zip_with (λ url name,
        (url, resolve w (os_path_join target_dir
                           (filename_prefix +:+ "-" +:+ name)))) urls names.
Proof.
  revert w. induction urls as [|url urls IH]; intros w Hgood.
  - exists [], []. split_and!; try done; [constructor|].
    simpl. by rewrite app_nil_r.
  - apply Forall_cons in Hgood as [[Hslash [body Hbody]] Hgood].
    destruct (after_last_slash url) as [name|] eqn:Hname;
      [|by apply after_last_slash_None in Hname].
    rewrite download_urls_cons, Hname, Hbody. cbn zeta.
    set (w1 := mkWorld _ _ _).
    destruct (IH w1 Hgood) as (names & new & Hnames & Hok & Hcwd & Htrace & Hret).
    exists (name :: names). eexists. split_and!; [|done|done| |].
    + constructor; [|done]. by apply after_last_slash_Some.
    + rewrite Htrace. unfold w1. simpl. by rewrite <-app_assoc.
    + rewrite retrieved_of_app, Hret. simpl. done.
Qed.

Lemma download_urls_app pre post target_dir filename_prefix w :
  download_urls sys (pre ++ post) target_dir filename_prefix w =
    match download_urls sys pre target_dir filename_prefix w with
    | (Ok _, w1) => download_urls sys post target_dir filename_prefix w1
    | (Raise e, w1) => (Raise e, w1)
    end.
Proof. apply for_each_app. Qed.

Lemma emits_download_unit kinds unit args target_dir filename_prefix headers :
  KPrinted ∈ kinds → KNetFetch ∈ kinds → KFileWrite ∈ kinds →
  (if prefer_cdn_videos args then KUrlRetrieve else KExec) ∈ kinds →
  emits_only kinds
    (download_unit sys unit args target_dir filename_prefix headers).
Proof.
  intros ??? Hmode. unfold download_unit. apply emits_bind.
  - destruct (prefer_cdn_videos args).
    + apply emits_bind; [by apply emits_download_urls|]. intros.
      by apply emits_download_urls.
    + unfold _download_video_youtube.
      destruct (video_youtube_url unit); [|apply emits_ret].
      by apply emits_run_command.
  - intros. destruct (subtitles args); [|apply emits_ret].
    by apply emits_download_subtitles.
Qed.

Lemma emits_download kinds args selections all_units headers :
  KPrinted ∈ kinds → KNetFetch ∈ kinds → KFileWrite ∈ kinds →
  KMkdir ∈ kinds →
  (if prefer_cdn_videos args then KUrlRetrieve else KExec) ∈ kinds →
  emits_only kinds (download sys args selections all_units headers).
Proof.
  intros. unfold download.
  apply emits_bind; [by apply emits_print|]. intros.
  apply emits_for_each. intros [course sections].
  apply emits_for_each. intros section.
  apply emits_bind; [by apply emits_emit|]. intros.
  apply emits_for_each. intros [counter unit].
  by apply emits_download_unit.
Qed.

(** *** Runs that retrieve every url *)





End WithEnv.

End DownloadFacts.

(** * Dictionaries built from pairs *)

Module DictMore.
Import CacheFacts.

Section Facts.
Context {V : Type}.
Implicit Types (d : dict V) (pairs : list (string * V)).

Lemma elem_of_keys_set d k v k' :
  k' ∈ keys (set d k v) ↔ k' = k ∨ k' ∈ keys d.
Proof.
  rewrite keys_set. unfold mem. case_bool_decide as Hin.
  - split; [auto|]. by intros [->|?].
  - rewrite elem_of_app, list_elem_of_singleton. tauto.
Qed.

Lemma fold_set_keys pairs d k :
  k ∈ keys (fold_left (λ acc kv, set acc kv.1 kv.2) pairs d)
  ↔ k ∈ keys d ∨ k ∈ pairs.*1.
Proof.
  revert d. induction pairs as [|[k1 v1] pairs IH]; intros d; simpl.
  - rewrite elem_of_nil. tauto.
  - rewrite IH, elem_of_keys_set, elem_of_cons. tauto.
Qed.

Lemma fold_set_get pairs d k v :
  get (fold_left (λ acc kv, set acc kv.1 kv.2) pairs d) k = Some v →
  get d k = Some v ∨ (k, v) ∈ pairs.
Proof.
  revert d. induction pairs as [|[k1 v1] pairs IH]; intros d; simpl; [auto|].
  intros [Hd|Hin]%IH.
  - rewrite get_set in Hd. case_decide; [|auto].
    simplify_eq. right. apply elem_of_cons. by left.
  - right. apply elem_of_cons. by right.
Qed.

Lemma of_pairs_keys pairs k : k ∈ keys (of_pairs pairs) ↔ k ∈ pairs.*1.
Proof.
  unfold of_pairs. rewrite fold_set_keys. unfold empty, keys. simpl.
  rewrite elem_of_nil. tauto.
Qed.

Lemma of_pairs_get pairs k v : get (of_pairs pairs) k = Some v → (k, v) ∈ pairs.
Proof. unfold of_pairs. by intros [?|?]%fold_set_get. Qed.

Lemma update_keys d other k :
  k ∈ keys (update d other) ↔ k ∈ keys d ∨ k ∈ keys other.
Proof. unfold update, items. apply fold_set_keys. Qed.

Lemma get_is_Some d k : is_Some (get d k) ↔ k ∈ keys d.
Proof.
  rewrite <-not_eq_None_Some, get_None.
  destruct (decide (k ∈ keys d)); tauto.
Qed.

End Facts.

Lemma fst_zip_same_length {A B} (l : list A) (k : list B) :
  length l = length k → (zip l k).*1 = l.
Proof. intros. apply fst_zip. lia. Qed.

End DictMore.

(** * More on extraction and the cache *)

Module CacheMore.
Import Cache Pipeline EffectSpec MoreSpec CacheFacts DictMore DownloadFacts.

Lemma bind_Ok_inv {A B} (m : M A) (k : A → M B) w b :
  (bind m k w).1 = Ok b →
  ∃ a w1, m w = (Ok a, w1) ∧ bind m k w = k a w1.
Proof.
  unfold bind. destruct (m w) as [[a|e] w1]; [|done]. intros _.
  by exists a, w1.
Qed.

(** Mapping a function that can fail over a list, when it does not. *)
Lemma map_M_lift_ok {A B C} (f : A → result B) (g : A → B → C) l w :
  (∀ x, x ∈ l → ∃ y, f x = Ok y) →
  ∃ ys, map_M (λ x, bind (lift (f x)) (λ y, ret (g x y))) l w = (Ok ys, w) ∧
        Forall2 (λ x c, ∃ y, f x = Ok y ∧ c = g x y) l ys.
Proof.
  induction l as [|x l IH]; intros Hok.
  - exists []. split; [done|constructor].
  - destruct (Hok x) as [y Hy]; [apply elem_of_cons; by left|].
    destruct IH as (ys & Hrun & Hys).
    { intros ??. apply Hok. apply elem_of_cons. by right. }
    exists (g x y :: ys). split.
    + assert (bind (lift (f x)) (λ y, ret (g x y)) w = (Ok (g x y), w)) as Hx
        by (unfold bind, lift, ret; by rewrite Hy).
      cbn [map_M]. rewrite (bind_run _ _ _ _ _ Hx).
      by rewrite (bind_run _ _ _ _ _ Hrun).
    + constructor; [by exists y|done].
Qed.

Section WithEnv.
Context (sys : env).

(** A successful extraction maps every url to the units of its page. *)
Lemma extract_all_units_inv urls headers w all_units w' :
  extract_all_units sys urls headers w = (Ok all_units, w') →
  cwd w' = cwd w ∧ files w' = files w ∧
  (∃ new, trace w' = trace w ++ new ∧ fetches_of new ≡ₚ urls) ∧
  wf all_units ∧
  (∀ url, url ∈ keys all_units ↔ url ∈ urls) ∧
  (∀ url us, get all_units url = Some us →
             page_units sys url headers = Ok us).
Proof.
  intros Hrun.
  destruct (ExtractFacts.extract_all_units_run sys urls headers w)
    as (new & Hw & _ & _ & Hok & _).
  rewrite Hrun in Hw, Hok. simpl in Hw, Hok. subst w'.
  destruct (Hok all_units eq_refl) as (Hfetch & units & Hpages & ->).
  split_and!; try done.
  - by exists new.
  - apply of_pairs_wf.
  - intros url. rewrite of_pairs_keys, fst_zip_same_length; [done|].
    by eapply Forall2_length.
  - intros url us Hin%of_pairs_get.
    apply list_elem_of_lookup in Hin as [i Hi].
    apply lookup_zip_with_Some in Hi as (x & y & Heq & Hx & Hy).
    injection Heq as -> ->.
    by apply (Forall2_lookup_lr _ _ _ i x y Hpages).
Qed.

Lemma quiet_extract_all_units urls headers :
  quiet (extract_all_units sys urls headers).
Proof.
  intros w.
  destruct (ExtractFacts.extract_all_units_run sys urls headers w)
    as (new & -> & Hkinds & _).
  simpl. split_and!; [done..|]. exists new. split; [done|].
  by apply ExtractFacts.print_or_fetch_no_write.
Qed.

Lemma extract_with_cache_inv filename all_urls headers w all_units w' :
  extract_all_units_with_cache sys filename all_urls headers w
  = (Ok all_units, w') →
  cwd w' = cwd w ∧ files w' = files w ∧
  ∀ url, url ∈ all_urls → url ∈ keys all_units.
Proof.
  unfold extract_all_units_with_cache. intros Hrun.
  assert (∃ cached, bind (os_path_exists filename)
            (λ file_exists, if file_exists : bool then pickle_load filename
                            else ret empty) w = (Ok cached, w))
    as [cached Hload].
  { destruct (files w !! resolve w filename) as [[units|body]|] eqn:Hf.
    - exists units. apply load_cache_run. by right.
    - exfalso. revert Hrun. unfold bind at 1, os_path_exists.
      rewrite Hf, bool_decide_eq_true_2 by eauto.
      unfold bind at 1, pickle_load. by rewrite Hf.
    - exists empty. apply load_cache_run. by left. }
  rewrite bind_assoc, (bind_run _ _ _ _ _ Hload) in Hrun.
  unfold bind at 1, compat_print, emit in Hrun.
  set (w1 := mkWorld _ _ _) in Hrun.
  set (new_urls := filter _ all_urls) in Hrun.
  unfold bind, ret in Hrun.
  destruct (extract_all_units sys new_urls headers w1) as [[new_units|e] w2]
    eqn:Hextract; [|done].
  injection Hrun as <- <-.
  apply extract_all_units_inv in Hextract
    as (Hcwd & Hfiles & _ & _ & Hkeys & _).
  split_and!; [done..|].
  intros url Hurl. apply update_keys.
  destruct (decide (url ∈ keys cached)); [by left|right].
  apply Hkeys. by apply list_elem_of_filter.
Qed.

(** A run that finds every url in the cache. *)
Lemma cache_hit_run filename all_urls headers w cached_units :
  files w !! resolve w filename = Some (Pickled cached_units) →
  (∀ url, url ∈ all_urls → url ∈ keys cached_units) →
  extract_all_units_with_cache sys filename all_urls headers w
  = (Ok cached_units,
     add_events w
       [Printed ("loading " +:+ pretty (length (keys cached_units))
                 +:+ " urls from cache [" +:+ filename +:+ "]")]).
Proof.
  intros Hcache Hall. unfold extract_all_units_with_cache.
  rewrite bind_assoc.
  rewrite (bind_run _ _ _ _ _
             (load_cache_run filename w cached_units (or_intror Hcache))).
  assert (filter (λ url, url ∉ keys cached_units) all_urls = []) as ->.
  { induction all_urls as [|url urls IH]; [done|].
    rewrite filter_cons_False.
    - apply IH. intros ??. apply Hall. apply elem_of_cons. by right.
    - intros Hnot. apply Hnot, Hall. apply elem_of_cons. by left. }
  unfold bind, compat_print, emit, extract_all_units, Pool.pool_map, ret,
    add_events.
  simpl. by rewrite app_nil_r.
Qed.

End WithEnv.

End CacheMore.

(** * Formatting *)

Module FormatFacts.




(** ** The characters of a prefix *)

Import MoreSpec.












End FormatFacts.

(** * Choosing sections *)

Module SelectionFacts.
Import Selection.

Lemma filter_sections_ok (py_int : string → option Z)
    (index : option string) (sections : list Section_) :
  ∃ chosen,
    _filter_sections py_int index sections = Ok chosen ∧
    sublist chosen sections ∧
    (sections ≠ [] → chosen ≠ []) ∧
    match index ≫= py_int with
    | Some i =>
        if decide (0 < i ≤ Z.of_nat (length sections))%Z
        then ∃ section, sections !! Z.to_nat (i - 1) = Some section ∧
                        chosen = [section]
        else chosen = sections
    | None => chosen = sections
    end.
Proof.
  unfold _filter_sections.
  destruct index as [index|]; simpl; [|by exists sections].
  destruct (py_int index) as [i|]; [|by exists sections].
  destruct (decide (0 < i ≤ Z.of_nat (length sections))%Z) as [Hin|Hout].
  - rewrite decide_True by lia.
    destruct (lookup_lt_is_Some_2 sections (Z.to_nat (i - 1))) as [section Hs];
      [lia|].
    rewrite Hs. exists [section]. split_and!; [done| |done|by exists section].
    rewrite <-(take_drop_middle _ _ _ Hs).
    apply sublist_inserts_l, sublist_skip, sublist_nil_l.
  - rewrite decide_False by lia. by exists sections.
Qed.

End SelectionFacts.

(** * Properties of [remove_repeated_urls] *)

Module DedupProps.
Import Dedup DedupSpec DedupFacts Samples.

Example remove_repeated_two_subsections :
  remove_repeated_urls two_subsections
  = [("/s1", [unit_mp4 ["http://x/a.mp4"]]); ("/s2", [])].
Proof. vm_compute. reflexivity. Qed.

Example remove_repeated_course_units :
  remove_repeated_urls course_units
  = [("/s1", [lecture;
              mkUnit None (Some "/subs/v1") (Some "/subs/v1/%s")
                ["http://x/b.mp4"] []]);
     ("/s2", []);
     ("/s3", [])].
Proof. vm_compute. reflexivity. Qed.

(** C2.  After deduplication no url occurs twice: over the whole
    filtered map, the youtube urls, the [mp4_urls] entries and the
    [resources_urls] entries taken together are pairwise distinct. *)
Theorem dedup_uniqueness (all_units : all_units_map) :
  wf all_units →
  NoDup (all_resource_urls (remove_repeated_urls all_units)).
Proof.
  intros Hwf. rewrite remove_repeated_urls_items by done.
  by destruct (pass_reduce_items ∅ all_units) as (_ & Hnd & _).
Qed.

Lemma dedup_uniqueness_witness :
  wf course_units ∧
  NoDup (all_resource_urls (remove_repeated_urls course_units)).
Proof.
  assert (wf course_units) as Hwf by (unfold wf; compute_done).
  split; [exact Hwf|]. apply (dedup_uniqueness course_units Hwf).
Defined.

(** C3.  First occurrence wins.  Let [unit] be the first unit, in the
    order of traversal (subsections in the order of the map, units in
    the order of their list), that carries the url [u]: it is the unit
    at index [i] of subsection [url], no subsection before it and no
    unit before it in its subsection carries [u].  Then the unit built
    from it retains [u], and no other unit of the output carries [u]:
    not the later units of the same subsection, and no unit of any
    other subsection. *)
Theorem first_occurrence_wins
    (m1 m2 : all_units_map) (url : string) (units : list Unit)
    (i : nat) (unit : Unit) (u : string) :
  wf (m1 ++ (url, units) :: m2) →
  units !! i = Some unit →
  u ∈ unit_urls unit →
  u ∉ all_resource_urls m1 →
  u ∉ units_urls (take i units) →
  let filtered_units := remove_repeated_urls (m1 ++ (url, units) :: m2) in
  ∃ (units' : list Unit) (unit' : Unit),
    Forall2 reduced_from units units' ∧
    get filtered_units url = Some (filter (λ r, ¬ is_empty r) units') ∧
    units' !! i = Some unit' ∧
    u ∈ unit_urls unit' ∧
    (∀ j r, j ≠ i → units' !! j = Some r → u ∉ unit_urls r) ∧
    (∀ url2 units2, url2 ≠ url → get filtered_units url2 = Some units2 →
                    u ∉ units_urls units2).
Proof.
  intros Hwf Hi Hu Hm1 Hpre filtered_units.
  set (E1 := (reduce_items ∅ m1).2).
  destruct (pass_reduce_items ∅ m1) as (Hset1 & _ & Hout1). fold E1 in Hset1.
  assert (Some u ∉ E1) as HE1.
  { rewrite Hset1. intros [Hin|Hin]; [by apply not_elem_of_empty in Hin|done]. }
  pose proof (take_drop_middle _ _ _ Hi) as Hsplit.
  set (pre := take i units) in *. set (post := drop (S i) units) in *.
  assert (length pre = i) as Hlen.
  { subst pre. rewrite length_take. apply lookup_lt_Some in Hi. lia. }
  set (Epre := (reduce_units E1 pre).2).
  destruct (pass_reduce_units E1 pre) as (Hsetpre & _ & _). fold Epre in Hsetpre.
  assert (Some u ∉ Epre) as HEpre.
  { rewrite Hsetpre. by intros [?|?]. }
  destruct (pass_dedup_fields Epre unit) as (Hsetu & _ & Houtu).
  set (Eunit := (dedup_fields Epre unit).2) in *.
  assert (Some u ∈ Eunit) as HEunit by (apply Hsetu; by right).
  assert (images E1 units
          = images E1 pre ++ image Epre unit :: images Eunit post) as Himg.
  { rewrite <-Hsplit at 1. rewrite images_app. by fold Epre. }
  exists (images E1 units), (image Epre unit). split_and!.
  - apply images_reduced_from.
  - subst filtered_units. rewrite remove_repeated_urls_get by done.
    by rewrite reduce_units_images.
  - rewrite Himg, lookup_app_r; rewrite images_length, Hlen; [|done].
    by rewrite Nat.sub_diag.
  - apply Houtu. done.
  - intros j r Hj Hr. rewrite Himg in Hr. intros Hur.
    destruct (decide (j < i)) as [Hlt|Hge].
    + rewrite lookup_app_l in Hr by (rewrite images_length; lia).
      apply list_elem_of_lookup_2 in Hr.
      by destruct (elem_of_images _ _ _ _ Hr Hur).
    + rewrite lookup_app_r in Hr by (rewrite images_length; lia).
      rewrite images_length, Hlen in Hr.
      destruct (j - i) as [|n] eqn:Hji; [lia|]. simpl in Hr.
      apply list_elem_of_lookup_2 in Hr.
      by destruct (elem_of_images _ _ _ _ Hr Hur).
  - intros url2 units2 Hne Hget Hu2. apply get_Some_elem_of in Hget.
    subst filtered_units. rewrite remove_repeated_urls_split in Hget by done.
    fold E1 in Hget.
    apply elem_of_app in Hget as [Hin|Hin].
    + apply Hm1. apply Hout1. eapply elem_of_all_resource_urls; eauto.
    + apply elem_of_cons in Hin as [[=]|Hin]; [done|].
      destruct (pass_reduce_items (reduce_units E1 units).2 m2)
        as (_ & _ & Hout2).
      pose proof (elem_of_all_resource_urls _ _ _ _ Hin Hu2) as Hall.
      apply Hout2 in Hall as [_ Hnew]. apply Hnew.
      destruct (pass_reduce_units Eunit post) as (Hsetpost & _ & _).
      rewrite <-Hsplit, reduce_units_app. simpl. fold Epre.
      rewrite reduce_units_cons. simpl. rewrite reduce_unit_set.
      apply Hsetpost. by left.
Qed.

Lemma first_occurrence_wins_witness :
  ∃ (units' : list Unit) (unit' : Unit),
    Forall2 reduced_from [unit_mp4 ["http://x/a.mp4"]] units' ∧
    get (remove_repeated_urls two_subsections) "/s1"
      = Some (filter (λ r, ¬ is_empty r) units') ∧
    units' !! 0 = Some unit' ∧
    "http://x/a.mp4" ∈ unit_urls unit' ∧
    (∀ j r, j ≠ 0 → units' !! j = Some r → "http://x/a.mp4" ∉ unit_urls r) ∧
    (∀ url2 units2, url2 ≠ "/s1" →
       get (remove_repeated_urls two_subsections) url2 = Some units2 →
       "http://x/a.mp4" ∉ units_urls units2).
Proof.
  apply (first_occurrence_wins [] [("/s2", [unit_mp4 ["http://x/a.mp4"]])]
           "/s1" [unit_mp4 ["http://x/a.mp4"]] 0
           (unit_mp4 ["http://x/a.mp4"]) "http://x/a.mp4").
  - unfold wf. compute_done.
  - reflexivity.
  - compute_done.
  - compute_done.
  - compute_done.
Defined.

(** C7.  The list of a subsection in the output, from its list in the
    input.  Each unit is replaced by [deduplicated seen unit], where
    [seen] are the urls of the subsections before it and of the units
    before it in its subsection: the [available_subs_url] and the
    [sub_template_url] of this unit are those of the unit it comes from,
    whatever was seen, and its other fields keep the urls that were not
    seen before and no other.  Then the units left with no youtube url,
    no mp4 url and no resource url are dropped, and only these: the
    others stay, in their order. *)
Theorem subtitles_kept_and_drop_rule
    (m1 m2 : all_units_map) (url : string) (units : list Unit) :
  wf (m1 ++ (url, units) :: m2) →
  let units' :=
    imap (λ i unit,
            deduplicated (all_resource_urls m1 ++ units_urls (take i units))
              unit) units in
  Forall2 reduced_from units units' ∧
  Forall2 (λ unit unit',
             available_subs_url unit' = available_subs_url unit ∧
             sub_template_url unit' = sub_template_url unit) units units' ∧
  get (remove_repeated_urls (m1 ++ (url, units) :: m2)) url
  = Some (filter (λ r, ¬ (video_youtube_url r = None ∧ mp4_urls r = []
                           ∧ resources_urls r = [])) units').
Proof.
  intros Hwf units'.
  assert (units' = images (reduce_items ∅ m1).2 units) as ->.
  { symmetry. apply images_deduplicated, stands_for_reduce_items. }
  split_and!.
  - apply images_reduced_from.
  - eapply Forall2_impl; [apply images_reduced_from|].
    by intros unit unit' (? & ? & _).
  - rewrite remove_repeated_urls_get by done.
    by rewrite reduce_units_images.
Qed.

Lemma subtitles_kept_and_drop_rule_witness :
  get (remove_repeated_urls [("/s1", [lecture; lecture; lecture_again])]) "/s1"
  = Some [lecture;
          mkUnit None (Some "/subs/v1") (Some "/subs/v1/%s")
            ["http://x/b.mp4"] []].
Proof.
  destruct (subtitles_kept_and_drop_rule [] [] "/s1"
              [lecture; lecture; lecture_again]) as (_ & _ & Hget).
  - unfold wf. compute_done.
  - etransitivity; [exact Hget|]. vm_compute. reflexivity.
Defined.

(** C10.  The output has the keys of the input, in the same order.  A
    subsection stays in the map when nothing of it is left: if every url
    of its units is carried by a unit of an earlier subsection, so that
    all its units are dropped, its key is mapped to the empty list. *)
Theorem dedup_preserves_keys (all_units : all_units_map) :
  wf all_units →
  keys (remove_repeated_urls all_units) = keys all_units ∧
  ∀ m1 url units m2,
    all_units = m1 ++ (url, units) :: m2 →
    (∀ u, u ∈ units_urls units → u ∈ all_resource_urls m1) →
    get (remove_repeated_urls all_units) url = Some [].
Proof.
  intros Hwf. split; [by apply remove_repeated_urls_keys|].
  intros m1 url units m2 -> Hclaimed.
  rewrite remove_repeated_urls_get by done. f_equal.
  set (E1 := (reduce_items ∅ m1).2).
  destruct (pass_reduce_items ∅ m1) as (Hset1 & _ & _). fold E1 in Hset1.
  rewrite reduce_units_images.
  destruct (filter _ _) as [|unit' rest] eqn:Hfilter; [done|]. exfalso.
  assert (unit' ∈ filter (λ r, ¬ is_empty r) (images E1 units)) as Hin
    by (rewrite Hfilter; apply elem_of_cons; by left).
  apply list_elem_of_filter in Hin as [Hnonempty Hin].
  apply Hnonempty. clear Hnonempty Hfilter.
  assert (∀ u, u ∉ unit_urls unit') as Hnone.
  { intros u Hu. destruct (elem_of_images _ _ _ _ Hin Hu) as [Hsrc Hnew].
    apply Hnew, Hset1. right. by apply Hclaimed. }
  unfold is_empty, unit_urls in *.
  destruct (video_youtube_url unit') as [v|].
  { destruct (Hnone v). simpl. apply elem_of_cons. by left. }
  destruct (mp4_urls unit') as [|x ?].
  2:{ destruct (Hnone x). simpl. apply elem_of_cons. by left. }
  destruct (resources_urls unit') as [|x ?]; [done|].
  destruct (Hnone x). simpl. apply elem_of_cons. by left.
Qed.

Lemma dedup_preserves_keys_witness :
  keys (remove_repeated_urls two_subsections) = ["/s1"; "/s2"] ∧
  get (remove_repeated_urls two_subsections) "/s2" = Some [].
Proof.
  assert (wf two_subsections) as Hwf by (unfold wf; compute_done).
  destruct (dedup_preserves_keys two_subsections Hwf) as [Hkeys Hempty].
  split; [exact Hkeys|].
  apply (Hempty [("/s1", [unit_mp4 ["http://x/a.mp4"]])] "/s2"
           [unit_mp4 ["http://x/a.mp4"]] []); [reflexivity|].
  intros u Hu. exact Hu.
Defined.

(** C4.  The count of a map is the sum, over all its units, of one for
    each of [video_youtube_url], [available_subs_url] and
    [sub_template_url] that is set, plus the lengths of [mp4_urls] and
    [resources_urls].  The count of the filtered map is at most that of
    the input, and the difference is the number of fields and entries
    that [remove_repeated_urls] removed: the urls it found in the set of
    seen urls, and the subtitle fields of the units it dropped. *)
Theorem count_conservation (all_units : all_units_map) :
  wf all_units →
  let count unit :=
    (if video_youtube_url unit is Some _ then 1 else 0)
    + (if available_subs_url unit is Some _ then 1 else 0)
    + (if sub_template_url unit is Some _ then 1 else 0)
    + length (mp4_urls unit) + length (resources_urls unit) in
  let filtered_units := remove_repeated_urls all_units in
  let total_before := num_urls_in_units_dict all_units in
  let total_after := num_urls_in_units_dict filtered_units in
  total_before = sum_list_with count (mjoin (values all_units)) ∧
  total_after = sum_list_with count (mjoin (values filtered_units)) ∧
  total_after ≤ total_before ∧
  total_before - total_after = num_removed all_units.
Proof.
  intros Hwf count filtered_units total_before total_after.
  subst total_before total_after filtered_units.
  pose proof (items_count_conserved ∅ all_units) as Hcount.
  rewrite <-remove_repeated_urls_items in Hcount by done.
  unfold num_removed, items.
  split_and!; [apply num_urls_sum|apply num_urls_sum|lia|lia].
Qed.

Lemma count_conservation_witness :
  num_urls_in_units_dict course_units = 15 ∧
  num_urls_in_units_dict (remove_repeated_urls course_units) = 8 ∧
  num_removed course_units = 7.
Proof.
  assert (wf course_units) as Hwf by (unfold wf; compute_done).
  destruct (count_conservation course_units Hwf) as (_ & _ & _ & Hdiff).
  split_and!; [vm_compute; reflexivity|vm_compute; reflexivity|].
  rewrite <-Hdiff. vm_compute. reflexivity.
Defined.

End DedupProps.

(** * Properties of [extract_all_units_with_cache] *)

Module CacheProps.
Import Cache CacheFacts Samples.

(** C5.  Let [cached_units] be the map the cache file holds, or the
    empty map when there is no such file, and [new_urls] the urls of
    [all_urls] that are not keys of [cached_units], in their order in
    [all_urls].  A run of [extract_all_units_with_cache] leaves the
    files alone and fetches pages of [new_urls] only, none more often
    than it is listed.  The run returns when every page of [new_urls]
    can be extracted, and a run that returns has fetched every url of
    [new_urls], in the order the threads of the pool happen to take,
    and gives [cached_units] updated with the map of the new pages: a
    key of the new map has its new value, any other key the cached
    one. *)
Theorem cache_reconciler (sys : env) (filename : string)
    (all_urls : list string) (headers : headers_t) (w : world)
    (cached_units : all_units_map) :
  (files w !! resolve w filename = None ∧ cached_units = empty) ∨
  files w !! resolve w filename = Some (Pickled cached_units) →
  let new_urls := filter (λ url, url ∉ keys cached_units) all_urls in
  let '(r, w') := extract_all_units_with_cache sys filename all_urls headers w in
  ∃ new,
    w' = mkWorld (cwd w) (files w) (trace w ++ new) ∧
    fetches_of new ⊆+ new_urls ∧
    ((∀ url, url ∈ new_urls → ∃ us, page_units sys url headers = Ok us) →
     ∃ all_units, r = Ok all_units) ∧
    ∀ all_units, r = Ok all_units →
      fetches_of new ≡ₚ new_urls ∧
      ∃ units,
        Forall2 (λ url us, page_units sys url headers = Ok us) new_urls units ∧
        let new_units := of_pairs (zip new_urls units) in
        all_units = update cached_units new_units ∧
        ∀ url, get all_units url =
                 match get new_units url with
                 | Some us => Some us
                 | None => get cached_units url
                 end.
Proof.
  intros Hcache new_urls.
  unfold extract_all_units_with_cache.
  rewrite bind_assoc.
  rewrite (bind_run _ _ _ _ _ (load_cache_run filename w cached_units Hcache)).
  fold new_urls. unfold bind at 1, compat_print, emit.
  set (msg := Printed _). set (w1 := mkWorld _ _ _).
  unfold bind at 1.
  destruct (ExtractFacts.extract_all_units_run sys new_urls headers w1)
    as (new & Hw & _ & Hsub & Hok & Htotal).
  destruct (extract_all_units sys new_urls headers w1) as [[new_units|e] w2];
    simpl in Hw, Hok, Htotal; subst w2; exists (msg :: new); simpl.
  - split_and!.
    + by rewrite <-app_assoc.
    + done.
    + intros _. by eexists.
    + intros all_units [= <-].
      destruct (Hok new_units eq_refl) as (Hfetch & units & Hunits & ->).
      split; [done|]. exists units. split_and!; [done..|].
      intros url. rewrite get_update.
      by rewrite of_pairs_wf_id by apply of_pairs_wf.
  - split_and!.
    + by rewrite <-app_assoc.
    + done.
    + intros Hpages. by destruct (Htotal Hpages).
    + done.
Qed.

Lemma cache_reconciler_witness :
  let sys := site two_subsections in
  let new_urls := ["/s1"; "/s2"] in
  let '(r, w') :=
    extract_all_units_with_cache sys ".edx-dl.cache" ["/s1"; "/s2"]
      no_headers fresh_world in
  ∃ new,
    w' = mkWorld "/home/user" ∅ ([] ++ new) ∧
    fetches_of new ⊆+ new_urls ∧
    ((∀ url, url ∈ new_urls → ∃ us, page_units sys url no_headers = Ok us) →
     ∃ all_units, r = Ok all_units) ∧
    ∀ all_units, r = Ok all_units →
      fetches_of new ≡ₚ new_urls ∧
      ∃ units,
        Forall2 (λ url us, page_units sys url no_headers = Ok us) new_urls units ∧
        let new_units := of_pairs (zip new_urls units) in
        all_units = update empty new_units ∧
        ∀ url, get all_units url =
                 match get new_units url with
                 | Some us => Some us
                 | None => get empty url
                 end.
Proof.
  apply (cache_reconciler (site two_subsections) ".edx-dl.cache"
           ["/s1"; "/s2"] no_headers fresh_world empty).
  left. split; reflexivity.
Defined.

(** With no cache file and pages that can be extracted, the run returns
    the map of the pages. *)
Example cache_missing_returns (sys : env) (all_urls : list string)
    (headers : headers_t) (w : world) (filename : string) :
  files w !! resolve w filename = None →
  (∀ url, url ∈ all_urls → ∃ us, page_units sys url headers = Ok us) →
  ∃ units,
    (extract_all_units_with_cache sys filename all_urls headers w).1
    = Ok (of_pairs (zip all_urls units)) ∧
    Forall2 (λ url us, page_units sys url headers = Ok us) all_urls units.
Proof.
  intros Hnone Hpages.
  assert (filter (λ url, url ∉ keys (empty : all_units_map)) all_urls
          = all_urls) as Hall.
  { induction all_urls as [|url urls IH]; [done|].
    rewrite filter_cons_True by (by intros ?%elem_of_nil). f_equal.
    apply IH. intros ??. apply Hpages. apply elem_of_cons. by right. }
  unfold extract_all_units_with_cache.
  rewrite bind_assoc.
  rewrite (bind_run _ _ _ _ _
             (load_cache_run filename w empty (or_introl (conj Hnone eq_refl)))).
  rewrite Hall. unfold bind at 1, compat_print, emit.
  set (w1 := mkWorld _ _ _). unfold bind at 1.
  destruct (ExtractFacts.extract_all_units_run sys all_urls headers w1)
    as (new & _ & _ & _ & Hok & Htotal).
  destruct (Htotal Hpages) as [new_units Hrun].
  destruct (Hok new_units Hrun) as (_ & units & Hunits & ->).
  destruct (extract_all_units sys all_urls headers w1) as [r w2].
  simpl in Hrun. subst r. exists units. simpl. split; [|done].
  f_equal. unfold update, items. fold (of_pairs (of_pairs (zip all_urls units))).
  by rewrite of_pairs_wf_id by apply of_pairs_wf.
Qed.

Example cache_reconciler_run :
  extract_all_units_with_cache (site course_units) ".edx-dl.cache"
    ["/s1"; "/s2"; "/s3"] no_headers
    (cached_world [("/s1", [lecture_again])])
  = (Ok [("/s1", [lecture_again]); ("/s2", [lecture]); ("/s3", [])],
     mkWorld "/home/user"
       {[ "/home/user/.edx-dl.cache" := Pickled [("/s1", [lecture_again])] ]}
       [Printed "loading 1 urls from cache [.edx-dl.cache]";
        Printed "Processing '/s2'"; NetFetch "/s2";
        Printed "Processing '/s3'"; NetFetch "/s3"]).
Proof. vm_compute. reflexivity. Qed.

Example cache_missing_run :
  extract_all_units_with_cache (site two_subsections) ".edx-dl.cache"
    ["/s1"; "/s2"] no_headers fresh_world
  = (Ok two_subsections,
     mkWorld "/home/user" ∅
       [Printed "loading 0 urls from cache [.edx-dl.cache]";
        Printed "Processing '/s1'"; NetFetch "/s1";
        Printed "Processing '/s2'"; NetFetch "/s2"]).
Proof. vm_compute. reflexivity. Qed.

(** C6.  When the cache file holds a map that has every requested url
    as a key, [extract_all_units_with_cache] fetches nothing and returns
    the cached map as it is; the files are untouched. *)
Theorem cache_hit_no_fetch (sys : env) (filename : string)
    (all_urls : list string) (headers : headers_t) (w : world)
    (cached_units : all_units_map) :
  files w !! resolve w filename = Some (Pickled cached_units) →
  (∀ url, url ∈ all_urls → url ∈ keys cached_units) →
  ∃ new,
    extract_all_units_with_cache sys filename all_urls headers w
    = (Ok cached_units, mkWorld (cwd w) (files w) (trace w ++ new)) ∧
    fetches_of new = [].
Proof.
  intros Hcache Hall.
  exists [Printed ("loading " +:+ pretty (length (keys cached_units))
                   +:+ " urls from cache [" +:+ filename +:+ "]")].
  split; [|done].
  unfold extract_all_units_with_cache.
  rewrite bind_assoc.
  rewrite (bind_run _ _ _ _ _
             (load_cache_run filename w cached_units (or_intror Hcache))).
  assert (filter (λ url, url ∉ keys cached_units) all_urls = []) as ->.
  { induction all_urls as [|url urls IH]; [done|].
    rewrite filter_cons_False.
    - apply IH. intros ??. apply Hall. apply elem_of_cons. by right.
    - intros Hnot. apply Hnot, Hall. apply elem_of_cons. by left. }
  unfold bind, compat_print, emit, extract_all_units, Pool.pool_map, ret.
  simpl. by rewrite app_nil_r.
Qed.

Lemma cache_hit_no_fetch_witness :
  ∃ new,
    extract_all_units_with_cache (site course_units) ".edx-dl.cache"
      ["/s2"; "/s1"; "/s2"] no_headers (cached_world course_units)
    = (Ok course_units,
       mkWorld "/home/user" (files (cached_world course_units)) ([] ++ new)) ∧
    fetches_of new = [].
Proof.
  apply (cache_hit_no_fetch (site course_units) ".edx-dl.cache"
           ["/s2"; "/s1"; "/s2"] no_headers (cached_world course_units)
           course_units).
  - vm_compute. reflexivity.
  - apply Forall_forall. compute_done.
Defined.

End CacheProps.

(** * Properties of the subtitle download *)

Module SubtitleProps.
Import Download EffectSpec SubtitleFacts Samples.

Example subtitles_twice :
  let run := _download_subtitles (site []) lecture "Downloaded/c/01-w" "01"
               no_headers in
  let w1 := (run fresh_world).2 in
  let w2 := (run w1).2 in
  writes_of (trace w1)
  = ["/home/user/Downloaded/c/01-w/01-video.en.srt";
     "/home/user/Downloaded/c/01-w/01-video.es.srt"] ∧
  writes_of (trace w2) = writes_of (trace w1) ∧
  fetches_of (trace w2) = fetches_of (trace w1) ++ ["/subs/v1"].
Proof. vm_compute. done. Qed.

(** C8.  The loop over the languages writes a subtitle file only when
    its path does not exist.  When the path exists, the body of the loop
    fetches nothing and writes nothing, it only reports the skip.  So
    over two runs of [_download_subtitles] for the same unit, directory
    and prefix, whatever the network answers in each, no path is written
    twice: every file written is the [.srt] file of some language in
    [target_dir], it did not exist when its run began, and the files
    written by the two runs are pairwise distinct. *)
Theorem subtitle_writes_idempotent (sys1 sys2 : env) (unit : Unit)
    (target_dir filename_prefix : string) (headers : headers_t) (w : world) :
  is_absolute (cwd w) = true →
  let w1 := (_download_subtitles sys1 unit target_dir filename_prefix headers w).2 in
  let w2 := (_download_subtitles sys2 unit target_dir filename_prefix headers w1).2 in
  (∀ filename sub_lang sub_url w0,
     let subs_filename :=
       os_path_join target_dir (filename +:+ "." +:+ sub_lang +:+ ".srt") in
     is_Some (files w0 !! resolve w0 subs_filename) →
     download_subtitle sys1 target_dir filename headers (sub_lang, sub_url) w0
     = (Ok (), mkWorld (cwd w0) (files w0)
                 (trace w0 ++ [Printed ("[info] Skipping existing edX subtitle "
                                        +:+ subs_filename)]))) ∧
  ∃ new1 new2,
    trace w1 = trace w ++ new1 ∧
    trace w2 = trace w1 ++ new2 ∧
    NoDup (writes_of new1 ++ writes_of new2) ∧
    (∀ p, p ∈ writes_of new1 →
          files w !! p = None ∧ srt_path target_dir (cwd w) p) ∧
    (∀ p, p ∈ writes_of new2 →
          files w1 !! p = None ∧ srt_path target_dir (cwd w) p).
Proof.
  intros Habs w1 w2. split.
  { intros. by apply download_subtitle_skip. }
  pose proof (careful_download_subtitles sys1 unit target_dir filename_prefix
                headers w Habs) as Hrun1.
  fold w1 in Hrun1.
  assert (cwd w1 = cwd w) as Hcwd by apply Hrun1.
  pose proof (careful_download_subtitles sys2 unit target_dir filename_prefix
                headers w1) as Hrun2.
  rewrite Hcwd in Hrun2. specialize (Hrun2 Habs). fold w2 in Hrun2.
  destruct Hrun1 as (_ & _ & new1 & Htrace1 & Hnd1 & Hnew1).
  destruct Hrun2 as (_ & _ & new2 & Htrace2 & Hnd2 & Hnew2).
  exists new1, new2. split_and!; [done|done| | |].
  - apply NoDup_app. split_and!; [done| |done].
    intros p (_ & [x Hp1] & _)%Hnew1 (Hp2 & _)%Hnew2. congruence.
  - intros p Hp. destruct (Hnew1 p Hp) as (? & _ & ?). done.
  - intros p Hp. destruct (Hnew2 p Hp) as (? & _ & ?). done.
Qed.

Lemma subtitle_writes_idempotent_witness :
  let run := _download_subtitles (site []) lecture "Downloaded/c/01-w" "01"
               no_headers in
  let w1 := (run fresh_world).2 in
  let w2 := (run w1).2 in
  ∃ new1 new2,
    trace w1 = [] ++ new1 ∧
    trace w2 = trace w1 ++ new2 ∧
    NoDup (writes_of new1 ++ writes_of new2).
Proof.
  destruct (subtitle_writes_idempotent (site []) (site []) lecture
              "Downloaded/c/01-w" "01" no_headers fresh_world eq_refl)
    as (_ & new1 & new2 & Htrace1 & Htrace2 & Hnd & _).
  exists new1, new2. split_and!; [exact Htrace1|exact Htrace2|exact Hnd].
Defined.

(** C9, as the code has it.  When both urls are set and the request for
    the list of languages raises [HTTPError], the list is [["en"]]: the
    result is the dictionary with the one key ["en"].  Any other
    exception of that request, such as [URLError] when the server cannot
    be reached or [ValueError] when the body is not JSON, is raised to
    the caller. *)
Theorem languages_default_on_http_error (sys : env)
    (subs_url template : string) (headers : headers_t) (w : world) (e : exn) :
  page_languages sys subs_url headers = Raise e →
  get_subtitles_download_urls sys (Some subs_url) (Some template) headers w
  = (if decide (e = HTTPError) then
       match str_mod sys template "en" with
       | Ok sub_url => Ok [("en", sub_url)]
       | Raise e' => Raise e'
       end
     else Raise e,
     mkWorld (cwd w) (files w) (trace w ++ [NetFetch subs_url])).
Proof.
  intros Hfail.
  unfold get_subtitles_download_urls, bind, try_except, emit, lift, ret.
  simpl. rewrite Hfail.
  destruct (decide (e = HTTPError)) as [->|Hne].
  - simpl. by destruct (str_mod sys template "en").
  - by rewrite bool_decide_eq_false_2.
Qed.

Lemma languages_default_on_http_error_witness :
  get_subtitles_download_urls (site_with (Raise HTTPError) [])
    (Some "/subs/v1") (Some "/subs/v1/%s") no_headers fresh_world
  = (Ok [("en", "/subs/v1/en")],
     mkWorld "/home/user" ∅ [NetFetch "/subs/v1"]).
Proof.
  apply (languages_default_on_http_error (site_with (Raise HTTPError) [])
           "/subs/v1" "/subs/v1/%s" no_headers fresh_world HTTPError).
  reflexivity.
Defined.

(** C9, as stated, fails: not every failure of the request for the list
    of languages gives [["en"]].  When the request raises [URLError],
    [get_subtitles_download_urls] raises it too. *)
Lemma languages_failure_not_always_default :
  ¬ (∀ (sys : env) (subs_url template : string) (headers : headers_t)
       (w : world) (e : exn) (sub_url : string),
       page_languages sys subs_url headers = Raise e →
       str_mod sys template "en" = Ok sub_url →
       (get_subtitles_download_urls sys (Some subs_url) (Some template)
          headers w).1 = Ok [("en", sub_url)]).
Proof.
  intros Hclaim.
  specialize (Hclaim (site_with (Raise URLError) []) "/subs/v1" "/subs/v1/%s"
                no_headers fresh_world URLError "/subs/v1/en"
                eq_refl eq_refl).
  vm_compute in Hclaim. discriminate Hclaim.
Qed.

Example languages_url_error_propagates :
  get_subtitles_download_urls (site_with (Raise URLError) [])
    (Some "/subs/v1") (Some "/subs/v1/%s") no_headers fresh_world
  = (Raise URLError, mkWorld "/home/user" ∅ [NetFetch "/subs/v1"]).
Proof. vm_compute. reflexivity. Qed.

End SubtitleProps.

(** * The map that [main] hands to [download] *)

Module PipelineProps.
Import Dedup Cache Download Pipeline CacheFacts Samples.

(** Without the cache and without [--dry-run], once the units are
    extracted and some section is selected, [main] reports the number
    of duplicates and then runs [download] on [all_units], the map as
    extracted; [filtered_units] is used for the report only. *)
Lemma main_runs_download_on_all_units (sys : env) (args : args_t)
    (selections : selections_t) (headers : headers_t) (w w1 : world)
    (all_units : all_units_map) :
  cache args = false → dry_run args = false →
  0 < length (mjoin selections.*2) →
  extract_all_units sys
    (selected_sections ← selections.*2;
     selected_section ← selected_sections;
     subsection ← subsections selected_section;
     [subsection_url subsection]) headers w = (Ok all_units, w1) →
  main_from_selections sys args selections headers w
  = download sys args selections all_units headers
      (mkWorld (cwd w1) (files w1)
         (trace w1 ++
            [Printed ("Removed "
               +:+ pretty (num_urls_in_units_dict all_units
                           - num_urls_in_units_dict (remove_repeated_urls all_units))
               +:+ " duplicated urls from "
               +:+ pretty (num_urls_in_units_dict all_units)
               +:+ " in total")])).
Proof.
  intros Hcache Hdry Hsel Hextract.
  unfold main_from_selections. rewrite Hcache, Hdry. simpl.
  rewrite (bind_run _ _ _ _ _ Hextract).
  unfold parse_units.
  assert ((units ← selections.*2; units) = mjoin selections.*2) as ->.
  { generalize (selections.*2). clear. intros l.
    induction l as [|x l IH]; [done|].
    rewrite bind_cons. cbn [mjoin list_join]. by rewrite IH. }
  rewrite decide_False by lia.
  reflexivity.
Qed.

(** C1 fails on the code.  The pages of two subsections carry the same
    mp4 url.  [remove_repeated_urls] drops the second copy and [main]
    reports one duplicate removed, yet the url is retrieved twice:
    [download] was run on the unfiltered map.  On the filtered map it
    retrieves the url once. *)
Theorem main_downloads_unfiltered_units :
  let sys := site two_subsections in
  let run := main_from_selections sys cdn_args week1 no_headers fresh_world in
  remove_repeated_urls two_subsections
  = [("/s1", [unit_mp4 ["http://x/a.mp4"]]); ("/s2", [])] ∧
  run.1 = Ok () ∧
  trace run.2
  = [Printed "Processing '/s1'"; NetFetch "/s1";
     Printed "Processing '/s2'"; NetFetch "/s2";
     Printed "Removed 1 duplicated urls from 2 in total";
     Printed "[info] Output directory: Downloaded";
     Mkdir "Downloaded/CourseA/01-Week 1";
     Printed "[download] Destination: Downloaded/CourseA/01-Week 1/01-a.mp4";
     UrlRetrieve "http://x/a.mp4"
       "/home/user/Downloaded/CourseA/01-Week 1/01-a.mp4";
     Printed "[download] Destination: Downloaded/CourseA/01-Week 1/02-a.mp4";
     UrlRetrieve "http://x/a.mp4"
       "/home/user/Downloaded/CourseA/01-Week 1/02-a.mp4"] ∧
  trace (download sys cdn_args week1 (remove_repeated_urls two_subsections)
           no_headers fresh_world).2
  = [Printed "[info] Output directory: Downloaded";
     Mkdir "Downloaded/CourseA/01-Week 1";
     Printed "[download] Destination: Downloaded/CourseA/01-Week 1/01-a.mp4";
     UrlRetrieve "http://x/a.mp4"
       "/home/user/Downloaded/CourseA/01-Week 1/01-a.mp4"].
Proof. vm_compute. done. Qed.

End PipelineProps.

(** * More on [remove_repeated_urls] *)

Module DedupMore.
Import Dedup DedupSpec DedupFacts DedupFixed Samples.

(** X1.  No url is lost: a url is carried by some unit of the output
    exactly when it is carried by some unit of the input. *)
Theorem dedup_keeps_every_url (all_units : all_units_map) (u : string) :
  wf all_units →
  u ∈ all_resource_urls (remove_repeated_urls all_units)
  ↔ u ∈ all_resource_urls all_units.
Proof.
  intros Hwf. rewrite remove_repeated_urls_items by done.
  destruct (pass_reduce_items ∅ all_units) as (_ & _ & Hout).
  rewrite Hout. split; [by intros [??]|].
  intros Hin. split; [done|]. apply not_elem_of_empty.
Qed.

Lemma dedup_keeps_every_url_witness :
  "http://x/b.mp4" ∈ all_resource_urls (remove_repeated_urls course_units)
  ↔ "http://x/b.mp4" ∈ all_resource_urls course_units.
Proof.
  apply (dedup_keeps_every_url course_units "http://x/b.mp4").
  unfold wf. compute_done.
Defined.

(** X2.  A map in which no url occurs twice and every unit carries a url
    is left as it is. *)
Theorem dedup_fixed_point (all_units : all_units_map) :
  wf all_units →
  NoDup (all_resource_urls all_units) →
  (∀ url units unit,
     (url, units) ∈ all_units → unit ∈ units → ¬ is_empty unit) →
  remove_repeated_urls all_units = all_units.
Proof.
  intros Hwf Hnd Hne. rewrite remove_repeated_urls_items by done.
  apply reduce_items_fresh.
  - split; [done|]. intros ? _. apply not_elem_of_empty.
  - apply Forall_forall. intros [url units] Hin. apply Forall_forall.
    intros unit Hunit. by apply (Hne url units).
Qed.

Lemma dedup_fixed_point_witness :
  remove_repeated_urls [("/s1", [lecture]); ("/s3", [])]
  = [("/s1", [lecture]); ("/s3", [])].
Proof.
  apply (dedup_fixed_point [("/s1", [lecture]); ("/s3", [])]).
  - unfold wf. compute_done.
  - compute_done.
  - intros url units unit Hin Hunit.
    apply elem_of_cons in Hin as [[= -> ->]|Hin].
    + apply list_elem_of_singleton in Hunit as ->. by intros [[=] _].
    + apply list_elem_of_singleton in Hin as [= -> ->].
      by apply elem_of_nil in Hunit.
Defined.

(** X3.  Deduplication is idempotent: a second pass over the filtered map
    changes nothing. *)
Theorem dedup_idempotent (all_units : all_units_map) :
  wf all_units →
  remove_repeated_urls (remove_repeated_urls all_units)
  = remove_repeated_urls all_units.
Proof.
  intros Hwf.
  rewrite (remove_repeated_urls_items (remove_repeated_urls all_units))
    by (by apply remove_repeated_urls_wf).
  apply reduce_items_fresh.
  - split; [|intros ? _; apply not_elem_of_empty].
    rewrite remove_repeated_urls_items by done.
    by destruct (pass_reduce_items ∅ all_units) as (_ & ? & _).
  - rewrite remove_repeated_urls_items by done. apply reduce_items_nonempty.
Qed.

Lemma dedup_idempotent_witness :
  remove_repeated_urls (remove_repeated_urls course_units)
  = remove_repeated_urls course_units.
Proof.
  apply (dedup_idempotent course_units). unfold wf. compute_done.
Defined.

End DedupMore.

(** * More on downloads *)

Module DownloadMore.
Import Cache Download Pipeline EffectSpec MoreSpec.
Import CacheFacts SubtitleFacts EventFacts DownloadFacts Samples.

(** X4.  When every url has a [/] and can be retrieved, [download_urls]
    returns and retrieves the urls in their order, each to
    [target_dir/prefix-name], where [name] is what follows the last [/]
    of the url. *)
Theorem download_urls_in_order (sys : env) (urls : list string)
    (target_dir filename_prefix : string) (w : world) :
  Forall (λ url, has_slash url ∧ ∃ body, url_body sys url = Ok body) urls →
  let run := download_urls sys urls target_dir filename_prefix w in
  ∃ names new,
    Forall2 (λ url name, ∃ dir, url = dir +:+ "/" +:+ name ∧ ¬ has_slash name)
      urls names ∧
    run.1 = Ok () ∧
    trace run.2 = trace w ++ new ∧
    retrieved_of new
    = zip_with (λ url name,
        (url, resolve w (os_path_join target_dir
                           (filename_prefix +:+ "-" +:+ name)))) urls names.
Proof.
  intros Hgood run.
  destruct (download_urls_good sys urls target_dir filename_prefix w Hgood)
    as (names & new & ? & ? & _ & ? & ?).
  by exists names, new.
Qed.

Lemma download_urls_in_order_witness :
  let run := download_urls (site []) ["http://x/a.mp4"; "http://y/dir/b.pdf"]
               "out" "03" fresh_world in
  ∃ names new,
    Forall2 (λ url name, ∃ dir, url = dir +:+ "/" +:+ name ∧ ¬ has_slash name)
      ["http://x/a.mp4"; "http://y/dir/b.pdf"] names ∧
    run.1 = Ok () ∧
    trace run.2 = [] ++ new ∧
    retrieved_of new
    = zip_with (λ url name,
        (url, resolve fresh_world (os_path_join "out" ("03" +:+ "-" +:+ name))))
        ["http://x/a.mp4"; "http://y/dir/b.pdf"] names.
Proof.
  apply (download_urls_in_order (site []) ["http://x/a.mp4"; "http://y/dir/b.pdf"]
           "out" "03" fresh_world).
  repeat constructor; try compute_done; by exists "bytes".
Defined.

Example download_urls_run :
  retrieved_of (trace (download_urls (site [])
                         ["http://x/a.mp4"; "http://y/dir/b.pdf"]
                         "out" "03" fresh_world).2)
  = [("http://x/a.mp4", "/home/user/out/03-a.mp4");
     ("http://y/dir/b.pdf", "/home/user/out/03-b.pdf")].
Proof. vm_compute. reflexivity. Qed.

(** X5.  A url without [/] stops [download_urls] with [IndexError]: the
    urls before it are retrieved, it and the urls after it are not. *)
Theorem download_urls_index_error (sys : env) (pre post : list string)
    (url target_dir filename_prefix : string) (w : world) :
  Forall (λ url, has_slash url ∧ ∃ body, url_body sys url = Ok body) pre →
  ¬ has_slash url →
  let run := download_urls sys (pre ++ url :: post) target_dir filename_prefix w in
  ∃ new,
    run.1 = Raise IndexError ∧
    trace run.2 = trace w ++ new ∧
    (retrieved_of new).*1 = pre.
Proof.
  intros Hpre Hbad run. subst run.
  destruct (download_urls_good sys pre target_dir filename_prefix w Hpre)
    as (names & new & Hnames & Hok & _ & Htrace & Hret).
  exists new. rewrite download_urls_app.
  destruct (download_urls sys pre target_dir filename_prefix w)
    as [[[]|e] w1]; simpl in *; [|done].
  rewrite download_urls_cons.
  apply after_last_slash_None in Hbad. rewrite Hbad. simpl.
  split_and!; [done..|]. rewrite Hret.
  clear -Hnames. induction Hnames; simpl; [done|]. by f_equal.
Qed.

Lemma download_urls_index_error_witness :
  let run := download_urls (site []) (["http://x/a.mp4"] ++ "b.pdf" :: ["http://x/c.mp4"])
               "out" "03" fresh_world in
  ∃ new,
    run.1 = Raise IndexError ∧
    trace run.2 = [] ++ new ∧
    (retrieved_of new).*1 = ["http://x/a.mp4"].
Proof.
  apply (download_urls_index_error (site []) ["http://x/a.mp4"]
           ["http://x/c.mp4"] "b.pdf" "out" "03" fresh_world).
  - repeat constructor; try compute_done. by exists "bytes".
  - compute_done.
Defined.

(** X6.  [download] uses one way of downloading per run.  With
    [--prefer-cdn-videos] it never runs the external command; without it, it
    never retrieves a url itself. *)
Theorem download_one_mechanism (sys : env) (args : args_t)
    (selections : selections_t) (all_units : all_units_map)
    (headers : headers_t) (w : world) :
  ∃ new,
    trace (download sys args selections all_units headers w).2 = trace w ++ new ∧
    if prefer_cdn_videos args
    then Forall (λ ev, ∀ cmd, ev ≠ Exec cmd) new
    else Forall (λ ev, ∀ url path, ev ≠ UrlRetrieve url path) new.
Proof.
  destruct (prefer_cdn_videos args) eqn:Hmode.
  - assert (emits_only [KPrinted; KNetFetch; KFileWrite; KMkdir; KUrlRetrieve]
              (download sys args selections all_units headers)) as Hemits
      by (apply emits_download; rewrite ?Hmode; compute_done).
    destruct (Hemits w) as (new & Htrace & Hkinds).
    exists new. split; [done|]. eapply Forall_impl; [done|].
    intros ev Hev cmd ->. simpl in Hev.
    repeat (apply elem_of_cons in Hev as [Hev|Hev]; [done|]).
    by apply elem_of_nil in Hev.
  - assert (emits_only [KPrinted; KNetFetch; KFileWrite; KMkdir; KExec]
              (download sys args selections all_units headers)) as Hemits
      by (apply emits_download; rewrite ?Hmode; compute_done).
    destruct (Hemits w) as (new & Htrace & Hkinds).
    exists new. split; [done|]. eapply Forall_impl; [done|].
    intros ev Hev url path ->. simpl in Hev.
    repeat (apply elem_of_cons in Hev as [Hev|Hev]; [done|]).
    by apply elem_of_nil in Hev.
Qed.

(** X7.  When no selected subsection has a unit in [all_units] (its key is
    missing or its list is empty), [download] still announces the output
    directory and creates the directory of every selected section, in
    order, and does nothing else: it succeeds and leaves the files as they
    are. *)
Theorem download_without_units (sys : env) (args : args_t)
    (selections : selections_t) (all_units : all_units_map)
    (headers : headers_t) (w : world) :
  (∀ course sections section subsection,
     (course, sections) ∈ selections → section ∈ sections →
     subsection ∈ subsections section →
     default [] (get all_units (subsection_url subsection)) = []) →
  download sys args selections all_units headers w
  = (Ok (),
     mkWorld (cwd w) (files w)
       (trace w ++
        Printed ("[info] Output directory: " +:+ output_dir args)
        :: ('(course, sections) ← selections;
            section ← sections;
            [Mkdir (os_path_join
                      (os_path_join (output_dir args)
                         (directory_name sys (course_name course)))
                      (clean_filename sys
                         (fmt_02d (section_position section) +:+ "-"
                          +:+ section_name section)))]))).
Proof.
  intros Hnone. unfold download, bind at 1, compat_print, emit. simpl.
  set (w1 := mkWorld _ _ _).
  erewrite (for_each_events selections _
              (λ '(course, sections),
                 section ← sections;
                 [Mkdir (os_path_join
                           (os_path_join (output_dir args)
                              (directory_name sys (course_name course)))
                           (clean_filename sys
                              (fmt_02d (section_position section) +:+ "-"
                               +:+ section_name section)))])).
  - unfold add_events, w1. simpl. f_equal. f_equal.
    by rewrite <-app_assoc.
  - intros [course sections] w' Hcourse.
    apply for_each_events. intros section w'' Hsection.
    unfold bind, mkdir_p, emit. simpl.
    assert ((subsection ← subsections section;
             default [] (get all_units (subsection_url subsection))) = [])
      as ->.
    { assert (∀ subsection, subsection ∈ subsections section →
                default [] (get all_units (subsection_url subsection)) = [])
        as Hs by (intros; by eapply Hnone).
      clear -Hs.
      induction (subsections section) as [|x l IH]; [done|].
      rewrite bind_cons, Hs by (apply elem_of_cons; by left). simpl.
      apply IH. intros ??. apply Hs. apply elem_of_cons. by right. }
    done.
Qed.

Lemma download_without_units_witness :
  download (site []) cdn_args week1 [("/s1", [])] no_headers fresh_world
  = (Ok (),
     mkWorld "/home/user" ∅
       [Printed "[info] Output directory: Downloaded";
        Mkdir "Downloaded/CourseA/01-Week 1"]).
Proof.
  apply (download_without_units (site []) cdn_args week1 [("/s1", [])]
           no_headers fresh_world).
  intros course sections section subsection Hc Hs Hss.
  apply list_elem_of_singleton in Hc. injection Hc as -> ->.
  apply list_elem_of_singleton in Hs. subst section.
  simpl in Hss. apply elem_of_cons in Hss as [->|Hss]; [reflexivity|].
  apply list_elem_of_singleton in Hss. subst subsection. reflexivity.
Defined.

(** X8.  With [--dry-run], [main] downloads nothing: it creates no
    directory, retrieves no url and runs no command.  All it does is
    print, fetch pages and, with [--cache], write the cache; without
    [--cache] it leaves the files as they are. *)
Theorem dry_run_downloads_nothing (sys : env) (args : args_t)
    (selections : selections_t) (headers : headers_t) (w : world) :
  dry_run args = true →
  let w' := (main_from_selections sys args selections headers w).2 in
  (∃ new, trace w' = trace w ++ new ∧
          Forall (λ ev, kind_of ev ∈ [KPrinted; KNetFetch; KFileWrite]) new) ∧
  (cache args = false → files w' = files w).
Proof.
  intros Hdry w'. subst w'. split.
  - apply (emits_bind [KPrinted; KNetFetch; KFileWrite]).
    + destruct (cache args).
      * apply emits_extract_all_units_with_cache; compute_done.
      * apply emits_extract_all_units; compute_done.
    + intros all_units. apply emits_bind.
      { unfold parse_units. case_decide; [|apply emits_ret].
        apply emits_bind; [apply emits_print; compute_done|].
        intros. apply emits_raise. }
      intros _. apply emits_bind.
      { destruct (cache args); [|apply emits_ret].
        unfold write_units_to_cache.
        apply emits_bind; [apply emits_print; compute_done|].
        intros. apply emits_write_file. compute_done. }
      intros _. apply emits_bind; [apply emits_print; compute_done|].
      intros _. rewrite Hdry. apply emits_ret.
  - intros Hcache.
    assert (quiet (main_from_selections sys args selections headers)) as Hq.
    { unfold main_from_selections. rewrite Hcache, Hdry. simpl.
      apply quiet_bind.
      - apply CacheMore.quiet_extract_all_units.
      - intros all_units. apply quiet_bind.
        { unfold parse_units. case_decide; [|apply quiet_ret].
          apply quiet_bind; [apply quiet_print|]. intros. apply quiet_raise. }
        intros. apply quiet_bind; [apply quiet_ret|]. intros.
        apply quiet_bind; [apply quiet_print|]. intros. apply quiet_ret. }
    apply Hq.
Qed.

Lemma dry_run_downloads_nothing_witness :
  let args := {| format := None; subtitles := true; output_dir := "Downloaded";
                 youtube_options := ""; prefer_cdn_videos := true;
                 cache := false; dry_run := true |} in
  let w' := (main_from_selections (site two_subsections) args week1
               no_headers fresh_world).2 in
  (∃ new, trace w' = [] ++ new ∧
          Forall (λ ev, kind_of ev ∈ [KPrinted; KNetFetch; KFileWrite]) new) ∧
  (false = false → files w' = ∅).
Proof.
  apply (dry_run_downloads_nothing (site two_subsections)
           {| format := None; subtitles := true; output_dir := "Downloaded";
              youtube_options := ""; prefer_cdn_videos := true;
              cache := false; dry_run := true |}
           week1 no_headers fresh_world).
  reflexivity.
Defined.



End DownloadMore.

(** * More on extraction, the cache and [main] *)

Module CacheMoreProps.
Import Dedup Cache Download Pipeline EffectSpec MoreSpec.
Import CacheFacts DictMore DownloadFacts CacheMore Samples.

(** X9.  Whatever the schedule of the threads of the pool,
    [extract_all_units] returns exactly when every requested page can
    be extracted.  The map it returns has the requested urls as keys,
    each mapped to the units of its page, also when a url is requested
    more than once; every url has been fetched as often as it was
    requested, in some order, and no file has changed. *)
Theorem extract_all_units_pages (sys : env) (urls : list string)
    (headers : headers_t) (w : world) :
  let '(r, w') := extract_all_units sys urls headers w in
  ((∃ all_units, r = Ok all_units)
   ↔ (∀ url, url ∈ urls → ∃ us, page_units sys url headers = Ok us)) ∧
  ∀ all_units, r = Ok all_units →
    wf all_units ∧
    (∀ url, url ∈ keys all_units ↔ url ∈ urls) ∧
    (∀ url us, get all_units url = Some us →
               page_units sys url headers = Ok us) ∧
    files w' = files w ∧
    ∃ new, trace w' = trace w ++ new ∧ fetches_of new ≡ₚ urls.
Proof.
  destruct (ExtractFacts.extract_all_units_run sys urls headers w)
    as (new & _ & _ & _ & Hok & Htotal).
  destruct (extract_all_units sys urls headers w) as [r w'] eqn:Hrun.
  simpl in Hok, Htotal. split.
  - split; [|done]. intros [all_units ->].
    destruct (Hok all_units eq_refl) as (_ & units & Hpages & _).
    intros url [i Hi]%list_elem_of_lookup.
    destruct (Forall2_lookup_l _ _ _ _ _ Hpages Hi) as (us & _ & Hus).
    by exists us.
  - intros all_units ->.
    apply extract_all_units_inv in Hrun as (_ & ? & ? & ? & ? & ?). done.
Qed.

Lemma extract_all_units_pages_witness :
  let '(r, w') := extract_all_units (site course_units) ["/s2"; "/s1"; "/s2"]
                    no_headers fresh_world in
  ((∃ all_units, r = Ok all_units)
   ↔ (∀ url, url ∈ ["/s2"; "/s1"; "/s2"] →
        ∃ us, page_units (site course_units) url no_headers = Ok us)) ∧
  ∀ all_units, r = Ok all_units →
    wf all_units ∧
    (∀ url, url ∈ keys all_units ↔ url ∈ ["/s2"; "/s1"; "/s2"]) ∧
    (∀ url us, get all_units url = Some us →
               page_units (site course_units) url no_headers = Ok us) ∧
    files w' = ∅ ∧
    ∃ new, trace w' = [] ++ new ∧ fetches_of new ≡ₚ ["/s2"; "/s1"; "/s2"].
Proof.
  apply (extract_all_units_pages (site course_units) ["/s2"; "/s1"; "/s2"]
           no_headers fresh_world).
Defined.

Example extract_all_units_repeated_url :
  (extract_all_units (site course_units) ["/s2"; "/s1"; "/s2"]
     no_headers fresh_world).1
  = Ok [("/s2", [lecture]); ("/s1", [lecture; lecture_again])].
Proof. vm_compute. reflexivity. Qed.

(** With a schedule that lets the threads take turns, the prints and
    the fetches of the pages interleave; the map is the same. *)
Example extract_all_units_interleaved :
  extract_all_units (site_scheduled (λ step, step) course_units)
    ["/s1"; "/s2"; "/s3"] no_headers fresh_world
  = (Ok course_units,
     mkWorld "/home/user" ∅
       [Printed "Processing '/s1'"; Printed "Processing '/s2'";
        Printed "Processing '/s3'";
        NetFetch "/s1"; NetFetch "/s2"; NetFetch "/s3"]).
Proof. vm_compute. reflexivity. Qed.

(** When a page fails, the other pages are fetched all the same before
    the exception is raised. *)
Example extract_all_units_failure :
  extract_all_units (site two_subsections) ["/s1"; "/missing"; "/s2"]
    no_headers fresh_world
  = (Raise HTTPError,
     mkWorld "/home/user" ∅
       [Printed "Processing '/s1'"; NetFetch "/s1";
        Printed "Processing '/missing'"; NetFetch "/missing";
        Printed "Processing '/s2'"; NetFetch "/s2"]).
Proof. vm_compute. reflexivity. Qed.

(** X10.  What [write_units_to_cache] writes, a later
    [extract_all_units_with_cache] on the same file reads back: it returns
    the written map and fetches nothing, provided every requested url is a
    key of the map. *)
Theorem cache_round_trip (sys : env) (filename : string)
    (units : all_units_map) (urls : list string) (headers : headers_t)
    (w : world) :
  (∀ url, url ∈ urls → url ∈ keys units) →
  let written := write_units_to_cache filename units w in
  written.1 = Ok () ∧
  ∃ new,
    extract_all_units_with_cache sys filename urls headers written.2
    = (Ok units, add_events written.2 new) ∧
    fetches_of new = [].
Proof.
  intros Hkeys written. split; [done|].
  eexists. split; [apply cache_hit_run; [|done]|done].
  subst written. unfold write_units_to_cache, bind, compat_print, emit,
    write_file, resolve. simpl. apply lookup_insert_eq.
Qed.

Lemma cache_round_trip_witness :
  let written := write_units_to_cache ".edx-dl.cache" course_units fresh_world in
  written.1 = Ok () ∧
  ∃ new,
    extract_all_units_with_cache (site []) ".edx-dl.cache" ["/s3"; "/s1"]
      no_headers written.2
    = (Ok course_units, add_events written.2 new) ∧
    fetches_of new = [].
Proof.
  apply (cache_round_trip (site []) ".edx-dl.cache" course_units
           ["/s3"; "/s1"] no_headers fresh_world).
  apply Forall_forall. compute_done.
Defined.

(** X11.  After a dry run of [main] with [--cache] that succeeds, a second
    such run on the same selection succeeds too and fetches nothing,
    whatever the site serves by then. *)
Theorem second_cached_run_fetches_nothing (sys1 sys2 : env) (args : args_t)
    (selections : selections_t) (headers : headers_t) (w : world) :
  cache args = true → dry_run args = true →
  DEFAULT_CACHE_FILENAME sys2 = DEFAULT_CACHE_FILENAME sys1 →
  (main_from_selections sys1 args selections headers w).1 = Ok () →
  let w1 := (main_from_selections sys1 args selections headers w).2 in
  let second := main_from_selections sys2 args selections headers w1 in
  second.1 = Ok () ∧
  ∃ new, trace second.2 = trace w1 ++ new ∧ fetches_of new = [].
Proof.
  intros Hcache Hdry Hname Hok w1 second.
  set (all_urls := selected_sections ← selections.*2;
                   selected_section ← selected_sections;
                   subsection ← subsections selected_section;
                   [subsection_url subsection]).
  set (filename := DEFAULT_CACHE_FILENAME sys1).
  assert (∃ all_units,
            files w1 !! resolve w1 filename = Some (Pickled all_units) ∧
            (∀ url, url ∈ all_urls → url ∈ keys all_units) ∧
            (∀ w0, parse_units selections w0 = (Ok (), w0)))
    as (all_units & Hfile & Hkeys & Hparse).
  { subst w1. revert Hok. unfold main_from_selections.
    rewrite Hcache, Hdry. fold all_urls filename. simpl.
    intros Hok. apply bind_Ok_inv in Hok as Hext.
    destruct Hext as (all_units & wa & Hext & Heq). rewrite Heq in *. clear Heq.
    apply extract_with_cache_inv in Hext as (_ & _ & Hkeys).
    apply bind_Ok_inv in Hok as Hp.
    destruct Hp as ([] & wb & Hp & Heq). rewrite Heq in *. clear Heq Hok.
    assert (∀ w0, parse_units selections w0 = (Ok (), w0)) as Hparse.
    { revert Hp. unfold parse_units. by case_decide. }
    exists all_units. split_and!; [|done..].
    unfold write_units_to_cache, bind, compat_print, emit, write_file, resolve.
    simpl. apply lookup_insert_eq. }
  subst second. unfold main_from_selections.
  rewrite Hcache, Hdry, Hname. fold all_urls filename. simpl.
  rewrite (bind_run _ _ _ _ _
             (cache_hit_run sys2 filename all_urls headers w1 all_units
                Hfile Hkeys)).
  rewrite (bind_run _ _ _ _ _ (Hparse _)).
  unfold write_units_to_cache, bind, compat_print, emit, write_file,
    add_events, ret. simpl.
  split; [done|]. eexists. split; [by rewrite <-!app_assoc|]. done.
Qed.

Lemma second_cached_run_fetches_nothing_witness :
  let args := {| format := None; subtitles := false; output_dir := "Downloaded";
                 youtube_options := ""; prefer_cdn_videos := true;
                 cache := true; dry_run := true |} in
  let w1 := (main_from_selections (site two_subsections) args week1
               no_headers fresh_world).2 in
  let second := main_from_selections (site []) args week1 no_headers w1 in
  second.1 = Ok () ∧
  ∃ new, trace second.2 = trace w1 ++ new ∧ fetches_of new = [].
Proof.
  apply (second_cached_run_fetches_nothing (site two_subsections) (site [])
           {| format := None; subtitles := false; output_dir := "Downloaded";
              youtube_options := ""; prefer_cdn_videos := true;
              cache := true; dry_run := true |}
           week1 no_headers fresh_world); reflexivity.
Defined.

(** X12.  When no section is selected, [main] without [--cache] fetches
    nothing, warns that there is no downloadable video and exits with
    code 6, before any report or download. *)
Theorem main_without_sections (sys : env) (args : args_t)
    (selections : selections_t) (headers : headers_t) (w : world) :
  cache args = false →
  mjoin selections.*2 = [] →
  main_from_selections sys args selections headers w
  = (Raise (SystemExit 6),
     add_events w [Printed "WARNING: No downloadable video found."]).
Proof.
  intros Hcache Hnone. unfold main_from_selections. rewrite Hcache.
  assert ((selected_sections ← selections.*2;
           selected_section ← selected_sections;
           subsection ← subsections selected_section;
           [subsection_url subsection]) = []) as ->.
  { revert Hnone. generalize (selections.*2). intros l.
    induction l as [|x l IH]; [done|]. cbn [mjoin list_join].
    intros [-> Hl]%app_eq_nil. rewrite bind_cons. simpl. by apply IH. }
  unfold parse_units.
  assert ((units ← selections.*2; units) = []) as ->.
  { rewrite <-Hnone. generalize (selections.*2). intros l.
    induction l as [|x l IH]; [done|].
    rewrite bind_cons. cbn [mjoin list_join]. by rewrite IH. }
  unfold bind, extract_all_units, Pool.pool_map, compat_print, emit, raise,
    ret, add_events.
  simpl. by rewrite app_nil_r.
Qed.

Lemma main_without_sections_witness :
  main_from_selections (site two_subsections) cdn_args
    [(mkCourse "c1" "CourseA" "/c1/info" "Started", [])] no_headers fresh_world
  = (Raise (SystemExit 6),
     add_events fresh_world [Printed "WARNING: No downloadable video found."]).
Proof.
  apply (main_without_sections (site two_subsections) cdn_args
           [(mkCourse "c1" "CourseA" "/c1/info" "Started", [])]
           no_headers fresh_world); reflexivity.
Defined.

End CacheMoreProps.

(** * More on subtitles *)

Module SubtitleMore.
Import Download EffectSpec MoreSpec.
Import CacheFacts DictMore DownloadFacts CacheMore Samples.

(** X13.  A site that refuses the subtitles does not stop the download.
    When the request of every subtitle fails with [URLError] or
    [HTTPError], [_download_subtitles] returns normally and writes no
    file: for each language in turn it skips the file that is there, or
    makes the request and prints a warning with the reason of the
    refusal.  A request that fails with [ValueError] is another matter:
    the handler fails in its turn, and [AttributeError] is raised out of
    the loop. *)
Theorem subtitles_refused (sys : env) (unit : Unit)
    (target_dir filename_prefix : string) (headers : headers_t) (w w1 : world)
    (filename template : string) (urls : dict string) :
  get_filename_from_prefix sys (files w) target_dir filename_prefix
  = Some filename →
  sub_template_url unit = Some template →
  get_subtitles_download_urls sys (available_subs_url unit) (Some template)
    headers w = (Ok urls, w1) →
  (∀ sub_lang sub_url, (sub_lang, sub_url) ∈ urls →
     ∃ e, page_srt sys sub_url headers = Raise e ∧
          isinstance_URLError e = true) →
  _download_subtitles sys unit target_dir filename_prefix headers w
  = (Ok (),
     add_events w1
       (urls ≫= refused_subtitle_events sys w target_dir filename headers)) ∧
  files w1 = files w ∧
  ∀ sub_lang sub_url w0,
    files w0 !! resolve w0 (os_path_join target_dir
                              (filename +:+ "." +:+ sub_lang +:+ ".srt"))
    = None →
    page_srt sys sub_url headers = Raise ValueError →
    download_subtitle sys target_dir filename headers (sub_lang, sub_url) w0
    = (Raise AttributeError, add_events w0 [NetFetch sub_url]).
Proof.
  intros Hfile Htemplate Hurls Hrefused.
  destruct (SubtitleFacts.quiet_get_subtitles_download_urls sys
              (available_subs_url unit) (Some template) headers w)
    as (Hcwd & Hfiles & _).
  rewrite Hurls in Hcwd, Hfiles. simpl in Hcwd, Hfiles.
  split_and!; [|done|].
  - unfold _download_subtitles, bind at 1. rewrite Hfile, Htemplate.
    rewrite (bind_run _ _ _ _ _ Hurls). unfold items. clear Hurls.
    assert (∀ t, for_each urls
                   (download_subtitle sys target_dir filename headers)
                   (add_events w1 t)
                 = (Ok (),
                    add_events w1
                      (t ++ (urls ≫= refused_subtitle_events sys w target_dir
                                       filename headers)))) as Hloop.
    { induction urls as [|[sub_lang sub_url] urls IH]; intros t.
      - simpl. by rewrite app_nil_r.
      - assert (download_subtitle sys target_dir filename headers
                  (sub_lang, sub_url) (add_events w1 t)
                = (Ok (),
                   add_events w1
                     (t ++ refused_subtitle_events sys w target_dir filename
                             headers (sub_lang, sub_url)))) as Hstep.
        { unfold download_subtitle, refused_subtitle_events, bind at 1,
            os_path_exists, resolve. simpl. rewrite Hcwd, Hfiles.
          set (path := os_path_join (cwd w) _).
          destruct (decide (is_Some (files w !! path))) as [Hex|Hex].
          - rewrite bool_decide_eq_true_2 by done. simpl.
            unfold compat_print, emit, add_events. simpl.
            by rewrite <-app_assoc.
          - rewrite bool_decide_eq_false_2 by done. simpl.
            destruct (Hrefused sub_lang sub_url) as (e & He & Hurl).
            { apply elem_of_cons. by left. }
            unfold bind, edx_get_subtitle, try_except, emit, lift,
              compat_print, emit, ret, add_events.
            simpl. rewrite He.
            destruct e; try discriminate Hurl; simpl; by rewrite <-!app_assoc. }
        cbn [for_each]. rewrite (bind_run _ _ _ _ _ Hstep).
        rewrite IH.
        + by rewrite bind_cons, app_assoc.
        + intros lang url Hin. apply (Hrefused lang url).
          apply elem_of_cons. by right. }
    specialize (Hloop []). by rewrite add_events_nil in Hloop.
  - intros sub_lang sub_url w0 Hnone Hfail.
    unfold download_subtitle, bind at 1, os_path_exists.
    rewrite bool_decide_eq_false_2 by (rewrite Hnone; by intros [??]).
    unfold bind, edx_get_subtitle, try_except, emit, lift, raise, add_events.
    simpl. by rewrite Hfail.
Qed.

Lemma subtitles_refused_witness :
  _download_subtitles (site_without_subtitles HTTPError []) lecture
    "Downloaded/c/01-w" "01" no_headers fresh_world
  = (Ok (),
     mkWorld "/home/user" ∅
       [NetFetch "/subs/v1";
        NetFetch "/subs/v1/en";
        Printed "[warning] edX subtitles (error:Not Found)";
        NetFetch "/subs/v1/es";
        Printed "[warning] edX subtitles (error:Not Found)"]).
Proof.
  destruct (subtitles_refused (site_without_subtitles HTTPError []) lecture
              "Downloaded/c/01-w" "01" no_headers fresh_world
              (add_events fresh_world [NetFetch "/subs/v1"])
              "01-video" "/subs/v1/%s"
              [("en", "/subs/v1/en"); ("es", "/subs/v1/es")])
    as (Hrun & _).
  - reflexivity.
  - reflexivity.
  - vm_compute. reflexivity.
  - intros sub_lang sub_url _. exists HTTPError. split; reflexivity.
  - etransitivity; [exact Hrun|]. vm_compute. reflexivity.
Defined.

(** X14.  [_download_subtitles] gives up without a request and without a
    write in three cases.  With no downloaded video for the prefix, it
    warns that no video was downloaded.  With a video and a unit that
    has no [sub_template_url], it warns that no subtitles are
    downloaded.  With a video and a template and a unit that has no
    [available_subs_url], it prints nothing at all. *)
Theorem download_subtitles_gives_up (sys : env) (unit : Unit)
    (target_dir filename_prefix : string) (headers : headers_t) (w : world) :
  let found :=
    get_filename_from_prefix sys (files w) target_dir filename_prefix in
  let run := _download_subtitles sys unit target_dir filename_prefix headers w in
  (found = None →
   run = (Ok (),
          add_events w [Printed ("[warning] no video downloaded for "
                                 +:+ filename_prefix)])) ∧
  (is_Some found → sub_template_url unit = None →
   run = (Ok (),
          add_events w [Printed ("[warning] no subtitles downloaded for "
                                 +:+ filename_prefix)])) ∧
  (is_Some found → is_Some (sub_template_url unit) →
   available_subs_url unit = None →
   run = (Ok (), w)).
Proof.
  intros found run. subst found run.
  unfold _download_subtitles, bind.
  destruct (get_filename_from_prefix sys (files w) target_dir filename_prefix)
    as [filename|].
  - split_and!; [done| |].
    + intros _ ->. done.
    + intros _ [template Htemplate] Hsubs. rewrite Htemplate, Hsubs.
      unfold get_subtitles_download_urls, bind, ret. done.
  - split_and!; [done| |]; by intros [??].
Qed.

Lemma download_subtitles_gives_up_witness :
  _download_subtitles (site []) (unit_mp4 ["http://x/a.mp4"]) "out" "01"
    no_headers fresh_world
  = (Ok (),
     add_events fresh_world [Printed "[warning] no subtitles downloaded for 01"]).
Proof.
  destruct (download_subtitles_gives_up (site []) (unit_mp4 ["http://x/a.mp4"])
              "out" "01" no_headers fresh_world) as (_ & Htemplate & _).
  apply Htemplate; [by eexists|reflexivity].
Defined.

(** X15.  When the list of languages arrives and the template takes each
    language, [get_subtitles_download_urls] makes one request and returns
    a dictionary whose keys are the listed languages, each mapped to the
    template filled in with that language. *)
Theorem subtitle_urls_per_language (sys : env) (subs_url template : string)
    (headers : headers_t) (w : world) (languages : list string) :
  page_languages sys subs_url headers = Ok languages →
  (∀ lang, lang ∈ languages → ∃ sub_url, str_mod sys template lang = Ok sub_url) →
  ∃ urls,
    get_subtitles_download_urls sys (Some subs_url) (Some template) headers w
    = (Ok urls, add_events w [NetFetch subs_url]) ∧
    wf urls ∧
    (∀ lang, lang ∈ keys urls ↔ lang ∈ languages) ∧
    (∀ lang sub_url, get urls lang = Some sub_url →
                     str_mod sys template lang = Ok sub_url).
Proof.
  intros Hlangs Hmod.
  destruct (map_M_lift_ok (str_mod sys template) (λ lang sub_url, (lang, sub_url))
              languages (add_events w [NetFetch subs_url]) Hmod)
    as (pairs & Hrun & Hpairs).
  exists (of_pairs pairs). split_and!.
  - unfold get_subtitles_download_urls.
    assert (try_except
              (emit (NetFetch subs_url) ;; lift (page_languages sys subs_url headers))
              (λ e, bool_decide (e = HTTPError)) (λ _, ret ["en"]) w
            = (Ok languages, add_events w [NetFetch subs_url])) as Htry.
    { unfold try_except, bind, emit, lift. simpl. by rewrite Hlangs. }
    rewrite (bind_run _ _ _ _ _ Htry).
    by rewrite (bind_run _ _ _ _ _ Hrun).
  - apply of_pairs_wf.
  - intros lang. rewrite of_pairs_keys.
    assert (pairs.*1 = languages) as ->; [|done].
    clear -Hpairs. induction Hpairs as [|???? (y & _ & ->)]; [done|].
    simpl. by f_equal.
  - intros lang sub_url Hin%of_pairs_get.
    clear -Hpairs Hin. induction Hpairs as [|x p l ps (y & Hy & ->) _ IH].
    + by apply elem_of_nil in Hin.
    + apply elem_of_cons in Hin as [[= -> ->]|Hin]; [done|by apply IH].
Qed.

Lemma subtitle_urls_per_language_witness :
  ∃ urls,
    get_subtitles_download_urls (site []) (Some "/subs/v1")
      (Some "/subs/v1/%s") no_headers fresh_world
    = (Ok urls, add_events fresh_world [NetFetch "/subs/v1"]) ∧
    wf urls ∧
    (∀ lang, lang ∈ keys urls ↔ lang ∈ ["en"; "es"]) ∧
    (∀ lang sub_url, get urls lang = Some sub_url →
                     str_mod (site []) "/subs/v1/%s" lang = Ok sub_url).
Proof.
  apply (subtitle_urls_per_language (site []) "/subs/v1" "/subs/v1/%s"
           no_headers fresh_world ["en"; "es"]); [reflexivity|].
  intros lang Hlang.
  apply elem_of_cons in Hlang as [->|Hlang]; [by eexists|].
  apply list_elem_of_singleton in Hlang as ->. by eexists.
Defined.

End SubtitleMore.

(** * Sites, courses and sections *)

Module SelectionMore.
Import Download Selection SelectionSamples EffectSpec MoreSpec.
Import CacheFacts DownloadFacts FormatFacts SelectionFacts Samples.

(** X17.  [_filter_sections] never fails and never chooses nothing from a
    course that has sections.  When the index reads as a number between 1
    and the number of sections, it chooses the one section at that
    position; otherwise (no index, not a number, out of range) it chooses
    all sections. *)
Theorem filter_sections_choice (py_int : string → option Z)
    (index : option string) (sections : list Section_) :
  ∃ chosen,
    _filter_sections py_int index sections = Ok chosen ∧
    sublist chosen sections ∧
    (sections ≠ [] → chosen ≠ []) ∧
    match index ≫= py_int with
    | Some i =>
        if decide (0 < i ≤ Z.of_nat (length sections))%Z
        then ∃ section, sections !! Z.to_nat (i - 1) = Some section ∧
                        chosen = [section]
        else chosen = sections
    | None => chosen = sections
    end.
Proof. apply filter_sections_ok. Qed.

Example filter_sections_second :
  _filter_sections sample_int (Some "2") three_sections
  = Ok [mkSection 2 "Week 2" [mkSubSection "Lecture 2" "/s2"]] ∧
  _filter_sections sample_int (Some "4") three_sections = Ok three_sections ∧
  _filter_sections sample_int (Some "two") three_sections = Ok three_sections.
Proof. vm_compute. done. Qed.

(** X18.  Unless it lists the sections, [parse_sections] returns, prints
    nothing, and keeps the courses in their order; for each course it
    keeps a part of its sections, and at least one when there is one.
    Without [--filter-section], or with an empty one, the selections are
    returned as they are. *)
Theorem parse_sections_keeps_courses (py_int : string → option Z)
    (args : selection_args) (selections : selections_t) (w : world) :
  list_sections args = false →
  ∃ chosen,
    parse_sections py_int args selections w = (Ok chosen, w) ∧
    chosen.*1 = selections.*1 ∧
    Forall2 (λ before after,
               sublist after.2 before.2 ∧ (before.2 ≠ [] → after.2 ≠ []))
      selections chosen ∧
    (filter_section args = None ∨ filter_section args = Some "" →
     chosen = selections).
Proof.
  intros Hlist. unfold parse_sections. rewrite Hlist.
  assert (∀ k : NoneType → M selections_t, bind (ret ()) k w = k () w) as ->
    by done.
  assert (Forall2 (λ before after : Course * list Section_,
                     sublist after.2 before.2 ∧ (before.2 ≠ [] → after.2 ≠ []))
            selections selections) as Hrefl.
  { apply Forall_Forall2_diag, Forall_forall. by intros. }
  destruct (filter_section args) as [index|] eqn:Hindex;
    [|by exists selections].
  destruct (decide (index = "")) as [->|Hne]; [by exists selections|].
  assert (∃ chosen,
            map_M (λ '(selected_course, selected_sections),
                     filtered <- lift (_filter_sections py_int (Some index)
                                         selected_sections) ;;
                     ret (selected_course, filtered)) selections w
            = (Ok chosen, w) ∧
            chosen.*1 = selections.*1 ∧
            Forall2 (λ before after : Course * list Section_,
                       sublist after.2 before.2 ∧ (before.2 ≠ [] → after.2 ≠ []))
              selections chosen) as (chosen & Hrun & Hkeys & Hparts).
  { clear. induction selections as [|[course sections] selections IH].
    - by exists [].
    - destruct IH as (chosen & Hrun & Hkeys & Hparts).
      destruct (filter_sections_ok py_int (Some index) sections)
        as (part & Hpart & Hsub & Hne & _).
      exists ((course, part) :: chosen). split_and!.
      + assert (bind (lift (_filter_sections py_int (Some index) sections))
                  (λ filtered, ret (course, filtered)) w
                = (Ok (course, part), w)) as Hx
          by (unfold bind, lift, ret; by rewrite Hpart).
        cbn [map_M]. rewrite (bind_run _ _ _ _ _ Hx).
        by rewrite (bind_run _ _ _ _ _ Hrun).
      + simpl. by f_equal.
      + by constructor. }
  exists chosen. split_and!; [|done|done|].
  - destruct index; [done|]. exact Hrun.
  - intros [?|[= ->]]; done.
Qed.

Lemma parse_sections_keeps_courses_witness :
  ∃ chosen,
    parse_sections sample_int (mkSelectionArgs ["/c1/info"] false (Some "2") false)
      [(course_a, three_sections)] fresh_world
    = (Ok chosen, fresh_world) ∧
    chosen.*1 = [course_a] ∧
    Forall2 (λ before after,
               sublist after.2 before.2 ∧ (before.2 ≠ [] → after.2 ≠ []))
      [(course_a, three_sections)] chosen ∧
    (Some "2" = None ∨ Some "2" = Some "" → chosen = [(course_a, three_sections)]).
Proof.
  apply (parse_sections_keeps_courses sample_int
           (mkSelectionArgs ["/c1/info"] false (Some "2") false)
           [(course_a, three_sections)] fresh_world).
  reflexivity.
Defined.

(** X19.  Unless it lists the courses, [parse_courses] either returns a
    non-empty list made of exactly the available courses whose url was
    passed, printing nothing, or it prints one message and exits: with
    code 3 when no url was passed, with code 4 when urls were passed but
    none is the url of an available course. *)
Theorem parse_courses_outcome (args : selection_args)
    (available_courses : list Course) (w : world) :
  list_courses args = false →
  match parse_courses args available_courses w with
  | (Ok selected_courses, w') =>
      w' = w ∧ selected_courses ≠ [] ∧
      ∀ course, course ∈ selected_courses
                ↔ course ∈ available_courses ∧ course_url course ∈ course_urls args
  | (Raise e, w') =>
      (∃ msg, w' = add_events w [Printed msg]) ∧
      ((e = SystemExit 3 ∧ course_urls args = []) ∨
       (e = SystemExit 4 ∧ course_urls args ≠ [] ∧
        ∀ course, course ∈ available_courses →
                  course_url course ∉ course_urls args))
  end.
Proof.
  intros Hlist. unfold parse_courses. rewrite Hlist.
  set (selected := available_courses ≫= _).
  assert (∀ course, course ∈ selected
                    ↔ course ∈ available_courses
                      ∧ course_url course ∈ course_urls args) as Hsel.
  { intros course. unfold selected. rewrite list_elem_of_bind. split.
    - intros (available & Hin & Havail).
      apply list_elem_of_bind in Hin as (url & Hin & Hurl).
      case_decide; [|by apply elem_of_nil in Hin].
      apply list_elem_of_singleton in Hin. by subst.
    - intros [Havail Hurl]. exists course. split; [|done].
      apply list_elem_of_bind. exists (course_url course). split; [|done].
      rewrite decide_True by done. by apply list_elem_of_singleton. }
  unfold bind, ret, raise, compat_print, emit. simpl.
  destruct (decide (length (course_urls args) = 0)) as [Hnone|Hsome]; simpl.
  { split; [by eexists|]. left. split; [done|].
    by apply length_zero_iff_nil. }
  destruct (decide (length selected = 0)) as [Hempty|Hfound]; simpl.
  - split; [by eexists|]. right. split_and!; [done| |].
    + intros Heq. by rewrite Heq in Hsome.
    + intros course Havail Hurl. apply length_zero_iff_nil in Hempty.
      assert (course ∈ selected) as Hin by (by apply Hsel).
      rewrite Hempty in Hin. by apply elem_of_nil in Hin.
  - split_and!; [done| |done]. intros Heq. by rewrite Heq in Hfound.
Qed.

Lemma parse_courses_outcome_witness :
  match parse_courses (mkSelectionArgs ["/c2/info"] false None false)
          [course_a; course_b] fresh_world with
  | (Ok selected_courses, w') =>
      w' = fresh_world ∧ selected_courses ≠ [] ∧
      ∀ course, course ∈ selected_courses
                ↔ course ∈ [course_a; course_b] ∧ course_url course ∈ ["/c2/info"]
  | (Raise e, w') =>
      (∃ msg, w' = add_events fresh_world [Printed msg]) ∧
      ((e = SystemExit 3 ∧ ["/c2/info"] = []) ∨
       (e = SystemExit 4 ∧ ["/c2/info"] ≠ [] ∧
        ∀ course, course ∈ [course_a; course_b] →
                  course_url course ∉ ["/c2/info"]))
  end.
Proof.
  apply (parse_courses_outcome (mkSelectionArgs ["/c2/info"] false None false)
           [course_a; course_b] fresh_world).
  reflexivity.
Defined.

Example parse_courses_runs :
  (parse_courses (mkSelectionArgs ["/c2/info"] false None false)
     [course_a; course_b] fresh_world).1 = Ok [course_b] ∧
  (parse_courses (mkSelectionArgs [] false None false)
     [course_a; course_b] fresh_world).1 = Raise (SystemExit 3) ∧
  (parse_courses (mkSelectionArgs ["/c3/info"] false None false)
     [course_a; course_b] fresh_world).1 = Raise (SystemExit 4) ∧
  (parse_courses (mkSelectionArgs ["/c1/info"; "/c1/info"] false None false)
     [course_a; course_b] fresh_world).1 = Ok [course_a; course_a].
Proof. vm_compute. done. Qed.

(** X20.  [change_openedx_site] succeeds exactly for the seven names of
    [OPENEDX_SITES].  It then sets the globals from the entry of the site
    alone, whatever they were: [EDX_HOMEPAGE] and [LOGIN_API] are both
    [BASE_URL + '/login_ajax'] and [DASHBOARD] is [BASE_URL + '/dashboard'];
    for ['edx'] they are the globals the module starts with.  For any other
    name it prints the list of names and exits with code 2. *)
Theorem change_openedx_site_outcome (site_name : string) (g : globals)
    (w : world) :
  match change_openedx_site site_name g w with
  | (Ok g', w') =>
      w' = w ∧
      site_name ∈ ["edx"; "stanford"; "usyd-sit"; "fun"; "gwu-seas";
                   "gwu-open"; "mitprox"] ∧
      (∃ site, get OPENEDX_SITES site_name = Some site ∧
               BASE_URL g' = site_url site ∧
               COURSEWARE_SEL g' = courseware_selector site) ∧
      EDX_HOMEPAGE g' = BASE_URL g' +:+ "/login_ajax" ∧
      LOGIN_API g' = BASE_URL g' +:+ "/login_ajax" ∧
      DASHBOARD g' = BASE_URL g' +:+ "/dashboard" ∧
      (site_name = "edx" → g' = initial_globals)
  | (Raise e, w') =>
      e = SystemExit 2 ∧
      (site_name ∉ ["edx"; "stanford"; "usyd-sit"; "fun"; "gwu-seas";
                    "gwu-open"; "mitprox"]) ∧
      w' = add_events w
             [Printed "OpenEdX platform should be one of: edx, stanford, usyd-sit, fun, gwu-seas, gwu-open, mitprox"]
  end.
Proof.
  unfold change_openedx_site.
  destruct (get OPENEDX_SITES site_name) as [site|] eqn:Hget.
  - unfold ret. split_and!; try done.
    + apply get_Some_elem_of in Hget.
      change (site_name ∈ keys OPENEDX_SITES).
      apply list_elem_of_fmap. by exists (site_name, site).
    + by exists site.
    + intros ->. by injection Hget as <-.
  - unfold bind, compat_print, emit, raise. simpl. split_and!; try done.
    by apply get_None in Hget.
Qed.

(** X21.  The two listing options only list: with [--list-courses],
    [parse_courses] prints one line and two more for each course and exits
    with code 0, whatever urls were passed; with [--list-sections],
    [parse_sections] prints and exits with code 0 without choosing
    sections. *)
Theorem listing_exits (py_int : string → option Z) (args : selection_args)
    (available_courses : list Course) (selections : selections_t) (w : world) :
  (list_courses args = true →
   ∃ lines,
     parse_courses args available_courses w
     = (Raise (SystemExit 0), add_events w (Printed <$> lines)) ∧
     length lines = 1 + 2 * length available_courses) ∧
  (list_sections args = true →
   ∃ lines,
     parse_sections py_int args selections w
     = (Raise (SystemExit 0), add_events w (Printed <$> lines)) ∧
     length lines = length selections + length (mjoin selections.*2)).
Proof.
  split.
  - intros Hlist. unfold parse_courses, _display_courses. rewrite Hlist.
    set (numbered := zip _ _).
    exists (("You can access " +:+ pretty (length available_courses)
             +:+ " courses")
            :: ('(i, course) ← numbered;
                [fmt_2d i +:+ " - " +:+ course_name course
                 +:+ " [" +:+ course_id course +:+ "]";
                 "     " +:+ course_url course])).
    split.
    + unfold bind at 1 2 3 4, compat_print at 1, emit at 1. simpl.
      erewrite (for_each_events numbered _
                  (λ '(i, course),
                     [Printed (fmt_2d i +:+ " - " +:+ course_name course
                               +:+ " [" +:+ course_id course +:+ "]");
                      Printed ("     " +:+ course_url course)])).
      * unfold raise, add_events. simpl. rewrite <-app_assoc. simpl.
        do 4 f_equal. clear. induction numbered as [|[i c] l IH]; [done|].
        rewrite !bind_cons, fmap_app, IH. done.
      * intros [i course] w' _. unfold bind, compat_print, emit, add_events.
        simpl. by rewrite <-app_assoc.
    + simpl. f_equal.
      assert (length numbered = length available_courses) as <-.
      { unfold numbered. rewrite length_zip_with, length_seq. lia. }
      clear. induction numbered as [|[i c] l IH]; [done|].
      rewrite bind_cons, length_app, IH. simpl. lia.
  - intros Hlist. unfold parse_sections. rewrite Hlist.
    exists ('(course, sections) ← selections;
            (course_name course +:+ " [" +:+ course_id course +:+ "] has "
             +:+ pretty (length sections) +:+ " sections so far")
            :: ('(i, section) ← zip (seq 1 (length sections)) sections;
                [fmt_2d i +:+ " - Download " +:+ section_name section
                 +:+ " videos"])).
    split.
    + unfold bind at 1 2.
      erewrite (for_each_events selections _
                  (λ '(course, sections),
                     Printed (course_name course +:+ " [" +:+ course_id course
                              +:+ "] has " +:+ pretty (length sections)
                              +:+ " sections so far")
                     :: ('(i, section) ← zip (seq 1 (length sections)) sections;
                         [Printed (fmt_2d i +:+ " - Download "
                                   +:+ section_name section +:+ " videos")]))).
      * unfold raise. do 2 f_equal. clear.
        induction selections as [|[c ss] l IH]; [done|].
        rewrite !bind_cons, fmap_app, IH. f_equal. simpl. f_equal.
        generalize (zip (seq 1 (length ss)) ss). clear. intros numbered.
        induction numbered as [|[i s] l IH]; [done|].
        rewrite !bind_cons, fmap_app, IH. done.
      * intros [course sections] w' _. unfold _display_sections_menu.
        unfold bind at 1, compat_print at 1, emit at 1. simpl.
        erewrite (for_each_events _ _
                    (λ '(i, section),
                       [Printed (fmt_2d i +:+ " - Download "
                                 +:+ section_name section +:+ " videos")])).
        -- unfold add_events. simpl. by rewrite <-app_assoc.
        -- by intros [i section] w'' _.
    + clear. induction selections as [|[c ss] l IH]; [done|].
      rewrite bind_cons, length_app, IH.
      change (mjoin ((c, ss) :: l).*2) with (ss ++ mjoin l.*2).
      rewrite length_app. cbn [length].
      assert (∀ numbered : list (nat * Section_),
                length ('(i, section) ← numbered;
                        [fmt_2d i +:+ " - Download " +:+ section_name section
                         +:+ " videos"]) = length numbered) as ->.
      { clear. intros numbered. induction numbered as [|[i s] l IH]; [done|].
        rewrite bind_cons, length_app, IH. done. }
      rewrite length_zip_with, length_seq, Nat.min_id. lia.
Qed.

Lemma listing_exits_witness :
  (true = true →
   ∃ lines,
     parse_courses (mkSelectionArgs [] true None true) [course_a; course_b]
       fresh_world
     = (Raise (SystemExit 0), add_events fresh_world (Printed <$> lines)) ∧
     length lines = 1 + 2 * 2) ∧
  (true = true →
   ∃ lines,
     parse_sections sample_int (mkSelectionArgs [] true None true)
       [(course_a, three_sections)] fresh_world
     = (Raise (SystemExit 0), add_events fresh_world (Printed <$> lines)) ∧
     length lines = 1 + 3).
Proof.
  exact (listing_exits sample_int (mkSelectionArgs [] true None true)
           [course_a; course_b] [(course_a, three_sections)] fresh_world).
Defined.

End SelectionMore.
